(** * Smaug bookmark processor: fetch, classify, resolve, dedup, merge

    A shallow embedding of [src/processor.js] (the bookmark processor) and the
    properties its specification states about it, followed by an embedding of
    [src/obsidian.js] (the notes written to an Obsidian vault).

    Conventions of the embedding:
    - JavaScript strings are [string]; tweet identifiers are strings, as the
      bird CLI prints them.
    - A property that may be [undefined] or [null] is an [option].
    - A JavaScript [Set] of identifiers is a [gset string].
    - External collaborators (the bird CLI, [fetch], the GitHub API, the
      summarize CLI, the date library) are fields of a [World]; every call is
      recorded in a trace of [Event]s, and an answer may depend on the trace
      so far.
    - Code that throws returns [inl] of an [Exn]; [try]/[catch] is
      [try_catch]. *)

From Stdlib Require Import Ascii String ZArith Lia.
From stdpp Require Import base strings gmap list sorting.

(** ** JavaScript string primitives *)

Module Js.

(** [s.startsWith(p)] *)
Fixpoint startsWith (s p : string) {struct p} : bool :=
  match p, s with
  | EmptyString, _ => true
  | String a p', String b s' => if Ascii.eqb a b then startsWith s' p' else false
  | String _ _, EmptyString => false
  end.

(** [s.includes(sub)]: [sub] occurs at some position of [s]. *)
Fixpoint includes (s sub : string) : bool :=
  startsWith s sub ||
  match s with
  | EmptyString => false
  | String _ t => includes t sub
  end.

(** [s.endsWith(suf)], which is what a pattern anchored by [$] tests. *)
Fixpoint endsWith (s suf : string) : bool :=
  String.eqb s suf ||
  match s with
  | EmptyString => false
  | String _ t => endsWith t suf
  end.

(** The remainder of [s] after the literal [p], when [s] starts with it. *)
Fixpoint stripPrefix (p s : string) : option string :=
  match p, s with
  | EmptyString, _ => Some s
  | String a p', String b s' => if Ascii.eqb a b then stripPrefix p' s' else None
  | String _ _, EmptyString => None
  end.

(** The longest prefix of [s] made of characters in the class [cls], and the
    rest: a greedy [cls*]. *)
Fixpoint span (cls : ascii -> bool) (s : string) : string * string :=
  match s with
  | EmptyString => (EmptyString, EmptyString)
  | String c t =>
      if cls c then let '(a, b) := span cls t in (String c a, b)
      else (EmptyString, s)
  end.

Definition between (lo hi : nat) (c : ascii) : bool :=
  let n := nat_of_ascii c in (lo <=? n)%nat && (n <=? hi)%nat.

(** [\d] *)
Definition isDigit (c : ascii) : bool := between 48 57 c.

(** [\w]: letters, digits and the underscore *)
Definition isWord (c : ascii) : bool :=
  between 65 90 c || between 97 122 c || isDigit c || Ascii.eqb c "_"%char.

(** [[^\/]] *)
Definition notSlash (c : ascii) : bool := negb (Ascii.eqb c "/"%char).

Definition lowerChar (c : ascii) : ascii :=
  if between 65 90 c then ascii_of_nat (nat_of_ascii c + 32) else c.

(** Case folding of the ASCII letters, for patterns with the [i] flag. *)
Fixpoint toLower (s : string) : string :=
  match s with
  | EmptyString => EmptyString
  | String c t => String (lowerChar c) (toLower t)
  end.

Fixpoint allChars (cls : ascii -> bool) (s : string) : bool :=
  match s with
  | EmptyString => true
  | String c t => cls c && allChars cls t
  end.

Fixpoint take (n : nat) (s : string) : string :=
  match n, s with
  | O, _ => EmptyString
  | S k, String c t => String c (take k t)
  | S _, EmptyString => EmptyString
  end.

(** [s.slice(0, n)] *)
Definition slice0 (n : N) (s : string) : string := take (N.to_nat n) s.

(** [s.length] *)
Definition len (s : string) : N := N.of_nat (String.length s).

(** Truthiness of a string: the empty string is falsy. *)
Definition truthy (s : string) : bool := negb (String.eqb s "").

(** [a || b] where [a] is a string or missing. *)
Definition orStr (a : option string) (b : string) : string :=
  match a with
  | Some s => if truthy s then s else b
  | None => b
  end.

(** [a || b] where both are a string or missing. *)
Definition orOpt (a b : option string) : option string :=
  match a with
  | Some s => if truthy s then a else b
  | None => b
  end.

(** Truthiness of an optional string property. *)
Definition truthyOpt (a : option string) : bool :=
  match a with
  | Some s => truthy s
  | None => false
  end.

(** All matches of a pattern with the [g] flag, left to right and without
    overlap. [here s] tells whether the pattern matches at the start of [s]
    and gives the value of the match and its length; [skip] counts the
    characters of the last match still to step over. *)
Fixpoint scan {A} (here : string -> option (A * nat)) (skip : nat) (s : string)
  : list A :=
  match s with
  | EmptyString => []
  | String _ t =>
      match skip with
      | S k => scan here k t
      | O =>
          match here s with
          | Some (a, n) => a :: scan here (pred n) t
          | None => scan here O t
          end
      end
  end.

(** [s.match(re)] without the [g] flag: the leftmost match. *)
Fixpoint search {A} (here : string -> option A) (s : string) : option A :=
  match here s with
  | Some a => Some a
  | None =>
      match s with
      | EmptyString => None
      | String _ t => search here t
      end
  end.

(** [array.sort(cmp)]: the built-in sort is stable, and with a comparator
    that orders the elements consistently every stable sort returns the same
    array; it is computed here by insertion. An element goes before the
    first one it does not compare greater than. *)
Fixpoint insert {A} (cmp : A -> A -> Z) (x : A) (l : list A) : list A :=
  match l with
  | [] => [x]
  | y :: l' => if (cmp x y <=? 0)%Z then x :: l else y :: insert cmp x l'
  end.

Fixpoint sort {A} (cmp : A -> A -> Z) (l : list A) : list A :=
  match l with
  | [] => []
  | x :: l' => insert cmp x (sort cmp l')
  end.

End Js.

(** ** Link classification *)

Inductive LinkType :=
| github | video | x_article | media | tweet | image | article.

(** The string the source returns for each kind. *)
Definition tag (t : LinkType) : string :=
  match t with
  | github => "github"
  | video => "video"
  | x_article => "x-article"
  | media => "media"
  | tweet => "tweet"
  | image => "image"
  | article => "article"
  end.

#[global] Instance LinkType_eq_dec : EqDecision LinkType.
Proof. solve_decision. Defined.

(** [/\.(jpg|jpeg|png|gif|webp)$/i] *)
Definition IMAGE_SUFFIXES : list string :=
  [".jpg"; ".jpeg"; ".png"; ".gif"; ".webp"].

Definition matchesImageExt (url : string) : bool :=
  existsb (Js.endsWith (Js.toLower url)) IMAGE_SUFFIXES.

Definition detectLinkType (url : string) : LinkType :=
  if Js.includes url "github.com" then github
  else if Js.includes url "youtube.com" || Js.includes url "youtu.be" then video
  else if Js.includes url "x.com" || Js.includes url "twitter.com" then
    if Js.includes url "/i/article/" then x_article
    else if Js.includes url "/photo/" || Js.includes url "/video/" then media
    else tweet
  else if matchesImageExt url then image
  else article.

(** ** Paywalled sites *)

Definition PAYWALL_DOMAINS : list string :=
  [ "nytimes.com"; "wsj.com"; "washingtonpost.com"; "theatlantic.com";
    "newyorker.com"; "bloomberg.com"; "ft.com"; "economist.com";
    "bostonglobe.com"; "latimes.com"; "wired.com" ].

Definition isPaywalled (url : string) : bool :=
  existsb (fun domain => Js.includes url domain) PAYWALL_DOMAINS.

(** [/x\.com\/i\/article\/(\d+)/] *)
Definition extractXArticleId (url : string) : option string :=
  Js.search
    (fun s =>
       r ← Js.stripPrefix "x.com/i/article/" s;
       let '(d, _) := Js.span Js.isDigit r in
       if Js.truthy d then Some d else None)
    url.

(** ** Data model *)

Record Author := { username : option string; name : option string }.

Record User := { screen_name : option string; user_name : option string }.

(** A post as [bird read <id> --json] prints it, and the shape of a natively
    attached quoted post. *)
Record RawTweet := {
  rt_id : string;
  rt_author : option Author;
  rt_text : option string;
  rt_full_text : option string;
  rt_article_title : option string          (* [data.article?.title] *)
}.

(** A raw bookmark, as the bird CLI prints it; the two folder fields are the
    ones [fetchFromFolders] adds. *)
Record Bookmark := {
  bm_id : string;
  bm_text : option string;
  bm_full_text : option string;
  bm_createdAt : option string;
  bm_author : option Author;
  bm_user : option User;
  bm_inReplyToStatusId : option string;
  bm_quotedTweet : option RawTweet;
  bm_media : option (list string);
  bm_folderTag : option string;
  bm_folderId : option string
}.

(** Reply context, quote context and the content of a quote-tweet link. *)
Record TweetRef := {
  tr_id : string;
  tr_author : string;
  tr_authorName : string;
  tr_text : string;
  tr_tweetUrl : string;
  tr_source : option string
}.

Record RepoJson := {
  rj_name : option string;
  rj_full_name : option string;
  rj_description : option string;
  rj_stargazers_count : option Z;
  rj_language : option string;
  rj_topics : option (list string);
  rj_html_url : option string
}.

Record GitHubContent := {
  gh_name : option string;
  gh_fullName : option string;
  gh_description : string;
  gh_stars : option Z;
  gh_language : option string;
  gh_topics : list string;
  gh_readme : string;
  gh_url : option string
}.

(** [data.extracted] of the summarize CLI. *)
Record Extracted := {
  ex_title : option string;
  ex_description : option string;
  ex_content : option string
}.

Record XArticle := { xa_title : option string; xa_text : string }.

(** What [fetchContent] returns, keyed by its [source] field. *)
Inductive Fetched :=
| FGitHub (g : GitHubContent)                                   (* 'github-api' *)
| FPaywalled (url : string)                                     (* 'paywalled' *)
| FSummarize (title description : option string) (text : string) (* 'summarize-cli' *)
| FDirect (text : string) (paywalled : bool).                   (* 'direct' *)

(** The [content] of a link in a prepared bookmark. *)
Inductive Content :=
| XArticleContent (a : XArticle)                                 (* 'bird-cli' *)
| QuoteTweetContent (q : TweetRef)                               (* 'quote-tweet' *)
| GitHubRepoContent (g : GitHubContent)                          (* 'github-api' *)
| SummarizedContent (title description : option string) (text : string)
| FallbackContent (text : option string) (source : string) (paywalled : option bool)
| ErrorContent (msg : string).                                   (* [{ error }] *)

Record Link := {
  original : string;
  expanded : string;
  type : LinkType;
  content : option Content
}.

Record Prepared := {
  p_id : string;
  p_author : string;
  p_authorName : string;
  p_text : string;
  p_tweetUrl : string;
  p_createdAt : option string;
  p_links : list Link;
  p_media : list string;
  p_tags : list string;
  p_date : string;
  p_isReply : bool;
  p_replyContext : option TweetRef;
  p_isQuote : bool;
  p_quoteContext : option TweetRef
}.

(** ** Persisted files *)

(** A JSON file on disk: missing, unparsable, or holding a document. *)
Inductive JsonFile (A : Type) :=
| Absent
| Corrupt
| Parsed (doc : A).
Arguments Absent {A}.
Arguments Corrupt {A}.
Arguments Parsed {A} doc.

(** The pending queue document. [pd_bookmarks] is [None] when the key is
    missing, [Some None] when it is present and [null], [Some (Some l)] when
    it holds an array. *)
Record PendingDoc := {
  pd_generatedAt : option string;
  pd_count : option nat;
  pd_bookmarks : option (option (list Prepared))
}.

Record State := {
  last_processed_id : option string;
  last_check : option string;
  last_processing_run : option string
}.

(** What [JSON.parse] gives for the text of the state file: whatever JSON
    value it holds. An object is kept by the three properties the processor
    knows (it reads none of them and sets [last_check] only) and by its
    other properties, each with its name and the JSON text of its value; an
    array by the JSON texts of its items; a number, a string or a boolean by
    its kind ([typeof]) and its text. *)
Inductive StateValue :=
| StateObject (state : State) (others : list (string * string))
| StateArray (items : list string)
| StateNull
| StateScalar (kind text : string).

Record FS := {
  archiveFile : option string;            (* text of the archive, when readable *)
  pendingFile : JsonFile PendingDoc;
  stateFile : JsonFile StateValue
}.

(** ** Configuration and options *)

Record Config := {
  cfg_source : option string;
  cfg_includeMedia : option bool;
  cfg_folders : list (string * string)    (* folder id, folder tag: [Object.keys] order *)
}.

Record Options := {
  opt_source : option string;
  opt_includeMedia : option bool;
  opt_count : option nat;
  opt_all : bool;
  opt_maxPages : option nat;
  opt_specificIds : option (list string);
  opt_force : bool
}.

Record FetchOptions := {
  fo_all : bool;
  fo_maxPages : option nat;
  fo_folderId : option string
}.

(** ** External collaborators *)

(** The bird CLI invocations the processor builds. *)
Inductive BirdCmd :=
| BookmarksAll (folderId : option string) (maxPages : nat)
| BookmarksN (folderId : option string) (count : nat)
| Likes (count : nat)
| Read (tweetId : string).

(** The parsed output of a listing command: a plain array, or an object with
    an optional [tweets] array. *)
Inductive BirdJson :=
| JArray (tweets : list Bookmark)
| JObject (tweets : option (list Bookmark)).

Inductive Event :=
| EvBird (cmd : BirdCmd)                   (* [execSync] of the bird CLI *)
| EvHead (url : string)                    (* [fetch(url, { method: 'HEAD' })] *)
| EvGitHubApi (apiUrl : string)            (* [fetch] of api.github.com *)
| EvSummarize (url : string)               (* [execFileSync('summarize', ...)] *)
| EvDirectFetch (url : string).            (* [fetch(url)] of the page itself *)

(** An answer is [inl message] when the call throws. *)
Record World := {
  now_iso : string;                                        (* [now.toISOString()] *)
  format_date : option string -> string;                   (* dayjs, of [createdAt] or of now *)
  getTime : string -> option Z;     (* [new Date(s).getTime()]; [None] is NaN *)
  (* The order [Array.prototype.sort] leaves an array in when the comparator
     answers NaN: the language leaves it to the engine, which still returns
     the elements it was given. *)
  engine_sort : forall l : list Prepared, { sorted : list Prepared | sorted ≡ₚ l };
  url_protocol : string -> option string;                  (* [new URL(url).protocol] *)
  bird_list : list Event -> BirdCmd -> string + BirdJson;
  bird_read : list Event -> string -> string + RawTweet;
  http_head : list Event -> string -> string + string;     (* [response.url] *)
  github_repo : list Event -> string -> string + RepoJson;
  github_readme : list Event -> string -> string + option string;
  summarize : list Event -> string -> string + option Extracted;
  http_get : list Event -> string -> string + string       (* [response.text()] *)
}.

(** ** Effects: the files, the trace of external calls, and exceptions *)

Record Exn := Error { message : string }.

Record St := { fs : FS; trace : list Event }.

Definition M (A : Type) : Type := St -> (Exn + A) * St.

Definition ret {A} (a : A) : M A := fun st => (inr a, st).

Definition bind {A B} (m : M A) (k : A -> M B) : M B :=
  fun st =>
    match m st with
    | (inr a, st') => k a st'
    | (inl e, st') => (inl e, st')
    end.

Definition throw {A} (e : Exn) : M A := fun st => (inl e, st).

Definition try_catch {A} (m : M A) (handler : Exn -> M A) : M A :=
  fun st =>
    match m st with
    | (inr a, st') => (inr a, st')
    | (inl e, st') => handler e st'
    end.

Notation "'let*' x ':=' m 'in' k" := (bind m (fun x => k))
  (at level 10, x name, m at level 200, k at level 200, only parsing).

(** One external call: it is recorded, and its answer may depend on what was
    recorded before. *)
Definition call {A} (ev : Event) (oracle : list Event -> string + A) : M A :=
  fun st =>
    let st' := {| fs := fs st; trace := trace st ++ [ev] |} in
    match oracle (trace st) with
    | inr a => (inr a, st')
    | inl msg => (inl (Error msg), st')
    end.

Definition readFS : M FS := fun st => (inr (fs st), st).

Definition writeFS (f : FS -> FS) : M unit :=
  fun st => (inr tt, {| fs := f (fs st); trace := trace st |}).

(** ** The processor *)

Section Processor.

Variable w : World.

Definition defaultState : State :=
  {| last_processed_id := None; last_check := None; last_processing_run := None |}.

Definition loadState : M StateValue :=
  let* f := readFS in
  match stateFile f with
  | Parsed state => ret state
  | Absent | Corrupt => ret (StateObject defaultState [])
  end.

(** [JSON.stringify(state)] writes the properties of an object and the items
    of an array. *)
Definition saveState (state : StateValue) : M unit :=
  writeFS (fun f =>
    {| archiveFile := archiveFile f;
       pendingFile := pendingFile f;
       stateFile := Parsed state |}).

(** [Array.isArray(parsed) ? parsed : (parsed.tweets || [])] *)
Definition tweetsOf (parsed : BirdJson) : list Bookmark :=
  match parsed with
  | JArray l => l
  | JObject (Some l) => l
  | JObject None => []
  end.

(** [n || d] on a count: zero and missing are falsy. *)
Definition orNat (n : option nat) (d : nat) : nat :=
  match n with
  | Some O | None => d
  | Some k => k
  end.

(** The command line [fetchBookmarks] builds. *)
Definition bookmarksCmd (count : nat) (options : FetchOptions) : BirdCmd :=
  let useAll := fo_all options || (50 <? count)%nat in
  let folderId :=
    if Js.truthyOpt (fo_folderId options) then fo_folderId options else None in
  if useAll then BookmarksAll folderId (orNat (fo_maxPages options) 10)
  else BookmarksN folderId count.

Definition fetchBookmarks (count : nat) (options : FetchOptions)
  : M (list Bookmark) :=
  try_catch
    (let cmd := bookmarksCmd count options in
     let* parsed := call (EvBird cmd) (fun tr => bird_list w tr cmd) in
     ret (tweetsOf parsed))
    (fun error => throw (Error ("Failed to fetch bookmarks: " +:+ message error))).

Definition fetchLikes (count : nat) : M (list Bookmark) :=
  try_catch
    (let* parsed := call (EvBird (Likes count)) (fun tr => bird_list w tr (Likes count)) in
     ret (tweetsOf parsed))
    (fun error => throw (Error ("Failed to fetch likes: " +:+ message error))).

(** The loop of [fetchFromSource] and of [fetchFromFolders] that keeps the
    first item of each identifier; [mark] is what is done to a kept item. *)
Fixpoint dedupeInto (mark : Bookmark -> Bookmark) (items : list Bookmark)
    (acc : list Bookmark * gset string) : list Bookmark * gset string :=
  match items with
  | [] => acc
  | item :: rest =>
      let '(merged, seen) := acc in
      if decide (bm_id item ∈ seen) then dedupeInto mark rest acc
      else dedupeInto mark rest (merged ++ [mark item], {[bm_id item]} ∪ seen)
  end.

Definition fetchFromSource (config : Config) (count : nat) (options : FetchOptions)
  : M (list Bookmark) :=
  let source := Js.orStr (cfg_source config) "bookmarks" in
  if String.eqb source "bookmarks" then fetchBookmarks count options
  else if String.eqb source "likes" then fetchLikes count
  else if String.eqb source "both" then
    let* bookmarks := fetchBookmarks count options in
    let* likes := fetchLikes count in
    ret (fst (dedupeInto (fun b => b) (bookmarks ++ likes) ([], ∅)))
  else
    throw (Error ("Invalid source: " +:+ source +:+
                  ". Must be 'bookmarks', 'likes', or 'both'.")).

Definition withFolder (folderTag folderId : string) (b : Bookmark) : Bookmark :=
  {| bm_id := bm_id b; bm_text := bm_text b; bm_full_text := bm_full_text b;
     bm_createdAt := bm_createdAt b; bm_author := bm_author b;
     bm_user := bm_user b; bm_inReplyToStatusId := bm_inReplyToStatusId b;
     bm_quotedTweet := bm_quotedTweet b; bm_media := bm_media b;
     bm_folderTag := Some folderTag; bm_folderId := Some folderId |}.

Fixpoint foldersLoop (folders : list (string * string)) (count : nat)
    (options : FetchOptions) (acc : list Bookmark * gset string)
  : M (list Bookmark * gset string) :=
  match folders with
  | [] => ret acc
  | (folderId, folderTag) :: rest =>
      let* acc' := try_catch
                (let* bookmarks := fetchBookmarks count
                                {| fo_all := fo_all options;
                                   fo_maxPages := fo_maxPages options;
                                   fo_folderId := Some folderId |} in
                 ret (dedupeInto (withFolder folderTag folderId) bookmarks acc))
                (fun _ => ret acc) in
      foldersLoop rest count options acc'
  end.

Definition fetchFromFolders (config : Config) (count : nat) (options : FetchOptions)
  : M (list Bookmark) :=
  match cfg_folders config with
  | [] => ret []
  | folders =>
      let* r := foldersLoop folders count options ([], ∅) in
      ret (fst r)
  end.

Definition fetchTweet (tweetId : string) : M (option RawTweet) :=
  try_catch
    (let* t := call (EvBird (Read tweetId)) (fun tr => bird_read w tr tweetId) in
     ret (Some t))
    (fun _ => ret None).

Definition expandTcoLink (url : string) : M string :=
  try_catch
    (let* final := call (EvHead url) (fun tr => http_head w tr url) in
     ret (if Js.truthy final then final else url))
    (fun _ => ret url).

(** [/^\d+$/.test(String(articleId))] *)
Definition isNumericId (articleId : string) : bool :=
  Js.truthy articleId && Js.allChars Js.isDigit articleId.

Definition fetchXArticleContent (articleId : string) : M (option XArticle) :=
  if negb (isNumericId articleId) then ret None
  else
    try_catch
      (let* data := call (EvBird (Read articleId)) (fun tr => bird_read w tr articleId) in
       ret (Some {| xa_title := Js.orOpt (rt_article_title data) None;
                    xa_text := Js.orStr (rt_text data) "" |}))
      (fun _ => ret None).

Definition fetchArticleWithSummarize (url : string) : M (option Fetched) :=
  match url_protocol w url with
  | None => ret None                                  (* [new URL] throws *)
  | Some protocol =>
      if negb (String.eqb protocol "http:" || String.eqb protocol "https:")
      then ret None
      else
        try_catch
          (let* data := call (EvSummarize url) (fun tr => summarize w tr url) in
           match data with
           | Some ex =>
               ret (Some (FSummarize (Js.orOpt (ex_title ex) None)
                                     (Js.orOpt (ex_description ex) None)
                                     (Js.orStr (ex_content ex) "")))
           | None => ret None
           end)
          (fun _ => ret None)
  end.

(** [/github\.com\/([^\/]+)\/([^\/]+)/], then [.replace(/\.git$/, '')] on the
    second group. *)
Definition dropGitSuffix (repo : string) : string :=
  if Js.endsWith repo ".git"
  then Js.take (String.length repo - 4) repo
  else repo.

Definition extractGitHubInfo (url : string) : option (string * string) :=
  Js.search
    (fun s =>
       r ← Js.stripPrefix "github.com/" s;
       let '(owner, r1) := Js.span Js.notSlash r in
       if negb (Js.truthy owner) then None
       else
         r2 ← Js.stripPrefix "/" r1;
         let '(repo, _) := Js.span Js.notSlash r2 in
         if negb (Js.truthy repo) then None
         else Some (owner, dropGitSuffix repo))
    url.

Definition truncateReadme (readme : string) : string :=
  if (5000 <? Js.len readme)%N
  then Js.slice0 5000 readme +:+ String "010"%char "...[truncated]"
  else readme.

Definition fetchGitHubContent (url : string) : M GitHubContent :=
  match extractGitHubInfo url with
  | None => throw (Error "Could not parse GitHub URL")
  | Some (owner, repo) =>
      let apiUrl := "https://api.github.com/repos/" +:+ owner +:+ "/" +:+ repo in
      let* repoJson := call (EvGitHubApi apiUrl) (fun tr => github_repo w tr apiUrl) in
      let readmeUrl := apiUrl +:+ "/readme" in
      let* readme := try_catch
                  (let* c := call (EvGitHubApi readmeUrl)
                             (fun tr => github_readme w tr readmeUrl) in
                   ret (match c with
                        | Some text => truncateReadme text
                        | None => ""
                        end))
                  (fun _ => ret "") in
      ret {| gh_name := rj_name repoJson;
             gh_fullName := rj_full_name repoJson;
             gh_description := Js.orStr (rj_description repoJson) "";
             gh_stars := rj_stargazers_count repoJson;
             gh_language := rj_language repoJson;
             gh_topics := default [] (rj_topics repoJson);
             gh_readme := readme;
             gh_url := rj_html_url repoJson |}
  end.

Definition looksPaywalled (result : string) : bool :=
  Js.includes result "Subscribe" && Js.includes result "sign in"
  || Js.includes result "This article is for subscribers"
  || (Js.len result <? 1000)%N.

Definition fetchArticleContent (url : string) : M Fetched :=
  let* summarized := fetchArticleWithSummarize url in
  match summarized with
  | Some (FSummarize t d text) =>
      if Js.truthy text then ret (FSummarize t d text)
      else
        let* text := call (EvDirectFetch url) (fun tr => http_get w tr url) in
        let result := Js.slice0 50000 text in
        ret (FDirect result (looksPaywalled result))
  | _ =>
      let* text := call (EvDirectFetch url) (fun tr => http_get w tr url) in
      let result := Js.slice0 50000 text in
      ret (FDirect result (looksPaywalled result))
  end.

Definition fetchContent (url : string) (type : LinkType) : M Fetched :=
  let* viaApi := (if decide (type = github) then
               try_catch
                 (let* ghContent := fetchGitHubContent url in
                  ret (Some (FGitHub ghContent)))
                 (fun _ => ret None)
             else ret None) in
  match viaApi with
  | Some r => ret r
  | None =>
      if isPaywalled url then ret (FPaywalled url)
      else fetchArticleContent url
  end.

(** [/x\.com\/\w+\/status\/(\d+)/g] over the archive, the first group of
    every match. *)
Definition archiveMatchHere (s : string) : option (string * nat) :=
  r ← Js.stripPrefix "x.com/" s;
  let '(user, r1) := Js.span Js.isWord r in
  if negb (Js.truthy user) then None
  else
    r2 ← Js.stripPrefix "/status/" r1;
    let '(d, _) := Js.span Js.isDigit r2 in
    if negb (Js.truthy d) then None
    else Some (d, (6 + String.length user + 8 + String.length d)%nat).

(** The identifiers found in the archive; none when it cannot be read. *)
Definition archiveIndex (f : FS) : gset string :=
  match archiveFile f with
  | Some text => list_to_set (Js.scan archiveMatchHere 0 text)
  | None => ∅
  end.

Definition getExistingBookmarkIds : M (gset string) :=
  let* f := readFS in
  ret (archiveIndex f).

(** [/https?:\/\/t\.co\/\w+/g]: the whole match. *)
Definition tcoMatchHere (s : string) : option (string * nat) :=
  r ← Js.stripPrefix "http" s;
  let '(scheme, r0) :=
    match Js.stripPrefix "s" r with
    | Some r' => ("https", r')
    | None => ("http", r)
    end in
  r1 ← Js.stripPrefix "://t.co/" r0;
  let '(code, _) := Js.span Js.isWord r1 in
  if negb (Js.truthy code) then None
  else
    let m := scheme +:+ "://t.co/" +:+ code in
    Some (m, String.length m).

(** [/status\/(\d+)/]: the first group of the leftmost match. *)
Definition statusId (url : string) : option string :=
  Js.search
    (fun s =>
       r ← Js.stripPrefix "status/" s;
       let '(d, _) := Js.span Js.isDigit r in
       if Js.truthy d then Some d else None)
    url.

(** The record built from a fetched or attached post; [text] is chosen by
    the caller. *)
Definition tweetRef (t : RawTweet) (text : string) (source : option string)
  : TweetRef :=
  let uname := rt_author t ≫= username in
  {| tr_id := rt_id t;
     tr_author := Js.orStr uname "unknown";
     tr_authorName := Js.orStr (Js.orOpt (rt_author t ≫= name) uname) "unknown";
     tr_text := text;
     tr_tweetUrl :=
       "https://x.com/" +:+ Js.orStr uname "unknown" +:+ "/status/" +:+ rt_id t;
     tr_source := source |}.

Definition fullText (t : RawTweet) : string :=
  Js.orStr (Js.orOpt (rt_text t) (rt_full_text t)) "".

(** The link content built from what [fetchContent] returned. *)
Definition contentOf (fetchResult : Fetched) : Content :=
  match fetchResult with
  | FGitHub g => GitHubRepoContent g
  | FSummarize t d text => SummarizedContent t d (Js.slice0 50000 text)
  | FDirect text paywalled =>
      FallbackContent (Some (Js.slice0 10000 text)) "direct" (Some paywalled)
  | FPaywalled _ => FallbackContent None "paywalled" None
  end.

(** The body of the loop over the t.co links of a bookmark. *)
Definition processLink (bookmark : Bookmark) (link : string) : M Link :=
  let* expanded := expandTcoLink link in
  let type := detectLinkType expanded in
  let* content :=
    match type with
    | x_article =>
        let* articleContent := fetchXArticleContent (bm_id bookmark) in
        ret (XArticleContent <$> articleContent)
    | tweet =>
        match statusId expanded with
        | Some quotedTweetId =>
            let* quotedTweet := fetchTweet quotedTweetId in
            ret ((fun t => QuoteTweetContent
                             (tweetRef t (fullText t) (Some "quote-tweet")))
                   <$> quotedTweet)
        | None => ret None
        end
    | article | github =>
        try_catch
          (let* fetchResult := fetchContent expanded type in
           ret (Some (contentOf fetchResult)))
          (fun error => ret (Some (ErrorContent (message error))))
    | video | media | image => ret None
    end in
  ret {| original := link; expanded := expanded; type := type; content := content |}.

Fixpoint processLinks (bookmark : Bookmark) (tcoLinks : list string)
  : M (list Link) :=
  match tcoLinks with
  | [] => ret []
  | link :: rest =>
      let* l := processLink bookmark link in
      let* ls := processLinks bookmark rest in
      ret (l :: ls)
  end.

(** The body of the loop over the bookmarks to process. *)
Definition prepareBookmark (includeMedia : bool) (bookmark : Bookmark)
  : M Prepared :=
  let text := Js.orStr (Js.orOpt (bm_text bookmark) (bm_full_text bookmark)) "" in
  let date :=
    format_date w (if Js.truthyOpt (bm_createdAt bookmark)
                   then bm_createdAt bookmark else None) in
  let author :=
    Js.orStr (Js.orOpt (bm_author bookmark ≫= username)
                       (bm_user bookmark ≫= screen_name)) "unknown" in
  let* links := processLinks bookmark (Js.scan tcoMatchHere 0 text) in
  let* replyContext :=
    match bm_inReplyToStatusId bookmark with
    | Some parentId =>
        if Js.truthy parentId then
          let* parentTweet := fetchTweet parentId in
          ret ((fun t => tweetRef t (fullText t) None) <$> parentTweet)
        else ret None
    | None => ret None
    end in
  let quoteContext :=
    (fun qt => tweetRef qt (Js.orStr (rt_text qt) "") (Some "native-quote"))
      <$> bm_quotedTweet bookmark in
  let media := if includeMedia then default [] (bm_media bookmark) else [] in
  let tags :=
    match bm_folderTag bookmark with
    | Some t => if Js.truthy t then [t] else []
    | None => []
    end in
  ret {| p_id := bm_id bookmark;
         p_author := author;
         p_authorName :=
           Js.orStr (Js.orOpt (bm_author bookmark ≫= name)
                              (bm_user bookmark ≫= user_name)) author;
         p_text := text;
         p_tweetUrl := "https://x.com/" +:+ author +:+ "/status/" +:+ bm_id bookmark;
         p_createdAt := bm_createdAt bookmark;
         p_links := links;
         p_media := media;
         p_tags := tags;
         p_date := date;
         p_isReply := Js.truthyOpt (bm_inReplyToStatusId bookmark);
         p_replyContext := replyContext;
         p_isQuote := bool_decide (is_Some quoteContext);
         p_quoteContext := quoteContext |}.

(** The loop over the bookmarks to process: one that throws is logged and
    left out. *)
Fixpoint prepareAll (includeMedia : bool) (toProcess : list Bookmark)
  : M (list Prepared) :=
  match toProcess with
  | [] => ret []
  | bookmark :: rest =>
      let* one := try_catch
                    (let* p := prepareBookmark includeMedia bookmark in ret [p])
                    (fun _ => ret []) in
      let* others := prepareAll includeMedia rest in
      ret (one ++ others)
  end.

(** The identifiers of the pending queue, as read before filtering. *)
Definition pendingIdsOf (f : FS) : gset string :=
  match pendingFile f with
  | Parsed doc =>
      match pd_bookmarks doc with
      | Some (Some l) => list_to_set (p_id <$> l)
      | _ => ∅
      end
  | Absent | Corrupt => ∅
  end.

(** "Determine which tweets to process". *)
Definition selectToProcess (options : Options) (existingIds pendingIds : gset string)
    (tweets : list Bookmark) : list Bookmark :=
  match opt_specificIds options with
  | Some specificIds => filter (fun b => bm_id b ∈ specificIds) tweets
  | None =>
      if opt_force options then tweets
      else filter (fun b => (bm_id b ∉ existingIds) ∧ (bm_id b ∉ pendingIds)) tweets
  end.

(** [existingPending.bookmarks] of the merge step: the spread of the parsed
    document after the default puts a [null] back, and [.map] then throws. *)
Definition existingPendingBookmarks (f : FS) : Exn + list Prepared :=
  match pendingFile f with
  | Parsed doc =>
      match pd_bookmarks doc with
      | None => inr []
      | Some None =>
          inl (Error "Cannot read properties of null (reading 'map')")
      | Some (Some l) => inr l
      end
  | Absent | Corrupt => inr []
  end.

(** [a.createdAt ? new Date(a.createdAt).getTime() : 0]; [None] is NaN, the
    time of a date that does not parse. *)
Definition createdAtTime (a : Prepared) : option Z :=
  match p_createdAt a with
  | Some s => if Js.truthy s then getTime w s else Some 0%Z
  | None => Some 0%Z
  end.

(** [dateA - dateB], which is NaN when one of the two is. *)
Definition byCreatedAt (a b : Prepared) : option Z :=
  match createdAtTime a, createdAtTime b with
  | Some dateA, Some dateB => Some (dateA - dateB)%Z
  | _, _ => None
  end.

(** [allBookmarks.sort((a, b) => dateA - dateB)]. When the comparator answers
    a number for every pair of records it is consistent and the built-in sort
    is the stable sort. When a record has NaN for its time the comparator
    answers NaN for it, it is no consistent comparator in the sense of the
    language, and the order is the one of the engine. *)
Definition sortByCreatedAt (l : list Prepared) : list Prepared :=
  if forallb (fun a => bool_decide (is_Some (createdAtTime a))) l
  then Js.sort (fun a b => default 0%Z (byCreatedAt a b)) l
  else proj1_sig (engine_sort w l).

(** "Merge prepared bookmarks into pending file": the merged, sorted array. *)
Definition mergePending (existing prepared : list Prepared) : list Prepared :=
  let existingPendingIds : gset string := list_to_set (p_id <$> existing) in
  let newBookmarks := filter (fun b => p_id b ∉ existingPendingIds) prepared in
  sortByCreatedAt (existing ++ newBookmarks).

(** [state.last_check = now.toISOString()] in the strict mode of a module:
    the property is set on an object; on an array it is set too but is no
    part of the JSON text of the array; on [null] and on a number, a string or
    a boolean the assignment throws a [TypeError], with the message of V8. *)
Definition setLastCheck (state : StateValue) : Exn + StateValue :=
  match state with
  | StateObject s others =>
      inr (StateObject {| last_processed_id := last_processed_id s;
                          last_check := Some (now_iso w);
                          last_processing_run := last_processing_run s |}
                       others)
  | StateArray items => inr (StateArray items)
  | StateNull => inl (Error "Cannot set properties of null (setting 'last_check')")
  | StateScalar kind text =>
      inl (Error ("Cannot create property 'last_check' on " +:+ kind +:+
                  " '" +:+ text +:+ "'"))
  end.

Record RunResult := {
  r_bookmarks : list Prepared;
  r_count : nat;
  r_pendingFile : bool                 (* whether the result names the pending file *)
}.

Definition nothingToDo : RunResult :=
  {| r_bookmarks := []; r_count := 0; r_pendingFile := false |}.

(** [options.source || config.source || 'bookmarks'] *)
Definition sourceOf (config : Config) (options : Options) : string :=
  Js.orStr (Js.orOpt (opt_source options) (cfg_source config)) "bookmarks".

(** [options.includeMedia ?? config.includeMedia ?? false] *)
Definition includeMediaOf (config : Config) (options : Options) : bool :=
  default (default false (cfg_includeMedia config)) (opt_includeMedia options).

(** [{ ...config, source, includeMedia }] *)
Definition configWithOptions (config : Config) (options : Options) : Config :=
  {| cfg_source := Some (sourceOf config options);
     cfg_includeMedia := Some (includeMediaOf config options);
     cfg_folders := cfg_folders config |}.

(** [options.count || 20] *)
Definition countOf (options : Options) : nat := orNat (opt_count options) 20.

(** [{ all: options.all || count > 50, maxPages: options.maxPages }] *)
Definition fetchOptionsOf (options : Options) : FetchOptions :=
  {| fo_all := opt_all options || (50 <? countOf options)%nat;
     fo_maxPages := opt_maxPages options;
     fo_folderId := None |}.

(** [hasFolders && source === 'bookmarks'] *)
Definition fromFolders (config : Config) (options : Options) : bool :=
  bool_decide (cfg_folders config ≠ []) && String.eqb (sourceOf config options) "bookmarks".

Definition fetchAndPrepareBookmarks (config : Config) (options : Options)
  : M RunResult :=
  let* state := loadState in
  let includeMedia := includeMediaOf config options in
  let count := countOf options in
  let fetchOptions := fetchOptionsOf options in
  let* tweets :=
    if fromFolders config options
    then fetchFromFolders (configWithOptions config options) count fetchOptions
    else fetchFromSource (configWithOptions config options) count fetchOptions in
  match tweets with
  | [] => ret nothingToDo
  | _ :: _ =>
      let* existingIds := getExistingBookmarkIds in
      let* f := readFS in
      let pendingIds := pendingIdsOf f in
      let toProcess := selectToProcess options existingIds pendingIds tweets in
      match toProcess with
      | [] => ret nothingToDo
      | _ :: _ =>
          let* prepared := prepareAll includeMedia toProcess in
          let* f' := readFS in
          match existingPendingBookmarks f' with
          | inl e => throw e
          | inr existing =>
              let allBookmarks := mergePending existing prepared in
              let* _ := writeFS (fun g =>
                          {| archiveFile := archiveFile g;
                             pendingFile :=
                               Parsed {| pd_generatedAt := Some (now_iso w);
                                         pd_count := Some (length allBookmarks);
                                         pd_bookmarks := Some (Some allBookmarks) |};
                             stateFile := stateFile g |}) in
              match setLastCheck state with
              | inl e => throw e
              | inr state' =>
                  let* _ := saveState state' in
                  ret {| r_bookmarks := prepared;
                         r_count := length prepared;
                         r_pendingFile := true |}
              end
          end
      end
  end.

End Processor.

(** ** The classification rules, as tests on the text of the URL *)

(** [sub] occurs somewhere in [s]. *)
Definition Contains (s sub : string) : Prop :=
  ∃ pre post, s = pre +:+ sub +:+ post.

(** Every test reads the text of the whole URL. A URL counts as one of a
    code host, a video host or a social host when the name of the host
    occurs anywhere in it, be it in the domain, the path or the query. *)
Definition CodeHost (url : string) : Prop := Contains url "github.com".

Definition VideoHost (url : string) : Prop :=
  Contains url "youtube.com" ∨ Contains url "youtu.be".

Definition SocialHost (url : string) : Prop :=
  Contains url "x.com" ∨ Contains url "twitter.com".

Definition MediaPath (url : string) : Prop :=
  Contains url "/photo/" ∨ Contains url "/video/".

(** The whole URL, query and fragment included, ends in a dot and an image
    extension, in either case. *)
Definition ImageFile (url : string) : Prop :=
  ∃ stem ext, ext ∈ ["jpg"; "jpeg"; "png"; "gif"; "webp"] ∧
              Js.toLower url = stem +:+ "." +:+ ext.

(** The ordered rules: each one applies only when no earlier one does. *)
Inductive Classified (url : string) : LinkType → Prop :=
| rule_code_host :
    CodeHost url → Classified url github
| rule_video :
    ¬ CodeHost url → VideoHost url → Classified url video
| rule_social_article :
    ¬ CodeHost url → ¬ VideoHost url → SocialHost url →
    Contains url "/i/article/" → Classified url x_article
| rule_social_media :
    ¬ CodeHost url → ¬ VideoHost url → SocialHost url →
    ¬ Contains url "/i/article/" → MediaPath url → Classified url media
| rule_social_post :
    ¬ CodeHost url → ¬ VideoHost url → SocialHost url →
    ¬ Contains url "/i/article/" → ¬ MediaPath url → Classified url tweet
| rule_image :
    ¬ CodeHost url → ¬ VideoHost url → ¬ SocialHost url →
    ImageFile url → Classified url image
| rule_default :
    ¬ CodeHost url → ¬ VideoHost url → ¬ SocialHost url →
    ¬ ImageFile url → Classified url article.

(** ** The classification rules, as the specification words them *)

(** The specification speaks of the domain, the path and the file name of the
    URL [scheme://host/path?query#fragment]. These definitions follow its
    words, not the code; [detectLinkType] is compared with them. *)

Definition notDelimiter (c : ascii) : bool :=
  negb (Ascii.eqb c "/" || Ascii.eqb c "?" || Ascii.eqb c "#").

Definition notQueryStart (c : ascii) : bool :=
  negb (Ascii.eqb c "?" || Ascii.eqb c "#").

(** The text after the first [://], empty when there is none. *)
Definition afterScheme (url : string) : string :=
  default "" (Js.search (Js.stripPrefix "://") url).

(** The host, in lower case: up to the first slash, question mark or hash. *)
Definition urlHost (url : string) : string :=
  Js.toLower (Js.span notDelimiter (afterScheme url)).1.

(** The path: from the end of the host up to the query or the fragment. *)
Definition urlPath (url : string) : string :=
  (Js.span notQueryStart (Js.span notDelimiter (afterScheme url)).2).1.

(** The file name: what follows the last slash of the path. *)
Fixpoint lastSegment (path : string) : string :=
  match path with
  | EmptyString => ""
  | String _ rest => if Js.includes path "/" then lastSegment rest else path
  end.

Definition urlFilename (url : string) : string := lastSegment (urlPath url).

(** The host is the domain or one of its subdomains. *)
Definition onDomain (host domain : string) : bool :=
  String.eqb host domain || Js.endsWith host ("." +:+ domain).

Definition hasImageExtension (filename : string) : bool :=
  existsb (λ ext, Js.endsWith (Js.toLower filename) ("." +:+ ext))
          ["jpg"; "jpeg"; "png"; "gif"; "webp"].

Definition classifyByParts (url : string) : LinkType :=
  let host := urlHost url in
  let path := urlPath url in
  if onDomain host "github.com" then github
  else if onDomain host "youtube.com" || onDomain host "youtu.be" then video
  else if onDomain host "x.com" || onDomain host "twitter.com" then
    if Js.includes path "/i/article/" then x_article
    else if Js.includes path "/photo/" || Js.includes path "/video/" then media
    else tweet
  else if hasImageExtension (urlFilename url) then image
  else article.

(** ** Vocabulary of the properties *)

(** The state after the external calls [evs], the files untouched. *)
Definition after (st : St) (evs : list Event) : St :=
  {| fs := fs st; trace := trace st ++ evs |}.

(** The comparator that orders by a numeric key, ascending: [keyA - keyB]. *)
Definition byKey {A} (key : A → Z) (a b : A) : Z := (key a - key b)%Z.

(** A non-empty string of the ten decimal digits. *)
Definition DIGITS : list ascii :=
  ["0"; "1"; "2"; "3"; "4"; "5"; "6"; "7"; "8"; "9"]%char.

Definition DecimalDigits (s : string) : Prop :=
  s ≠ "" ∧ Forall (λ c, c ∈ DIGITS) (list_ascii_of_string s).

(** The events of a content-extraction attempt and of a direct fetch. *)
Definition isFallbackEvent (ev : Event) : bool :=
  match ev with
  | EvSummarize _ | EvDirectFetch _ => true
  | _ => false
  end.

Definition isGitHubApiEvent (ev : Event) : bool :=
  match ev with
  | EvGitHubApi _ => true
  | _ => false
  end.

(** [Keeps P m]: running [m] leaves the files as they are, and every external
    call it makes satisfies [P]. *)
Definition Keeps {A} (P : Event → Prop) (m : M A) : Prop :=
  ∀ st, ∃ evs, (m st).2 = after st evs ∧ Forall P evs.

(** [Returns m]: [m] never throws. *)
Definition Returns {A} (m : M A) : Prop :=
  ∀ st, ∃ a, (m st).1 = inr a.

(** What [expandTcoLink] returns for [url] in the state [st]. *)
Definition expansion (w : World) (st : St) (url : string) : string :=
  match http_head w (trace st) url with
  | inr final => if Js.truthy final then final else url
  | inl _ => url
  end.

(** The selection policy read "forced mode first". *)
Definition forcedFirstPolicy (options : Options) (existingIds pendingIds : gset string)
    (tweets : list Bookmark) : list Bookmark :=
  if opt_force options then tweets
  else
    match opt_specificIds options with
    | Some specificIds => filter (fun b => bm_id b ∈ specificIds) tweets
    | None =>
        filter (fun b => (bm_id b ∉ existingIds) ∧ (bm_id b ∉ pendingIds)) tweets
    end.

(** The selection policy read "allow-list first": which items are kept. *)
Definition Selected (options : Options) (existingIds pendingIds : gset string)
    (b : Bookmark) : Prop :=
  match opt_specificIds options with
  | Some specificIds => bm_id b ∈ specificIds
  | None =>
      opt_force options = true ∨ ((bm_id b ∉ existingIds) ∧ (bm_id b ∉ pendingIds))
  end.

#[global] Instance Selected_dec options existingIds pendingIds b :
  Decision (Selected options existingIds pendingIds b).
Proof. unfold Selected. destruct (opt_specificIds options); apply _. Defined.

(** The state [loadState] reads from the files. *)
Definition loadedState (f : FS) : StateValue :=
  match stateFile f with
  | Parsed state => state
  | Absent | Corrupt => StateObject defaultState []
  end.

(** The creation timestamp of a record as the specification words it: the
    time its creation date denotes, and epoch 0 for a record lacking one;
    [None] when the date denotes no time. *)
Definition timestamp (w : World) (a : Prepared) : option Z :=
  match p_createdAt a with
  | None => Some 0%Z
  | Some EmptyString => Some 0%Z
  | Some date => getTime w date
  end.

(** The fetch step of a run. *)
Definition fetchStep (w : World) (config : Config) (options : Options)
  : M (list Bookmark) :=
  if fromFolders config options
  then fetchFromFolders w (configWithOptions config options)
         (countOf options) (fetchOptionsOf options)
  else fetchFromSource w (configWithOptions config options)
         (countOf options) (fetchOptionsOf options).

(** A queue in ascending order of creation timestamp, as the specification
    words it: every two neighbours have timestamps, the first at most the
    second. *)
Definition AscendingByTimestamp (w : World) (queue : list Prepared) : Prop :=
  ∀ i a b,
    queue !! i = Some a → queue !! S i = Some b →
    ∃ ta tb, timestamp w a = Some ta ∧ timestamp w b = Some tb ∧ (ta ≤ tb)%Z.

(** The files a run leaves when it has merged [queue] into the pending file:
    the state file is written after the pending file, unless setting
    [last_check] throws. *)
Definition filesAfterRun (w : World) (f : FS) (queue : list Prepared) : FS :=
  {| archiveFile := archiveFile f;
     pendingFile :=
       Parsed {| pd_generatedAt := Some (now_iso w);
                 pd_count := Some (length queue);
                 pd_bookmarks := Some (Some queue) |};
     stateFile :=
       match setLastCheck w (loadedState f) with
       | inr state => Parsed state
       | inl _ => stateFile f
       end |}.

(** What the bird CLI answers for the folder [fid], the [i]-th one configured,
    in a folder fetch that starts in [st]: the folders before it have been
    asked by then, whether they failed or not. *)
Definition folderAnswer (w : World) (st : St) (count : nat) (options : FetchOptions)
    (folders : list (string * string)) (i : nat) (fid : string) : string + BirdJson :=
  bird_list w
    (trace st ++
     take i ((λ folder, EvBird (bookmarksCmd count
                                  {| fo_all := fo_all options;
                                     fo_maxPages := fo_maxPages options;
                                     fo_folderId := Some folder.1 |})) <$> folders))
    (bookmarksCmd count {| fo_all := fo_all options;
                           fo_maxPages := fo_maxPages options;
                           fo_folderId := Some fid |}).

(** The bird commands of a folder fetch: one listing per folder, in the
    order of the configuration. *)
Definition folderCalls (count : nat) (options : FetchOptions)
    (folders : list (string * string)) : list Event :=
  (λ folder, EvBird (bookmarksCmd count
                       {| fo_all := fo_all options;
                          fo_maxPages := fo_maxPages options;
                          fo_folderId := Some folder.1 |})) <$> folders.

(** ** Sample inputs *)

Module Sample.

Definition bookmark (id : string) (createdAt : option string) (text : string)
  : Bookmark :=
  {| bm_id := id; bm_text := Some text; bm_full_text := None;
     bm_createdAt := createdAt;
     bm_author := Some {| username := Some "alice"; name := Some "Alice" |};
     bm_user := None; bm_inReplyToStatusId := None; bm_quotedTweet := None;
     bm_media := Some ["https://pbs.twimg.com/media/a.jpg"];
     bm_folderTag := None; bm_folderId := None |}.

Definition prepared (id : string) (createdAt : option string) : Prepared :=
  {| p_id := id; p_author := "alice"; p_authorName := "Alice"; p_text := "";
     p_tweetUrl := "https://x.com/alice/status/" +:+ id;
     p_createdAt := createdAt; p_links := []; p_media := []; p_tags := [];
     p_date := ""; p_isReply := false; p_replyContext := None;
     p_isQuote := false; p_quoteContext := None |}.

Definition t0 : string := "2023-01-01T00:00:00.000Z".
Definition t1 : string := "2024-01-01T00:00:00.000Z".

(** The two dates are known; any other text is no date. *)
Definition time (s : string) : option Z :=
  if String.eqb s t0 then Some 1672531200000%Z
  else if String.eqb s t1 then Some 1704067200000%Z
  else None.

(** An engine that leaves the array as it is when the comparator answers NaN.
    V8 does so whenever no answer of the comparator is negative, as it then
    takes the whole array for one ascending run. *)
Definition keepOrder (l : list Prepared) : { sorted : list Prepared | sorted ≡ₚ l } :=
  exist _ l (Permutation_refl l).

Definition protocol (url : string) : option string :=
  if Js.startsWith url "https:" then Some "https:"
  else if Js.startsWith url "http:" then Some "http:"
  else None.

(** Every external call fails. *)
Definition offline : World :=
  {| now_iso := "2026-01-26T12:00:00.000Z";
     format_date := fun _ => "Monday, January 26, 2026";
     getTime := time;
     engine_sort := keepOrder;
     url_protocol := protocol;
     bird_list := fun _ _ => inl "spawnSync /bin/sh ETIMEDOUT";
     bird_read := fun _ _ => inl "Command failed";
     http_head := fun _ _ => inl "fetch failed";
     github_repo := fun _ _ => inl "fetch failed";
     github_readme := fun _ _ => inl "fetch failed";
     summarize := fun _ _ => inl "spawnSync summarize ENOENT";
     http_get := fun _ _ => inl "fetch failed" |}.

(** The bird CLI lists [tweets] for every listing command; everything else
    is offline. *)
Definition listing (tweets : list Bookmark) : World :=
  {| now_iso := now_iso offline; format_date := format_date offline;
     getTime := time; engine_sort := keepOrder; url_protocol := protocol;
     bird_list := fun _ _ => inr (JArray tweets);
     bird_read := bird_read offline; http_head := http_head offline;
     github_repo := github_repo offline; github_readme := github_readme offline;
     summarize := summarize offline; http_get := http_get offline |}.

(** The first folder cannot be fetched, the second lists [tweets]. *)
Definition firstFolderDown (tweets : list Bookmark) : World :=
  {| now_iso := now_iso offline; format_date := format_date offline;
     getTime := time; engine_sort := keepOrder; url_protocol := protocol;
     bird_list := fun _ cmd =>
       match cmd with
       | BookmarksN (Some "f2") _ => inr (JArray tweets)
       | _ => inl "spawnSync /bin/sh ETIMEDOUT"
       end;
     bird_read := bird_read offline; http_head := http_head offline;
     github_repo := github_repo offline; github_readme := github_readme offline;
     summarize := summarize offline; http_get := http_get offline |}.

(** Links expand to [dest]; the GitHub API is down; the summarize CLI
    extracts an article from any page. *)
Definition githubDown (dest : string) : World :=
  {| now_iso := now_iso offline; format_date := format_date offline;
     getTime := time; engine_sort := keepOrder; url_protocol := protocol;
     bird_list := bird_list offline; bird_read := bird_read offline;
     http_head := fun _ _ => inr dest;
     github_repo := fun _ _ => inl "fetch failed";
     github_readme := github_readme offline;
     summarize := fun _ _ =>
       inr (Some {| ex_title := Some "README"; ex_description := None;
                    ex_content := Some "A page of text" |});
     http_get := http_get offline |}.

(** Links expand to [dest], and the bird CLI reads [post] for every
    identifier; everything else is offline. *)
Definition reading (dest : string) (post : RawTweet) : World :=
  {| now_iso := now_iso offline; format_date := format_date offline;
     getTime := time; engine_sort := keepOrder; url_protocol := protocol;
     bird_list := bird_list offline;
     bird_read := fun _ _ => inr post;
     http_head := fun _ _ => inr dest;
     github_repo := github_repo offline; github_readme := github_readme offline;
     summarize := summarize offline; http_get := http_get offline |}.

Definition articlePost : RawTweet :=
  {| rt_id := "123";
     rt_author := Some {| username := Some "alice"; name := Some "Alice" |};
     rt_text := Some "The text of the article";
     rt_full_text := None;
     rt_article_title := Some "A long read" |}.

Definition noOptions : Options :=
  {| opt_source := None; opt_includeMedia := None; opt_count := None;
     opt_all := false; opt_maxPages := None; opt_specificIds := None;
     opt_force := false |}.

Definition noConfig : Config :=
  {| cfg_source := None; cfg_includeMedia := None; cfg_folders := [] |}.

Definition emptyFS : FS :=
  {| archiveFile := None; pendingFile := Absent; stateFile := Absent |}.

Definition start (f : FS) : St := {| fs := f; trace := [] |}.

End Sample.


(** * Obsidian notes

    A shallow embedding of [src/obsidian.js], which turns a prepared bookmark
    into a note of an Obsidian vault. Characters are the code units below 256;
    among them [\s], and what [trim] removes, are the tab, the line feed, the
    vertical tab, the form feed, the carriage return, the space and the
    no-break space. *)

Module Obsidian.

(** ** String primitives of the formatter *)

Definition dquote : ascii := ascii_of_nat 34.
Definition newline : ascii := ascii_of_nat 10.

Definition notQuote (c : ascii) : bool := negb (Ascii.eqb c dquote).

(** [\s] *)
Definition isSpace (c : ascii) : bool :=
  Js.between 9 13 c || Ascii.eqb c " "%char || (nat_of_ascii c =? 160)%nat.

(** A line terminator, after which [^] matches under the [m] flag. *)
Definition isLineTerminator (c : ascii) : bool :=
  (nat_of_ascii c =? 10)%nat || (nat_of_ascii c =? 13)%nat.

Fixpoint mapChars (f : ascii -> ascii) (s : string) : string :=
  match s with
  | EmptyString => EmptyString
  | String c t => String (f c) (mapChars f t)
  end.

(** [s.replace(/[cls]/g, rep)] for a character class and one character. *)
Definition replaceClass (cls : ascii -> bool) (rep : ascii) (s : string) : string :=
  mapChars (fun c => if cls c then rep else c) s.

(** [s.replace(/pattern/g, rep)], left to right and without overlap. [here s]
    gives the length of the match of the pattern at the start of [s]; [skip]
    counts the characters of the last match still to be passed. The patterns
    used here never match the empty string. *)
Fixpoint replaceAll (here : string -> option nat) (rep : string) (skip : nat)
    (s : string) : string :=
  match s with
  | EmptyString => EmptyString
  | String c t =>
      match skip with
      | S k => replaceAll here rep k t
      | O =>
          match here s with
          | Some (S n) => rep +:+ replaceAll here rep n t
          | _ => String c (replaceAll here rep 0 t)
          end
      end
  end.

(** The greedy [cls{least,}] at the start of [s]. *)
Definition runOf (cls : ascii -> bool) (least : nat) (s : string) : option nat :=
  let '(d, _) := Js.span cls s in
  if (least <=? String.length d)%nat then Some (String.length d) else None.

Fixpoint dropWhile (cls : ascii -> bool) (s : string) : string :=
  match s with
  | EmptyString => EmptyString
  | String c t => if cls c then dropWhile cls t else s
  end.

Fixpoint dropWhileEnd (cls : ascii -> bool) (s : string) : string :=
  match s with
  | EmptyString => EmptyString
  | String c t =>
      let r := dropWhileEnd cls t in
      if cls c && negb (Js.truthy r) then EmptyString else String c r
  end.

(** [s.replace(/^[cls]+|[cls]+$/g, '')]: without the [m] flag the first
    alternative matches the leading run only and the second the trailing run
    only. *)
Definition stripEnds (cls : ascii -> bool) (s : string) : string :=
  dropWhileEnd cls (dropWhile cls s).

(** [s.trim()] *)
Definition trim (s : string) : string := stripEnds isSpace s.

(** [s.slice(n)] *)
Fixpoint sliceFrom (n : nat) (s : string) : string :=
  match n, s with
  | O, _ => s
  | S k, String _ t => sliceFrom k t
  | S _, EmptyString => EmptyString
  end.

(** [s.search(/pattern/)]: the index of the leftmost match, [None] for -1. *)
Fixpoint searchIndex (here : string -> bool) (s : string) : option nat :=
  if here s then Some 0%nat
  else
    match s with
    | EmptyString => None
    | String _ t => S <$> searchIndex here t
    end.

(** [s.lastIndexOf(c)] for one character, [None] for -1. *)
Fixpoint lastIndexOf (c : ascii) (s : string) : option nat :=
  match s with
  | EmptyString => None
  | String a t =>
      match lastIndexOf c t with
      | Some i => Some (S i)
      | None => if Ascii.eqb a c then Some 0%nat else None
      end
  end.

(** The first match of a pattern that starts with [^] under the [m] flag:
    [here] is tried at the start of the text and after every line
    terminator. [bol] tells whether the start of [s] is such a place. *)
Fixpoint matchLines {A} (here : string -> option A) (bol : bool) (s : string)
  : option A :=
  match (if bol then here s else None) with
  | Some v => Some v
  | None =>
      match s with
      | EmptyString => None
      | String c t => matchLines here (isLineTerminator c) t
      end
  end.

(** ** File names *)

Definition MAX_FILENAME_LENGTH : nat := 80.

(** The class of the first replacement: slash, backslash, colon, asterisk,
    question mark, double quote, angle brackets and bar. *)
Definition isReserved (c : ascii) : bool :=
  Js.includes "/\:*?<>|" (String c "") || Ascii.eqb c dquote.

Definition isApostrophe (c : ascii) : bool := Ascii.eqb c "'"%char.
Definition isDot (c : ascii) : bool := Ascii.eqb c "."%char.
Definition isDash (c : ascii) : bool := Ascii.eqb c "-"%char.

(** [[.\-\s]] *)
Definition isEdge (c : ascii) : bool := isDot c || isDash c || isSpace c.

Definition sanitizeFilename (name : string) : string :=
  if negb (Js.truthy name) then "untitled"
  else
    let sanitized :=
      trim
        (replaceAll (runOf isDash 1) "-" 0
           (stripEnds isEdge
              (replaceAll (runOf isDot 2) "." 0
                 (replaceClass isApostrophe "-"
                    (replaceClass isReserved "-" name))))) in
    if Js.truthy sanitized then sanitized else "untitled".

(** The properties of a bookmark the formatter reads; each may be missing. *)
Record NoteContent := {
  nc_title : option string;
  nc_author : option string;
  nc_text : option string;
  nc_description : option string
}.

Record NoteLink := {
  nl_expanded : option string;
  nl_content : option NoteContent
}.

Record NoteBookmark := {
  nb_author : option string;
  nb_text : option string;
  nb_tweetUrl : option string;
  nb_createdAt : option string;
  nb_links : option (list NoteLink)
}.

(** [bookmark.links?.[0]] *)
Definition firstLink (bookmark : NoteBookmark) : option NoteLink :=
  nb_links bookmark ≫= head.

(** [link?.content?.title] and the like, kept when truthy. *)
Definition linkContent (field : NoteContent -> option string)
    (bookmark : NoteBookmark) : option string :=
  match (firstLink bookmark ≫= nl_content) ≫= field with
  | Some s => if Js.truthy s then Some s else None
  | None => None
  end.

(** [/[.!?]\s|[.!?]$/] at the start of [s]. *)
Definition sentenceEndHere (s : string) : bool :=
  match s with
  | String c t =>
      Js.includes ".!?" (String c "")
      && match t with
         | EmptyString => true
         | String d _ => isSpace d
         end
  | EmptyString => false
  end.

Definition extractFirstSentence (text : option string) : string :=
  match text with
  | None => ""
  | Some text =>
      if negb (Js.truthy text) then ""
      else
        let cleaned :=
          trim (replaceAll (runOf isSpace 1) " " 0
                  (replaceClass (Ascii.eqb newline) " " text)) in
        let sentenceEnd := searchIndex sentenceEndHere cleaned in
        let inRange :=
          match sentenceEnd with
          | Some i => (0 <? i)%nat && (i <? 80)%nat
          | None => false
          end in
        if inRange then trim (Js.take (default 0%nat sentenceEnd + 1) cleaned)
        else if (String.length cleaned <=? 80)%nat then cleaned
        else
          let truncated := Js.take 80 cleaned in
          match lastIndexOf " " truncated with
          | Some lastSpace =>
              if (40 <? lastSpace)%nat
              then Js.take lastSpace truncated +:+ "..."
              else truncated +:+ "..."
          | None => truncated +:+ "..."
          end
  end.

(** [`@${bookmark.author || 'unknown'}`] *)
Definition atAuthor (bookmark : NoteBookmark) : string :=
  "@" +:+ Js.orStr (nb_author bookmark) "unknown".

Definition generateNoteFilename (bookmark : NoteBookmark) : string :=
  match linkContent nc_title bookmark with
  | Some title => sanitizeFilename title +:+ ".md"
  | None =>
      let author := atAuthor bookmark in
      let firstSentence := extractFirstSentence (nb_text bookmark) in
      let baseFilename :=
        if Js.truthy firstSentence
        then sanitizeFilename (author +:+ " - " +:+ firstSentence)
        else sanitizeFilename author in
      let truncated :=
        if (MAX_FILENAME_LENGTH <? String.length baseFilename)%nat
        then trim (Js.take MAX_FILENAME_LENGTH baseFilename)
        else baseFilename in
      truncated +:+ ".md"
  end.

(** ** The note *)

Definition extractAuthor (bookmark : NoteBookmark) : string :=
  match linkContent nc_author bookmark with
  | Some author => author
  | None => atAuthor bookmark
  end.

Definition extractBody (bookmark : NoteBookmark) : string :=
  match linkContent nc_text bookmark with
  | Some text => text
  | None => Js.orStr (nb_text bookmark) ""
  end.

Definition extractSource (bookmark : NoteBookmark) : string :=
  match firstLink bookmark ≫= nl_expanded with
  | Some expanded =>
      if Js.truthy expanded then expanded else Js.orStr (nb_tweetUrl bookmark) ""
  | None => Js.orStr (nb_tweetUrl bookmark) ""
  end.

Definition extractTitle (bookmark : NoteBookmark) : string :=
  match linkContent nc_title bookmark with
  | Some title => title
  | None =>
      let author := atAuthor bookmark in
      let firstSentence := extractFirstSentence (nb_text bookmark) in
      if Js.truthy firstSentence then author +:+ " - " +:+ firstSentence else author
  end.

(** The date library: [dayjs(date).format('YYYY-MM-DDTHH:mm:ssZ')] of a
    creation date, and of the current time. *)
Record Clock := {
  formatTimestamp : string -> string;
  formatNow : string
}.

Definition quote : string := String dquote "".
Definition nl : string := String newline "".

(** The description is computed by the source but is no part of the note. *)
Definition formatClippingNote (clock : Clock) (bookmark : NoteBookmark) : string :=
  let author := extractAuthor bookmark in
  let body := extractBody bookmark in
  let source := extractSource bookmark in
  let title := extractTitle bookmark in
  let authorLink :=
    if Js.startsWith author "@"
    then "[[@" +:+ sliceFrom 1 author +:+ "]]"
    else "[[" +:+ author +:+ "]]" in
  let published :=
    match nb_createdAt bookmark with
    | Some createdAt =>
        if Js.truthy createdAt then formatTimestamp clock createdAt else ""
    | None => ""
    end in
  let created := formatNow clock in
  "---" +:+ nl +:+
  "categories:" +:+ nl +:+
  "  - " +:+ quote +:+ "[[Clippings]]" +:+ quote +:+ nl +:+
  "tags:" +:+ nl +:+
  "  - clippings" +:+ nl +:+
  "author:" +:+ nl +:+
  "  - " +:+ quote +:+ authorLink +:+ quote +:+ nl +:+
  "url: " +:+ quote +:+ source +:+ quote +:+ nl +:+
  "created: " +:+ created +:+ nl +:+
  "published: " +:+ published +:+ nl +:+
  "topics: []" +:+ nl +:+
  "---" +:+ nl +:+
  "# " +:+ title +:+ nl +:+
  nl +:+
  body +:+ nl.

(** [link?.expanded || bookmark.tweetUrl || ''] *)
Definition getSourceUrl (bookmark : NoteBookmark) : string :=
  Js.orStr (Js.orOpt (firstLink bookmark ≫= nl_expanded) (nb_tweetUrl bookmark)) "".

(** ** Notes already in the vault *)

(** The pattern of a front matter field at the start of [s]: the key, any
    white space, and between double quotes a non-empty group without double
    quote, which is the result. *)
Definition fieldHere (key : string) (s : string) : option string :=
  r ← Js.stripPrefix key s;
  let '(_, r1) := Js.span isSpace r in
  r2 ← Js.stripPrefix quote r1;
  let '(value, r3) := Js.span notQuote r2 in
  if negb (Js.truthy value) then None
  else _ ← Js.stripPrefix quote r3; Some value.

(** The [url] field of a note, or else its [source] field: the first group
    of the first match, lines starting where the [m] flag says. *)
Definition noteUrl (content : string) : option string :=
  match matchLines (fieldHere "url:") true content with
  | Some url => Some url
  | None => matchLines (fieldHere "source:") true content
  end.

(** The clippings directory: missing, unreadable, or listing its entries.
    An entry is a file name and its text, when it can be read. *)
Inductive Dir :=
| NoDir
| BadDir
| Entries (files : list (string * option string)).

(** The loop over the entries; a file that cannot be read ends the search,
    as the exception is caught around the loop. *)
Fixpoint findAmong (path_join : string -> string) (sourceUrl : string)
    (files : list (string * option string)) : option string :=
  match files with
  | [] => None
  | (file, content) :: rest =>
      if negb (Js.endsWith file ".md") then findAmong path_join sourceUrl rest
      else
        match content with
        | None => None
        | Some content =>
            if bool_decide (noteUrl content = Some sourceUrl)
            then Some (path_join file)
            else findAmong path_join sourceUrl rest
        end
  end.

(** [path_join file] is [path.join(clippingsDir, file)]. *)
Definition findExistingNoteBySource (path_join : string -> string) (clippingsDir : Dir)
    (sourceUrl : string) : option string :=
  if negb (Js.truthy sourceUrl) then None
  else
    match clippingsDir with
    | NoDir | BadDir => None
    | Entries files => findAmong path_join sourceUrl files
    end.

(** ** Writing a note *)

(** The [path] and [fs] modules of Node: path arithmetic, the state of a
    directory, and the two writes, each of which may throw a message. *)
Record Disk := {
  fs_resolve : string -> string -> string;     (* [path.resolve(a, b)] *)
  fs_join : string -> string -> string;        (* [path.join(dir, file)] *)
  fs_basename : string -> string;
  fs_sep : string;
  fs_directory : string -> Dir;
  fs_mkdir : string -> option string;          (* [mkdirSync]: the message thrown *)
  fs_write : string -> string -> option string (* [writeFileSync]: the message thrown *)
}.

Inductive FsEvent :=
| EvMkdir (path : string)
| EvWriteFile (path content : string).

Record WriteOptions := {
  wo_clippingsFolder : option string;
  wo_skipDuplicates : option bool
}.

Record WriteResult := {
  wr_filePath : string;
  wr_filename : string;
  wr_content : option string;
  wr_skipped : bool;
  wr_reason : option string
}.

(** The [catch] of [writeClippingNote]. *)
Definition wrapError (filename : string) (msg : string) : Exn :=
  if Js.includes msg "escape vault directory" then Error msg
  else Error ("Failed to write note " +:+ quote +:+ filename +:+ quote +:+ ": " +:+ msg).

Definition isNoDir (d : Dir) : bool :=
  match d with
  | NoDir => true
  | _ => false
  end.

(** The result, and the calls made to [mkdirSync] and [writeFileSync]. A
    directory that was just made is empty. *)
Definition writeClippingNote (disk : Disk) (clock : Clock) (vaultPath : option string)
    (bookmark : NoteBookmark) (options : WriteOptions)
  : (Exn + WriteResult) * list FsEvent :=
  let clippingsFolder := default "Clippings" (wo_clippingsFolder options) in
  let skipDuplicates := default true (wo_skipDuplicates options) in
  if negb (Js.truthyOpt vaultPath) then (inl (Error "Vault path is required"), [])
  else
    let content := formatClippingNote clock bookmark in
    let filename := generateNoteFilename bookmark in
    let clippingsDir := fs_resolve disk (default "" vaultPath) clippingsFolder in
    let missing := isNoDir (fs_directory disk clippingsDir) in
    let made := if missing then [EvMkdir clippingsDir] else [] in
    match (if missing then fs_mkdir disk clippingsDir else None) with
    | Some msg => (inl (wrapError filename msg), made)
    | None =>
        let dir := if missing then Entries [] else fs_directory disk clippingsDir in
        let existingNote :=
          if skipDuplicates
          then findExistingNoteBySource (fs_join disk clippingsDir) dir
                 (getSourceUrl bookmark)
          else None in
        if Js.truthyOpt existingNote then
          (inr {| wr_filePath := default "" existingNote;
                  wr_filename := fs_basename disk (default "" existingNote);
                  wr_content := None;
                  wr_skipped := true;
                  wr_reason := Some "duplicate" |}, made)
        else
          let filePath := fs_resolve disk clippingsDir filename in
          if negb (Js.startsWith filePath (clippingsDir +:+ fs_sep disk))
             && negb (String.eqb filePath clippingsDir)
          then
            (inl (wrapError filename
                    ("Invalid filename would escape vault directory: " +:+ filename)),
             made)
          else
            match fs_write disk filePath content with
            | Some msg => (inl (wrapError filename msg), made ++ [EvWriteFile filePath content])
            | None =>
                (inr {| wr_filePath := filePath;
                        wr_filename := filename;
                        wr_content := Some content;
                        wr_skipped := false;
                        wr_reason := None |},
                 made ++ [EvWriteFile filePath content])
            end
    end.

(** ** Vocabulary of the properties *)

Definition headIs (cls : ascii -> bool) (s : string) : bool :=
  match s with
  | String c _ => cls c
  | EmptyString => false
  end.

Fixpoint lastIs (cls : ascii -> bool) (s : string) : bool :=
  match s with
  | EmptyString => false
  | String c EmptyString => cls c
  | String _ t => lastIs cls t
  end.

(** No two neighbours are both in the class. *)
Fixpoint noAdj (cls : ascii -> bool) (s : string) : bool :=
  match s with
  | EmptyString => true
  | String c t => negb (cls c && headIs cls t) && noAdj cls t
  end.

(** Every maximal run of the class becomes the one character [r]. *)
Fixpoint squeeze (cls : ascii -> bool) (r : ascii) (s : string) : string :=
  match s with
  | EmptyString => EmptyString
  | String c t =>
      if cls c then (if headIs cls t then squeeze cls r t else String r (squeeze cls r t))
      else String c (squeeze cls r t)
  end.

(** A character that may stand in a file name. *)
Definition isSafe (c : ascii) : bool := negb (isReserved c || isApostrophe c).

Definition notLineTerminator (c : ascii) : bool := negb (isLineTerminator c).

(** A character that is the plain space or no white space at all. *)
Definition isPlain (c : ascii) : bool := negb (isSpace c) || Ascii.eqb c " "%char.

End Obsidian.

(** ** Sample notes *)

Module NoteSample.

Import Obsidian.

Definition clock : Clock :=
  {| formatTimestamp := fun _ => "2026-01-26T02:30:00-08:00";
     formatNow := "2026-01-27T09:00:00-08:00" |}.

Definition bookmarkWithoutLink : NoteBookmark :=
  {| nb_author := Some "dhh";
     nb_text := Some ("Just shipped Rails 8 with the new async rendering pipeline. " +:+
                      "Performance gains are massive.");
     nb_tweetUrl := Some "https://x.com/dhh/status/1234567890";
     nb_createdAt := Some "2026-01-26T10:30:00Z";
     nb_links := Some [] |}.

Definition bookmarkWithLink : NoteBookmark :=
  {| nb_author := Some "zachbruggeman";
     nb_text := Some "Great read on building coding agents at scale";
     nb_tweetUrl := Some "https://x.com/zachbruggeman/status/9876543210";
     nb_createdAt := Some "2026-01-25T20:31:23Z";
     nb_links :=
       Some [ {| nl_expanded :=
                   Some "https://builders.ramp.com/post/why-we-built-our-background-agent";
                 nl_content :=
                   Some {| nc_title := Some "Why We Built Our Own Background Agent";
                           nc_author := Some "Zach Bruggeman";
                           nc_text := Some "The craft of engineering is rapidly changing.";
                           nc_description :=
                             Some "Building a background coding agent at Ramp" |} |} ] |}.

Definition path_join (file : string) : string := "/vault/Clippings/" +:+ file.

Definition earlier : Clock :=
  {| formatTimestamp := fun _ => "2026-01-26T02:30:00-08:00";
     formatNow := "2026-01-26T18:45:10-08:00" |}.

(** Paths with [/]; one directory state for every path; writes that succeed. *)
Definition disk (dir : Dir) : Disk :=
  {| fs_resolve := fun a b => a +:+ "/" +:+ b;
     fs_join := fun d file => d +:+ "/" +:+ file;
     fs_basename := fun path => path;
     fs_sep := "/";
     fs_directory := fun _ => dir;
     fs_mkdir := fun _ => None;
     fs_write := fun _ _ => None |}.

Definition defaults : WriteOptions :=
  {| wo_clippingsFolder := None; wo_skipDuplicates := None |}.

(** A note as the tests of the search write it. *)
Definition existingNote : string :=
  "---" +:+ nl +:+ "url: " +:+ quote +:+ "https://example.com/article" +:+ quote +:+ nl +:+
  "---" +:+ nl +:+ "Content".

End NoteSample.

(** * Properties *)

(** ** Strings *)

Lemma app_empty (s : string) : "" +:+ s = s.
Proof. done. Qed.

Lemma app_String (c : ascii) (a b : string) : String c a +:+ b = String c (a +:+ b).
Proof. done. Qed.

Ltac norm_app := rewrite ?app_empty, ?app_String.
Ltac norm_app_in H := rewrite ?app_empty, ?app_String in H.

Lemma startsWith_spec (s p : string) :
  Js.startsWith s p = true ↔ ∃ post, s = p +:+ post.
Proof.
  revert s. induction p as [|a p IH]; intros s; simpl.
  - split; [intros _; by exists s | done].
  - destruct s as [|b s].
    + split; [done | intros [post H]; discriminate].
    + destruct (Ascii.eqb_spec a b) as [->|Hne].
      * rewrite IH. split; intros [post H]; exists post.
        -- norm_app. by rewrite H.
        -- norm_app_in H. by injection H.
      * split; [done | intros [post H]; norm_app_in H; injection H; congruence].
Qed.

Lemma includes_spec (s sub : string) :
  Js.includes s sub = true ↔ Contains s sub.
Proof.
  unfold Contains. induction s as [|c s IH]; simpl.
  - rewrite orb_false_r, startsWith_spec. split.
    + intros [post H]. by exists "", post.
    + intros (pre & post & H). destruct pre; [by exists post | discriminate].
  - rewrite orb_true_iff, startsWith_spec, IH. split.
    + intros [[post H] | (pre & post & H)].
      * by exists "", post.
      * exists (String c pre), post. norm_app. by rewrite H.
    + intros (pre & post & H). destruct pre as [|c' pre]; norm_app_in H.
      * left. by exists post.
      * right. injection H as _ H. by exists pre, post.
Qed.

Lemma includes_false (s sub : string) :
  Js.includes s sub = false ↔ ¬ Contains s sub.
Proof. rewrite <- includes_spec. by destruct (Js.includes s sub). Qed.

Lemma endsWith_spec (s suf : string) :
  Js.endsWith s suf = true ↔ ∃ pre, s = pre +:+ suf.
Proof.
  induction s as [|c s IH]; cbn [Js.endsWith].
  - rewrite orb_false_r. split.
    + intros H. apply String.eqb_eq in H. by exists "".
    + intros [pre H]. destruct pre; [|discriminate]. norm_app_in H. subst.
      apply String.eqb_refl.
  - rewrite orb_true_iff, IH. split.
    + intros [H | [pre H]].
      * apply String.eqb_eq in H. by exists "".
      * exists (String c pre). norm_app. by rewrite H.
    + intros [pre H]. destruct pre as [|c' pre]; norm_app_in H.
      * left. rewrite <- H. apply String.eqb_refl.
      * right. injection H as _ H. by exists pre.
Qed.

Lemma matchesImageExt_spec (url : string) :
  matchesImageExt url = true ↔ ImageFile url.
Proof.
  unfold matchesImageExt, ImageFile, IMAGE_SUFFIXES. simpl.
  rewrite orb_false_r, !orb_true_iff, !endsWith_spec. split.
  - intros [[pre H] | [[pre H] | [[pre H] | [[pre H] | [pre H]]]]];
      eexists pre, _; (split; [|exact H]); set_solver.
  - intros (stem & ext & Hin & H). rewrite H.
    rewrite !elem_of_cons, elem_of_nil in Hin.
    destruct Hin as [->|[->|[->|[->|[->|[]]]]]]; eauto 10.
Qed.

Lemma matchesImageExt_false (url : string) :
  matchesImageExt url = false ↔ ¬ ImageFile url.
Proof. rewrite <- matchesImageExt_spec. by destruct (matchesImageExt url). Qed.

(** ** Link classification *)

Lemma detectLinkType_Classified (url : string) : Classified url (detectLinkType url).
Proof.
  unfold detectLinkType.
  destruct (Js.includes url "github.com") eqn:Hg.
  { apply rule_code_host. by apply includes_spec. }
  apply includes_false in Hg.
  destruct (Js.includes url "youtube.com" || Js.includes url "youtu.be") eqn:Hv.
  { apply rule_video; [done|].
    apply orb_true_iff in Hv as [H|H]; [left|right]; by apply includes_spec. }
  assert (¬ VideoHost url) as Hv'.
  { apply orb_false_iff in Hv as [H1 H2].
    intros [H|H]; apply includes_spec in H; congruence. }
  destruct (Js.includes url "x.com" || Js.includes url "twitter.com") eqn:Hs.
  - assert (SocialHost url) as Hs'.
    { apply orb_true_iff in Hs as [H|H]; [left|right]; by apply includes_spec. }
    destruct (Js.includes url "/i/article/") eqn:Ha.
    { apply rule_social_article; [done..|]. by apply includes_spec. }
    apply includes_false in Ha.
    destruct (Js.includes url "/photo/" || Js.includes url "/video/") eqn:Hm.
    + apply rule_social_media; [done..|].
      apply orb_true_iff in Hm as [H|H]; [left|right]; by apply includes_spec.
    + apply rule_social_post; [done..|].
      apply orb_false_iff in Hm as [H1 H2].
      intros [H|H]; apply includes_spec in H; congruence.
  - assert (¬ SocialHost url) as Hs'.
    { apply orb_false_iff in Hs as [H1 H2].
      intros [H|H]; apply includes_spec in H; congruence. }
    destruct (matchesImageExt url) eqn:Hi.
    + apply rule_image; [done..|]. by apply matchesImageExt_spec.
    + apply rule_default; [done..|]. by apply matchesImageExt_false.
Qed.

Lemma Classified_functional (url : string) (t1 t2 : LinkType) :
  Classified url t1 → Classified url t2 → t1 = t2.
Proof. intros H1 H2. destruct H1; destruct H2; done. Qed.

(** C2. For every URL the classifier returns the kind given by the first rule
    that applies, in the order code host, video host, social host (article
    path, then photo or video path, then post), image extension, and generic
    article otherwise, where every rule is a test on the text of the whole
    URL: a host name or a path fragment occurs somewhere in it, and the image
    rule asks that the whole URL ends in the extension. The kinds carry the
    strings 'github', 'video', 'x-article', 'media', 'tweet', 'image' and
    'article'. In particular a URL that contains a social host name and
    '/i/article/' is a social article whatever else it looks like, unless it
    also contains a code-host or a video-host name. *)
Theorem detectLinkType_ordered_rules (url : string) :
  (∀ t, Classified url t ↔ detectLinkType url = t)
  ∧ tag <$> [github; video; x_article; media; tweet; image; article]
    = ["github"; "video"; "x-article"; "media"; "tweet"; "image"; "article"]
  ∧ (¬ CodeHost url → ¬ VideoHost url → SocialHost url →
     Contains url "/i/article/" → detectLinkType url = x_article).
Proof.
  split; [|split; [done|]].
  - intros t. split.
    + intros H. exact (Classified_functional _ _ _ (detectLinkType_Classified url) H).
    + intros <-. apply detectLinkType_Classified.
  - intros Hg Hv Hs Ha.
    apply (Classified_functional url); [apply detectLinkType_Classified|].
    by apply rule_social_article.
Qed.

Lemma not_includes (s sub : string) : Js.includes s sub = false → ¬ Contains s sub.
Proof. apply includes_false. Qed.

Lemma detectLinkType_ordered_rules_witness :
  detectLinkType "https://x.com/alice/status/123/i/article/456" = x_article.
Proof.
  apply (detectLinkType_ordered_rules "https://x.com/alice/status/123/i/article/456").
  - by apply not_includes.
  - intros [H|H]; revert H; by apply not_includes.
  - left. by apply includes_spec.
  - by apply includes_spec.
Defined.

(** C2, as the specification words it, does not hold: the rules do not read
    the domain, the path and the file name. A site whose domain merely ends
    in the letters of a social host is classified as a post; an article of
    the social host whose query names the code host is classified as a
    code-host link, so a social-host URL with '/i/article/' in its path is
    not always a social article; and an image file followed by a query is a
    generic article. *)
Theorem classification_reads_the_whole_url :
  (urlHost "https://netflix.com/title/80057281" = "netflix.com"
   ∧ classifyByParts "https://netflix.com/title/80057281" = article
   ∧ detectLinkType "https://netflix.com/title/80057281" = tweet)
  ∧ (urlHost "https://x.com/i/article/1?ref=github.com" = "x.com"
     ∧ urlPath "https://x.com/i/article/1?ref=github.com" = "/i/article/1"
     ∧ classifyByParts "https://x.com/i/article/1?ref=github.com" = x_article
     ∧ SocialHost "https://x.com/i/article/1?ref=github.com"
     ∧ Contains "https://x.com/i/article/1?ref=github.com" "/i/article/"
     ∧ detectLinkType "https://x.com/i/article/1?ref=github.com" = github)
  ∧ (urlFilename "https://example.com/image.png?size=large" = "image.png"
     ∧ classifyByParts "https://example.com/image.png?size=large" = image
     ∧ detectLinkType "https://example.com/image.png?size=large" = article).
Proof.
  split; [|split].
  - by vm_compute.
  - split; [by vm_compute|]. split; [by vm_compute|]. split; [by vm_compute|].
    split; [left; by apply includes_spec|].
    split; [by apply includes_spec|by vm_compute].
  - by vm_compute.
Qed.

(** On the URLs of the specification's own examples the two readings
    agree. *)
Example classification_of_plain_urls :
  (λ url, (detectLinkType url, classifyByParts url)) <$>
    ["https://github.com/user/repo";
     "https://www.youtube.com/watch?v=abc";
     "https://youtu.be/abc";
     "https://x.com/i/article/2012310917812502528";
     "https://x.com/alice/status/123/photo/1";
     "https://twitter.com/alice/status/123";
     "https://example.com/image.PNG";
     "https://example.com/post"]
  = [(github, github); (video, video); (video, video); (x_article, x_article);
     (media, media); (tweet, tweet); (image, image); (article, article)].
Proof. by vm_compute. Qed.

(** ** Effects *)

Lemma after_nil (st : St) : after st [] = st.
Proof. destruct st. unfold after. simpl. by rewrite app_nil_r. Qed.

Lemma after_after (st : St) (a b : list Event) :
  after (after st a) b = after st (a ++ b).
Proof. unfold after. simpl. by rewrite app_assoc. Qed.

Ltac munfold :=
  unfold bind, ret, throw, try_catch, call, readFS, writeFS in *.

Section Effects.

Variable w : World.

Lemma expandTcoLink_eq (url : string) (st : St) :
  expandTcoLink w url st =
    (inr (expansion w st url), after st [EvHead url]).
Proof.
  unfold expandTcoLink, expansion. munfold. by destruct (http_head w (trace st) url).
Qed.

Lemma fetchXArticleContent_invalid (articleId : string) (st : St) :
  isNumericId articleId = false →
  fetchXArticleContent w articleId st = (inr None, st).
Proof. intros H. unfold fetchXArticleContent. by rewrite H. Qed.

End Effects.

Lemma isDigit_spec (c : ascii) : Js.isDigit c = bool_decide (c ∈ DIGITS).
Proof. by destruct c as [[] [] [] [] [] [] [] []]. Qed.

Lemma isNumericId_spec (s : string) : isNumericId s = true ↔ DecimalDigits s.
Proof.
  unfold isNumericId, DecimalDigits, Js.truthy.
  rewrite andb_true_iff, negb_true_iff, String.eqb_neq.
  apply and_iff_compat_l.
  induction s as [|c s IH]; simpl.
  - split; [constructor | done].
  - rewrite andb_true_iff, IH, Forall_cons, isDigit_spec, bool_decide_eq_true. done.
Qed.

(** ** Link expansion *)

(** C8. When the redirect-following request fails, for whatever reason
    (network error, timeout, abort), the expander returns the URL it was
    given; when it succeeds it returns the final URL of the response.
    (A response without a URL also gives the original URL back.) *)
Theorem expandTcoLink_nonfatal (w : World) (url : string) (st : St) :
  (∀ msg, http_head w (trace st) url = inl msg →
          expandTcoLink w url st = (inr url, after st [EvHead url]))
  ∧ (∀ final, http_head w (trace st) url = inr final → final ≠ "" →
              expandTcoLink w url st = (inr final, after st [EvHead url]))
  ∧ (http_head w (trace st) url = inr "" →
     expandTcoLink w url st = (inr url, after st [EvHead url])).
Proof.
  rewrite expandTcoLink_eq. unfold expansion. repeat split.
  - by intros msg ->.
  - intros final -> Hne. unfold Js.truthy.
    apply String.eqb_neq in Hne. by rewrite Hne.
  - by intros ->.
Qed.

Lemma expandTcoLink_nonfatal_witness :
  expandTcoLink Sample.offline "https://t.co/abc1" (Sample.start Sample.emptyFS)
  = (inr "https://t.co/abc1",
     after (Sample.start Sample.emptyFS) [EvHead "https://t.co/abc1"])
  ∧ expandTcoLink (Sample.githubDown "https://github.com/foo/bar")
      "https://t.co/abc1" (Sample.start Sample.emptyFS)
    = (inr "https://github.com/foo/bar",
       after (Sample.start Sample.emptyFS) [EvHead "https://t.co/abc1"]).
Proof.
  split.
  - apply (expandTcoLink_nonfatal Sample.offline) with (msg := "fetch failed").
    reflexivity.
  - apply (expandTcoLink_nonfatal (Sample.githubDown "https://github.com/foo/bar")).
    + reflexivity.
    + discriminate.
Defined.

(** ** Which calls a computation makes, and whether it throws *)

Section Combinators.

Context {A B : Type} (P : Event → Prop).

Lemma Keeps_ret (a : A) : Keeps P (ret a).
Proof. intros st. exists []. by rewrite after_nil. Qed.

Lemma Keeps_throw (e : Exn) : Keeps P (throw e : M A).
Proof. intros st. exists []. by rewrite after_nil. Qed.

Lemma Keeps_readFS : Keeps P readFS.
Proof. intros st. exists []. by rewrite after_nil. Qed.

Lemma Keeps_call (ev : Event) (oracle : list Event → string + A) :
  P ev → Keeps P (call ev oracle).
Proof.
  intros Hev st. exists [ev]. unfold call.
  destruct (oracle (trace st)); simpl; auto.
Qed.

Lemma Keeps_bind (m : M A) (k : A → M B) :
  Keeps P m → (∀ a, Keeps P (k a)) → Keeps P (bind m k).
Proof.
  intros Hm Hk st. destruct (Hm st) as (evs & Hst & Hevs). unfold bind.
  destruct (m st) as [[e|a] st1]; simpl in Hst; subst st1.
  - by exists evs.
  - destruct (Hk a (after st evs)) as (evs' & Hst' & Hevs').
    exists (evs ++ evs'). rewrite Hst', after_after. split; [done|].
    by apply Forall_app.
Qed.

Lemma Keeps_try_catch (m : M A) (h : Exn → M A) :
  Keeps P m → (∀ e, Keeps P (h e)) → Keeps P (try_catch m h).
Proof.
  intros Hm Hh st. destruct (Hm st) as (evs & Hst & Hevs). unfold try_catch.
  destruct (m st) as [[e|a] st1]; simpl in Hst; subst st1.
  - destruct (Hh e (after st evs)) as (evs' & Hst' & Hevs').
    exists (evs ++ evs'). rewrite Hst', after_after. split; [done|].
    by apply Forall_app.
  - by exists evs.
Qed.

Lemma Returns_ret (a : A) : Returns (ret a).
Proof. intros st. by exists a. Qed.

Lemma Returns_bind (m : M A) (k : A → M B) :
  Returns m → (∀ a, Returns (k a)) → Returns (bind m k).
Proof.
  intros Hm Hk st. destruct (Hm st) as (a & Ha). unfold bind.
  destruct (m st) as [[e|a'] st1]; simpl in Ha; [done|]. apply Hk.
Qed.

Lemma Returns_try_catch (m : M A) (h : Exn → M A) :
  (∀ e, Returns (h e)) → Returns (try_catch m h).
Proof.
  intros Hh st. unfold try_catch.
  destruct (m st) as [[e|a] st1]; [apply Hh | by exists a].
Qed.

End Combinators.

Lemma Returns_readFS : Returns readFS.
Proof. intros st. by exists (fs st). Qed.

Lemma Keeps_weaken {A} (P Q : Event → Prop) (m : M A) :
  (∀ ev, P ev → Q ev) → Keeps P m → Keeps Q m.
Proof.
  intros HPQ Hm st. destruct (Hm st) as (evs & Hst & Hevs).
  exists evs. split; [done|]. eapply Forall_impl; eauto.
Qed.

(** Both facts about a run at once. *)
Lemma run_shape {A} (P : Event → Prop) (m : M A) (st : St) :
  Keeps P m → Returns m →
  ∃ a evs, m st = (inr a, after st evs) ∧ Forall P evs.
Proof.
  intros Hk Hr. destruct (Hk st) as (evs & Hst & Hevs), (Hr st) as (a & Ha).
  exists a, evs. split; [|done].
  destruct (m st) as [r st']. simpl in *. by subst.
Qed.

Create HintDb calls.

Ltac keeps_step :=
  first
    [ apply Keeps_ret | apply Keeps_throw | apply Keeps_readFS
    | apply Keeps_bind; [|intros ?] | apply Keeps_try_catch; [|intros ?]
    | apply Keeps_call; done
    | match goal with |- Keeps _ (match ?x with _ => _ end) => destruct x end
    | solve [auto with calls] ].

Ltac returns_step :=
  first
    [ apply Returns_ret | apply Returns_readFS
    | apply Returns_bind; [|intros ?] | apply Returns_try_catch; intros ?
    | match goal with |- Returns (match ?x with _ => _ end) => destruct x end
    | solve [auto with calls] ].

Section Calls.

Variable w : World.

Lemma expandTcoLink_Returns (url : string) : Returns (expandTcoLink w url).
Proof. unfold expandTcoLink. repeat returns_step. Qed.

Lemma expandTcoLink_Keeps (url : string) : Keeps (λ _, True) (expandTcoLink w url).
Proof. unfold expandTcoLink. repeat keeps_step. Qed.

Lemma fetchTweet_Returns (tweetId : string) : Returns (fetchTweet w tweetId).
Proof. unfold fetchTweet. repeat returns_step. Qed.

Lemma fetchTweet_Keeps (tweetId : string) : Keeps (λ _, True) (fetchTweet w tweetId).
Proof. unfold fetchTweet. repeat keeps_step. Qed.

Lemma fetchXArticleContent_Returns (articleId : string) :
  Returns (fetchXArticleContent w articleId).
Proof. unfold fetchXArticleContent. repeat returns_step. Qed.

Lemma fetchXArticleContent_Keeps (articleId : string) :
  Keeps (λ _, True) (fetchXArticleContent w articleId).
Proof. unfold fetchXArticleContent. repeat keeps_step. Qed.

Lemma fetchGitHubContent_Keeps (url : string) :
  Keeps (λ ev, isGitHubApiEvent ev = true) (fetchGitHubContent w url).
Proof. unfold fetchGitHubContent. repeat keeps_step. Qed.

Lemma fetchGitHubContent_Keeps_any (url : string) :
  Keeps (λ _, True) (fetchGitHubContent w url).
Proof. eapply Keeps_weaken; [|apply fetchGitHubContent_Keeps]. done. Qed.

Lemma fetchArticleWithSummarize_Keeps (url : string) :
  Keeps (λ _, True) (fetchArticleWithSummarize w url).
Proof. unfold fetchArticleWithSummarize. repeat keeps_step. Qed.

Hint Resolve expandTcoLink_Returns expandTcoLink_Keeps fetchTweet_Returns
  fetchTweet_Keeps fetchXArticleContent_Returns fetchXArticleContent_Keeps
  fetchGitHubContent_Keeps_any fetchArticleWithSummarize_Keeps : calls.

Lemma fetchArticleContent_Keeps (url : string) :
  Keeps (λ _, True) (fetchArticleContent w url).
Proof. unfold fetchArticleContent. repeat keeps_step. Qed.

Hint Resolve fetchArticleContent_Keeps : calls.

Lemma fetchContent_Keeps (url : string) (type : LinkType) :
  Keeps (λ _, True) (fetchContent w url type).
Proof. unfold fetchContent. repeat keeps_step. Qed.

Hint Resolve fetchContent_Keeps : calls.

Lemma processLink_Keeps (bookmark : Bookmark) (link : string) :
  Keeps (λ _, True) (processLink w bookmark link).
Proof. unfold processLink. repeat keeps_step. Qed.

Lemma processLink_Returns (bookmark : Bookmark) (link : string) :
  Returns (processLink w bookmark link).
Proof. unfold processLink. repeat returns_step. Qed.

Hint Resolve processLink_Keeps processLink_Returns : calls.

Lemma processLinks_Keeps (bookmark : Bookmark) (links : list string) :
  Keeps (λ _, True) (processLinks w bookmark links).
Proof. induction links as [|l links IH]; simpl; repeat keeps_step. Qed.

Lemma processLinks_Returns (bookmark : Bookmark) (links : list string) :
  Returns (processLinks w bookmark links).
Proof. induction links as [|l links IH]; simpl; repeat returns_step. Qed.

End Calls.

#[global] Hint Resolve expandTcoLink_Returns expandTcoLink_Keeps fetchTweet_Returns
  fetchTweet_Keeps fetchXArticleContent_Returns fetchXArticleContent_Keeps
  fetchGitHubContent_Keeps_any fetchArticleWithSummarize_Keeps
  fetchArticleContent_Keeps fetchContent_Keeps processLink_Keeps
  processLink_Returns processLinks_Keeps processLinks_Returns : calls.

(** ** Social articles *)

Section SocialArticle.

Variable w : World.

(** A link is always produced, with the kind of its expanded URL. *)
Lemma processLink_shape (bookmark : Bookmark) (link : string) (st : St) :
  ∃ c st',
    processLink w bookmark link st =
      (inr {| original := link;
              expanded := expansion w st link;
              type := detectLinkType (expansion w st link);
              content := c |}, st').
Proof.
  unfold processLink. unfold bind at 1. rewrite expandTcoLink_eq.
  set (e := expansion w st link).
  match goal with |- context [bind ?m _ _] =>
    assert (Returns m) as Hr by repeat returns_step;
    set (resolve := m) in *
  end.
  destruct (Hr (after st [EvHead link])) as (c & Hc). unfold bind.
  destruct (resolve (after st [EvHead link])) as [[x|c'] st2]; simpl in Hc; [done|].
  by exists c', st2.
Qed.

End SocialArticle.

Lemma fetchXArticleContent_eq (w : World) (articleId : string) (st : St) :
  isNumericId articleId = true →
  fetchXArticleContent w articleId st =
    (inr match bird_read w (trace st) articleId with
         | inr data =>
             Some {| xa_title := Js.orOpt (rt_article_title data) None;
                     xa_text := Js.orStr (rt_text data) "" |}
         | inl _ => None
         end,
     after st [EvBird (Read articleId)]).
Proof.
  intros Hn. unfold fetchXArticleContent. rewrite Hn. cbn [negb]. munfold.
  by destruct (bird_read w (trace st) articleId).
Qed.

(** C5. A link whose expanded URL is classified as a social article is
    resolved by one call of the read service, made with the identifier of the
    bookmark that contains the link and not with the article identifier found
    in the URL; the content of the link is the title and the text that call
    returns, and null when it fails. For an identifier that is not a
    non-empty string of decimal digits the read service is not called at all
    and the result is null. *)
Theorem x_article_lookup_by_bookmark_id (w : World) :
  (∀ bookmark link st,
     detectLinkType (expansion w st link) = x_article →
     processLink w bookmark link st =
       (inr {| original := link;
               expanded := expansion w st link;
               type := x_article;
               content :=
                 if isNumericId (bm_id bookmark) then
                   match bird_read w (trace st ++ [EvHead link]) (bm_id bookmark) with
                   | inr data =>
                       Some (XArticleContent
                               {| xa_title := Js.orOpt (rt_article_title data) None;
                                  xa_text := Js.orStr (rt_text data) "" |})
                   | inl _ => None
                   end
                 else None |},
        after st (EvHead link ::
                  if isNumericId (bm_id bookmark)
                  then [EvBird (Read (bm_id bookmark))] else []))
     ∧ ∀ articleId,
         extractXArticleId (expansion w st link) = Some articleId →
         articleId ≠ bm_id bookmark →
         EvBird (Read articleId) ∉
           (EvHead link ::
            if isNumericId (bm_id bookmark)
            then [EvBird (Read (bm_id bookmark))] else []))
  ∧ (∀ articleId, isNumericId articleId = true ↔ DecimalDigits articleId)
  ∧ (∀ articleId st,
       ¬ DecimalDigits articleId →
       fetchXArticleContent w articleId st = (inr None, st))
  ∧ (∀ articleId st,
       DecimalDigits articleId →
       fetchXArticleContent w articleId st =
         (inr match bird_read w (trace st) articleId with
              | inr data =>
                  Some {| xa_title := Js.orOpt (rt_article_title data) None;
                          xa_text := Js.orStr (rt_text data) "" |}
              | inl _ => None
              end,
          after st [EvBird (Read articleId)])).
Proof.
  split; [|split; [|split]].
  - intros bookmark link st Ht. split.
    + unfold processLink. unfold bind at 1. rewrite expandTcoLink_eq.
      fold (expansion w st link). rewrite Ht. unfold bind at 1.
      destruct (isNumericId (bm_id bookmark)) eqn:Hn.
      * unfold bind. rewrite (fetchXArticleContent_eq w _ _ Hn).
        unfold ret. rewrite after_after. simpl.
        by destruct (bird_read w (trace st ++ [EvHead link]) (bm_id bookmark)).
      * unfold bind.
        rewrite (fetchXArticleContent_invalid w _ (after st [EvHead link]) Hn).
        by unfold ret.
    + intros articleId _ Hne. rewrite elem_of_cons. intros [H|H]; [done|].
      destruct (isNumericId (bm_id bookmark)).
      * apply list_elem_of_singleton in H. congruence.
      * by apply elem_of_nil in H.
  - apply isNumericId_spec.
  - intros articleId st Hnd. apply fetchXArticleContent_invalid.
    destruct (isNumericId articleId) eqn:Hn; [|done].
    by apply isNumericId_spec in Hn.
  - intros articleId st Hd. apply fetchXArticleContent_eq. by apply isNumericId_spec.
Qed.

Lemma x_article_lookup_by_bookmark_id_witness :
  processLink (Sample.reading "https://x.com/i/article/999" Sample.articlePost)
    (Sample.bookmark "123" None "read https://t.co/abc") "https://t.co/abc"
    (Sample.start Sample.emptyFS)
  = (inr {| original := "https://t.co/abc";
            expanded := "https://x.com/i/article/999";
            type := x_article;
            content := Some (XArticleContent {| xa_title := Some "A long read";
                                                xa_text := "The text of the article" |}) |},
     after (Sample.start Sample.emptyFS)
       [EvHead "https://t.co/abc"; EvBird (Read "123")])
  ∧ (EvBird (Read "999") ∉ [EvHead "https://t.co/abc"; EvBird (Read "123")])
  ∧ fetchXArticleContent Sample.offline "123; rm -rf ~" (Sample.start Sample.emptyFS)
    = (inr None, Sample.start Sample.emptyFS).
Proof.
  split; [|split].
  - exact (proj1 (proj1 (x_article_lookup_by_bookmark_id
                           (Sample.reading "https://x.com/i/article/999"
                              Sample.articlePost))
                    (Sample.bookmark "123" None "read https://t.co/abc") "https://t.co/abc"
                    (Sample.start Sample.emptyFS) eq_refl)).
  - apply (proj2 (proj1 (x_article_lookup_by_bookmark_id
                           (Sample.reading "https://x.com/i/article/999"
                              Sample.articlePost))
                    (Sample.bookmark "123" None "read https://t.co/abc") "https://t.co/abc"
                    (Sample.start Sample.emptyFS) eq_refl) "999");
      [reflexivity|discriminate].
  - apply (x_article_lookup_by_bookmark_id Sample.offline).
    intros H. apply isNumericId_spec in H. discriminate H.
Defined.

(** ** Code-host links *)

Lemma github_api_failure_is_thrown (w : World) (url owner repo msg : string) (st : St) :
  extractGitHubInfo url = Some (owner, repo) →
  github_repo w (trace st) ("https://api.github.com/repos/" +:+ owner +:+ "/" +:+ repo)
    = inl msg →
  fetchGitHubContent w url st =
    (inl (Error msg),
     after st [EvGitHubApi ("https://api.github.com/repos/" +:+ owner +:+ "/" +:+ repo)]).
Proof.
  intros Hinfo Hapi. unfold fetchGitHubContent. rewrite Hinfo.
  unfold bind at 1. unfold call at 1. by rewrite Hapi.
Qed.

Lemma fetchContent_after_github_failure (w : World) (url : string) (st st1 : St) (e : Exn) :
  fetchGitHubContent w url st = (inl e, st1) →
  fetchContent w url github st =
    if isPaywalled url then (inr (FPaywalled url), st1)
    else fetchArticleContent w url st1.
Proof.
  intros Hgh. unfold fetchContent. unfold bind at 1.
  destruct (decide (github = github)) as [_|]; [|done].
  unfold try_catch, bind at 1. rewrite Hgh. unfold ret at 1.
  by destruct (isPaywalled url).
Qed.

(** C6, as the code has it. When the code-host API call fails,
    [fetchGitHubContent] throws the failure to [fetchContent]; [fetchContent]
    catches it and goes on as for a generic article: the paywalled marker if
    the URL names a paywalled domain, otherwise content extraction and then a
    direct fetch. In every case the pipeline produces the link. *)
Theorem github_failure_continues_as_article (w : World) (url : string) (st : St) :
  (∀ owner repo msg,
     extractGitHubInfo url = Some (owner, repo) →
     github_repo w (trace st)
       ("https://api.github.com/repos/" +:+ owner +:+ "/" +:+ repo) = inl msg →
     fetchGitHubContent w url st =
       (inl (Error msg),
        after st [EvGitHubApi
                    ("https://api.github.com/repos/" +:+ owner +:+ "/" +:+ repo)]))
  ∧ (∀ e st1,
       fetchGitHubContent w url st = (inl e, st1) →
       fetchContent w url github st =
         if isPaywalled url then (inr (FPaywalled url), st1)
         else fetchArticleContent w url st1)
  ∧ (∀ bookmark link, ∃ l st', processLink w bookmark link st = (inr l, st')).
Proof.
  split; [|split].
  - intros owner repo msg. apply github_api_failure_is_thrown.
  - intros e st1. apply fetchContent_after_github_failure.
  - intros bookmark link.
    destruct (processLink_shape w bookmark link st) as (c & st' & H). eauto.
Qed.

Lemma github_failure_continues_as_article_witness :
  fetchContent (Sample.githubDown "https://github.com/foo/bar")
    "https://github.com/foo/bar" github (Sample.start Sample.emptyFS)
  = fetchArticleContent (Sample.githubDown "https://github.com/foo/bar")
      "https://github.com/foo/bar"
      (after (Sample.start Sample.emptyFS)
         [EvGitHubApi "https://api.github.com/repos/foo/bar"]).
Proof.
  apply (github_failure_continues_as_article
           (Sample.githubDown "https://github.com/foo/bar")
           "https://github.com/foo/bar" (Sample.start Sample.emptyFS))
    with (e := Error "fetch failed").
  apply (github_failure_continues_as_article
           (Sample.githubDown "https://github.com/foo/bar")
           "https://github.com/foo/bar" (Sample.start Sample.emptyFS))
    with (owner := "foo") (repo := "bar"); reflexivity.
Defined.

(** C6 as worded fails: with the API down and the summarize CLI up, the
    content of a GitHub link is extracted by the summarize CLI. *)
Lemma github_failure_falls_back :
  let w := Sample.githubDown "https://github.com/foo/bar" in
  let st := Sample.start Sample.emptyFS in
  ¬ (∀ e st1,
       fetchGitHubContent w "https://github.com/foo/bar" st = (inl e, st1) →
       ∃ r st',
         fetchContent w "https://github.com/foo/bar" github st = (r, st') ∧
         Forall (λ ev, isFallbackEvent ev = false) (trace st')).
Proof.
  intros w st H.
  destruct (H (Error "fetch failed")
              (after st [EvGitHubApi "https://api.github.com/repos/foo/bar"])
              eq_refl) as (r & st' & Hrun & Hall).
  vm_compute in Hrun. injection Hrun as _ <-.
  rewrite Forall_forall in Hall.
  specialize (Hall (EvSummarize "https://github.com/foo/bar")).
  simpl in Hall. discriminate Hall. set_solver.
Qed.

Example github_failure_link_content :
  (processLink (Sample.githubDown "https://github.com/foo/bar")
     (Sample.bookmark "1" None "see https://t.co/abc1") "https://t.co/abc1"
     (Sample.start Sample.emptyFS)).1
  = inr {| original := "https://t.co/abc1";
           expanded := "https://github.com/foo/bar";
           type := github;
           content := Some (SummarizedContent (Some "README") None "A page of text") |}.
Proof. reflexivity. Qed.

(** ** Paywalled sites *)




(** ** Sorting *)

Lemma StronglySorted_lookup_lt {A} (R : A → A → Prop) (l : list A) (i j : nat) (a b : A) :
  StronglySorted R l → i < j → l !! i = Some a → l !! j = Some b → R a b.
Proof.
  intros Hs. revert i j. induction Hs as [|x l Hs IH Hx]; intros i j Hij Hi Hj.
  - done.
  - destruct j as [|j]; [lia|]. simpl in Hj. destruct i as [|i]; simpl in Hi.
    + injection Hi as ->. rewrite Forall_lookup in Hx. eauto.
    + apply (IH i j); [lia|done..].
Qed.

Section Sort.

Context {A : Type} (key : A → Z).

Lemma insert_Permutation (x : A) (l : list A) : Js.insert (byKey key) x l ≡ₚ x :: l.
Proof.
  induction l as [|y l IH]; simpl; [done|].
  destruct (byKey key x y <=? 0)%Z; [done|].
  rewrite IH. apply Permutation_swap.
Qed.

Lemma sort_Permutation (l : list A) : Js.sort (byKey key) l ≡ₚ l.
Proof.
  induction l as [|x l IH]; simpl; [done|].
  by rewrite insert_Permutation, IH.
Qed.

Lemma insert_sorted (x : A) (l : list A) :
  StronglySorted (λ a b, (key a ≤ key b)%Z) l →
  StronglySorted (λ a b, (key a ≤ key b)%Z) (Js.insert (byKey key) x l).
Proof.
  induction 1 as [|y l Hs IH Hy]; simpl.
  - repeat constructor.
  - unfold byKey at 1. destruct (Z.leb_spec (key x - key y) 0) as [Hle|Hgt].
    + constructor; [by constructor|]. constructor; [lia|].
      eapply Forall_impl; [exact Hy|]. simpl. intros; lia.
    + constructor; [done|]. rewrite insert_Permutation.
      constructor; [lia|done].
Qed.

Lemma sort_sorted (l : list A) :
  StronglySorted (λ a b, (key a ≤ key b)%Z) (Js.sort (byKey key) l).
Proof.
  induction l as [|x l IH]; simpl; [constructor|]. by apply insert_sorted.
Qed.

Lemma insert_filter (t : Z) (x : A) (l : list A) :
  filter (λ a, key a = t) (Js.insert (byKey key) x l) = filter (λ a, key a = t) (x :: l).
Proof.
  induction l as [|y l IH]; simpl; [done|].
  unfold byKey at 1. destruct (Z.leb_spec (key x - key y) 0) as [Hle|Hgt]; [done|].
  rewrite filter_cons, IH, !filter_cons.
  destruct (decide (key y = t)), (decide (key x = t)); try done. lia.
Qed.

Lemma sort_stable (t : Z) (l : list A) :
  filter (λ a, key a = t) (Js.sort (byKey key) l) = filter (λ a, key a = t) l.
Proof.
  induction l as [|x l IH]; simpl; [done|].
  by rewrite insert_filter, !filter_cons, IH.
Qed.

(** Two arrays in ascending order of the key that agree on the elements of
    every key, in order, are equal: the result of a stable sort does not
    depend on the algorithm. *)
Lemma sorted_stable_unique (l1 l2 : list A) :
  StronglySorted (λ a b, (key a ≤ key b)%Z) l1 →
  StronglySorted (λ a b, (key a ≤ key b)%Z) l2 →
  (∀ t, filter (λ a, key a = t) l1 = filter (λ a, key a = t) l2) →
  l1 = l2.
Proof.
  intros Hs1. revert l2. induction Hs1 as [|x l1 Hs1 IH Hx]; intros l2 Hs2 Heq.
  - destruct l2 as [|y l2]; [done|].
    specialize (Heq (key y)). by rewrite filter_cons_True in Heq.
  - destruct l2 as [|y l2].
    { specialize (Heq (key x)). by rewrite filter_cons_True in Heq. }
    apply StronglySorted_cons in Hs2 as [Hy Hs2].
    assert (key x = key y) as Hk.
    { destruct (decide (key x = key y)) as [|Hne]; [done|]. exfalso.
      assert (y ∈ l1) as Hy1.
      { pose proof (Heq (key y)) as H.
        rewrite (filter_cons_True _ y), filter_cons_False in H by done.
        assert (y ∈ filter (λ a, key a = key y) l1) as Hin by (rewrite H; left).
        by apply list_elem_of_filter in Hin as [_ ?]. }
      assert (x ∈ l2) as Hx2.
      { pose proof (Heq (key x)) as H.
        rewrite (filter_cons_True _ x), filter_cons_False in H by done.
        assert (x ∈ filter (λ a, key a = key x) l2) as Hin by (rewrite <- H; left).
        by apply list_elem_of_filter in Hin as [_ ?]. }
      rewrite Forall_forall in Hx, Hy.
      specialize (Hx y Hy1). specialize (Hy x Hx2). simpl in *. lia. }
    pose proof (Heq (key x)) as H.
    rewrite (filter_cons_True _ x), filter_cons_True in H by done.
    injection H as -> Htl. f_equal. apply IH; [done|].
    intros t. destruct (decide (key y = t)) as [<-|Hne]; [done|].
    specialize (Heq t). by rewrite !filter_cons_False in Heq.
Qed.

(** Hence any stable sort by the key returns what [Js.sort] returns. *)
Lemma sort_is_the_stable_sort (l sorted : list A) :
  StronglySorted (λ a b, (key a ≤ key b)%Z) sorted →
  (∀ t, filter (λ a, key a = t) sorted = filter (λ a, key a = t) l) →
  sorted = Js.sort (byKey key) l.
Proof.
  intros Hs Hst. apply sorted_stable_unique; [done|apply sort_sorted|].
  intros t. by rewrite Hst, sort_stable.
Qed.

End Sort.

Lemma insert_Permutation_cmp {A} (cmp : A → A → Z) (x : A) (l : list A) :
  Js.insert cmp x l ≡ₚ x :: l.
Proof.
  induction l as [|y l IH]; simpl; [done|].
  destruct (cmp x y <=? 0)%Z; [done|].
  rewrite IH. apply Permutation_swap.
Qed.

Lemma sort_Permutation_cmp {A} (cmp : A → A → Z) (l : list A) : Js.sort cmp l ≡ₚ l.
Proof.
  induction l as [|x l IH]; simpl; [done|].
  by rewrite insert_Permutation_cmp, IH.
Qed.

Lemma insert_ext {A} (cmp cmp' : A → A → Z) (x : A) (l : list A) :
  (∀ y, y ∈ l → cmp x y = cmp' x y) → Js.insert cmp x l = Js.insert cmp' x l.
Proof.
  induction l as [|y l IH]; intros Heq; simpl; [done|].
  rewrite (Heq y) by left. destruct (cmp' x y <=? 0)%Z; [done|].
  f_equal. apply IH. intros z Hz. apply Heq. by right.
Qed.

(** The sort depends on the comparator only through its answers for the
    elements of the array. *)
Lemma sort_ext {A} (cmp cmp' : A → A → Z) (l : list A) :
  (∀ x y, x ∈ l → y ∈ l → cmp x y = cmp' x y) → Js.sort cmp l = Js.sort cmp' l.
Proof.
  induction l as [|x l IH]; intros Heq; simpl; [done|].
  rewrite IH by (intros y z Hy Hz; apply Heq; by right).
  apply insert_ext. intros y Hy. apply Heq; [by left|].
  right. by rewrite sort_Permutation_cmp in Hy.
Qed.

Lemma filter_ext_in {A} (P Q : A → Prop) `{∀ x, Decision (P x)} `{∀ x, Decision (Q x)}
    (l : list A) :
  (∀ a, a ∈ l → P a ↔ Q a) → filter P l = filter Q l.
Proof.
  induction l as [|x l IH]; intros Hl; [done|].
  rewrite !filter_cons, IH by (intros a Ha; apply Hl; by right).
  destruct (decide (P x)) as [HP|HP], (decide (Q x)) as [HQ|HQ]; try done;
    exfalso; apply (Hl x) in HP || apply (Hl x) in HQ; try done; by left.
Qed.

(** ** The merge step *)

Section Merge.

Variable w : World.

(** The time of the code is the timestamp of the specification. *)
Lemma createdAtTime_timestamp (a : Prepared) : createdAtTime w a = timestamp w a.
Proof.
  unfold createdAtTime, timestamp. destruct (p_createdAt a) as [[|c date]|]; done.
Qed.

Lemma sortByCreatedAt_Permutation (l : list Prepared) : sortByCreatedAt w l ≡ₚ l.
Proof.
  unfold sortByCreatedAt. destruct (forallb _ l).
  - apply sort_Permutation_cmp.
  - apply (proj2_sig (engine_sort w l)).
Qed.

(** When every record has a time, the sort is the stable sort by the time. *)
Lemma sortByCreatedAt_consistent (l : list Prepared) :
  Forall (λ a, is_Some (timestamp w a)) l →
  sortByCreatedAt w l = Js.sort (byKey (λ a, default 0%Z (timestamp w a))) l.
Proof.
  intros Hl. unfold sortByCreatedAt.
  assert (forallb (λ a, bool_decide (is_Some (createdAtTime w a))) l = true) as ->.
  { apply forallb_forall. intros a Ha%list_elem_of_In. apply bool_decide_eq_true.
    rewrite createdAtTime_timestamp. by apply (proj1 (Forall_forall _ _) Hl). }
  apply sort_ext. intros x y Hx Hy. unfold byCreatedAt, byKey.
  rewrite !createdAtTime_timestamp.
  destruct (proj1 (Forall_forall _ _) Hl x Hx) as [tx ->].
  by destruct (proj1 (Forall_forall _ _) Hl y Hy) as [ty ->].
Qed.

(** The new records the merge step appends. *)
Lemma mergePending_eq (existing prepared : list Prepared) :
  mergePending w existing prepared =
    sortByCreatedAt w (existing ++ filter (λ b, p_id b ∉ p_id <$> existing) prepared).
Proof.
  unfold mergePending. f_equal. f_equal.
  apply list_filter_iff. intros b. by rewrite elem_of_list_to_set.
Qed.

Lemma mergePending_Permutation (existing prepared : list Prepared) :
  mergePending w existing prepared
    ≡ₚ existing ++ filter (λ b, p_id b ∉ p_id <$> existing) prepared.
Proof. rewrite mergePending_eq. apply sortByCreatedAt_Permutation. Qed.

Lemma mergePending_consistent (existing prepared : list Prepared) :
  Forall (λ a, is_Some (timestamp w a)) (existing ++ prepared) →
  mergePending w existing prepared =
    Js.sort (byKey (λ a, default 0%Z (timestamp w a)))
      (existing ++ filter (λ b, p_id b ∉ p_id <$> existing) prepared).
Proof.
  intros Hall. rewrite mergePending_eq. apply sortByCreatedAt_consistent.
  apply Forall_app in Hall as [He Hp]. apply Forall_app. split; [done|].
  apply Forall_forall. intros a Ha%list_elem_of_filter.
  by apply (proj1 (Forall_forall _ _) Hp), Ha.
Qed.

End Merge.

Lemma filter_none {A} (P : A → Prop) `{∀ x, Decision (P x)} (l : list A) :
  (∀ x, x ∈ l → ¬ P x) → filter P l = [].
Proof.
  induction l as [|x l IH]; intros Hl; [done|].
  rewrite filter_cons_False by (apply Hl; left).
  apply IH. intros y Hy. apply Hl. by right.
Qed.

Lemma NoDup_fmap_filter {A B} (f : A → B) (P : A → Prop) `{∀ x, Decision (P x)}
    (l : list A) :
  NoDup (f <$> l) → NoDup (f <$> filter P l).
Proof.
  induction l as [|x l IH]; simpl; [done|].
  rewrite NoDup_cons. intros [Hx Hl]. rewrite filter_cons.
  destruct (decide (P x)); [|auto].
  rewrite fmap_cons, NoDup_cons. split; [|auto].
  intros Hin. apply Hx. apply list_elem_of_fmap in Hin as (y & -> & Hy).
  apply list_elem_of_filter in Hy as [_ Hy]. by apply list_elem_of_fmap_2.
Qed.

(** C3, as the code has it. A new record whose identifier already appears in
    the existing queue is not appended and the existing entries with that
    identifier are kept; the merged queue is the existing queue together with
    the new records whose identifier is not in it. It has no two entries with
    the same identifier when neither the existing queue nor the batch of new
    records has. *)
Theorem merge_keeps_identifiers_unique (w : World) (existing prepared : list Prepared) :
  (NoDup (p_id <$> existing) → NoDup (p_id <$> prepared) →
   NoDup (p_id <$> mergePending w existing prepared))
  ∧ mergePending w existing prepared
      ≡ₚ existing ++ filter (λ b, p_id b ∉ p_id <$> existing) prepared
  ∧ (∀ i, i ∈ p_id <$> existing →
          filter (λ b, p_id b = i) (mergePending w existing prepared)
            ≡ₚ filter (λ b, p_id b = i) existing).
Proof.
  split; [|split].
  - intros He Hp. rewrite mergePending_Permutation, fmap_app.
    apply NoDup_app. split; [done|]. split; [|by apply NoDup_fmap_filter].
    intros i Hi Hin. apply list_elem_of_fmap in Hin as (b & -> & Hb).
    apply list_elem_of_filter in Hb as [Hb _]. done.
  - apply mergePending_Permutation.
  - intros i Hi. rewrite mergePending_Permutation, filter_app.
    rewrite (filter_none _ (filter _ prepared)); [by rewrite app_nil_r|].
    intros b Hb Hid.
    apply list_elem_of_filter in Hb as [Hb _]. congruence.
Qed.

Lemma merge_keeps_identifiers_unique_witness :
  NoDup (p_id <$> mergePending Sample.offline
                    [Sample.prepared "1" (Some Sample.t1)]
                    [Sample.prepared "1" (Some Sample.t1);
                     Sample.prepared "2" (Some Sample.t0)]).
Proof.
  apply (merge_keeps_identifiers_unique Sample.offline).
  - apply (bool_decide_unpack _). by vm_compute.
  - apply (bool_decide_unpack _). by vm_compute.
Defined.

Example merge_scenario :
  p_id <$> mergePending Sample.offline
             [Sample.prepared "1" (Some Sample.t1)]
             [Sample.prepared "1" (Some Sample.t1);
              Sample.prepared "2" (Some Sample.t0)]
  = ["2"; "1"].
Proof. by vm_compute. Qed.

(** C3 as worded fails: a batch that holds the same identifier twice, none of
    them in the existing queue, puts it twice in the merged queue. *)
Lemma merge_repeats_identifier_of_batch :
  ¬ NoDup (p_id <$> mergePending Sample.offline []
                      [Sample.prepared "1" (Some Sample.t1);
                       Sample.prepared "1" (Some Sample.t1)]).
Proof. apply (bool_decide_unpack _). by vm_compute. Qed.

(** C4, as the code has it. When the creation date of every record denotes
    a time, the merged queue is in ascending order of creation timestamp: of
    two neighbours the first has a timestamp at most that of the second. A
    record without creation date, or with an empty one, has timestamp 0 and
    so comes before every record with a time after the epoch; records of
    equal timestamp keep the order they had in the existing queue followed
    by the new records. *)
Theorem merge_sorted_by_createdAt (w : World) (existing prepared : list Prepared) :
  Forall (λ a, is_Some (timestamp w a)) (existing ++ prepared) →
  AscendingByTimestamp w (mergePending w existing prepared)
  ∧ (∀ a, p_createdAt a = None ∨ p_createdAt a = Some "" → timestamp w a = Some 0%Z)
  ∧ (∀ i j a b tb,
       mergePending w existing prepared !! i = Some a →
       mergePending w existing prepared !! j = Some b →
       p_createdAt a = None ∨ p_createdAt a = Some "" →
       timestamp w b = Some tb → (0 < tb)%Z → i < j)
  ∧ (∀ t,
       filter (λ a, timestamp w a = Some t) (mergePending w existing prepared)
       = filter (λ a, timestamp w a = Some t)
           (existing ++ filter (λ b, p_id b ∉ p_id <$> existing) prepared)).
Proof.
  intros Hall.
  set (key := λ a, default 0%Z (timestamp w a)).
  set (merged := existing ++ filter (λ b, p_id b ∉ p_id <$> existing) prepared).
  pose proof (mergePending_consistent w existing prepared Hall) as Heq.
  fold key merged in Heq.
  assert (Forall (λ a, is_Some (timestamp w a)) merged) as Hmerged.
  { apply Forall_app in Hall as [He Hp]. apply Forall_app. split; [done|].
    apply Forall_forall. intros a Ha%list_elem_of_filter.
    by apply (proj1 (Forall_forall _ _) Hp), Ha. }
  assert (∀ a, a ∈ mergePending w existing prepared →
               ∃ t, timestamp w a = Some t ∧ key a = t) as Htime.
  { intros a Ha. rewrite mergePending_Permutation in Ha.
    destruct (proj1 (Forall_forall _ _) Hmerged a Ha) as [t Ht].
    exists t. unfold key. by rewrite Ht. }
  assert (∀ a t, timestamp w a = Some t → key a = t) as Hkey
    by (intros a t Ht; unfold key; by rewrite Ht).
  pose proof (sort_sorted key merged) as Hs. rewrite <- Heq in Hs.
  assert (∀ a, p_createdAt a = None ∨ p_createdAt a = Some "" →
               timestamp w a = Some 0%Z) as Hlack.
  { intros a [Ha|Ha]; unfold timestamp; by rewrite Ha. }
  split; [|split; [done|split]].
  - intros i a b Ha Hb.
    destruct (Htime a (list_elem_of_lookup_2 _ _ _ Ha)) as (ta & Hta & Hka).
    destruct (Htime b (list_elem_of_lookup_2 _ _ _ Hb)) as (tb & Htb & Hkb).
    exists ta, tb. split; [done|]. split; [done|].
    pose proof (StronglySorted_lookup_lt _ _ i (S i) a b Hs (Nat.lt_succ_diag_r i) Ha Hb)
      as Hle.
    simpl in Hle. lia.
  - intros i j a b tb Ha Hb Hnone Htb Hpos.
    pose proof (Hkey a 0%Z (Hlack a Hnone)) as H0.
    pose proof (Hkey b tb Htb) as Hkb.
    destruct (decide (i < j)) as [|Hge]; [done|]. exfalso.
    destruct (decide (i = j)) as [->|Hne].
    + rewrite Ha in Hb. injection Hb as ->. lia.
    + assert (j < i) as Hlt by lia.
      pose proof (StronglySorted_lookup_lt _ _ j i b a Hs Hlt Hb Ha) as Hle.
      simpl in Hle. lia.
  - intros t. rewrite Heq.
    assert (∀ l, Forall (λ a, is_Some (timestamp w a)) l →
                 filter (λ a, timestamp w a = Some t) l = filter (λ a, key a = t) l)
      as Hfilter.
    { intros l Hl. apply filter_ext_in. intros a Ha.
      destruct (proj1 (Forall_forall _ _) Hl a Ha) as [ta Hta].
      rewrite Hta. unfold key. rewrite Hta. simpl. split; [by intros [= ->]|by intros ->]. }
    rewrite !Hfilter; [apply sort_stable|done|].
    apply Forall_forall. intros a Ha. rewrite sort_Permutation in Ha.
    by apply (proj1 (Forall_forall _ _) Hmerged).
Qed.

Lemma merge_sorted_by_createdAt_witness :
  AscendingByTimestamp Sample.offline
    (mergePending Sample.offline
       [Sample.prepared "1" (Some Sample.t1)]
       [Sample.prepared "2" (Some Sample.t0); Sample.prepared "3" None]).
Proof.
  apply (merge_sorted_by_createdAt Sample.offline
           [Sample.prepared "1" (Some Sample.t1)]
           [Sample.prepared "2" (Some Sample.t0); Sample.prepared "3" None]).
  repeat (apply Forall_cons; split; [by eexists|]). apply Forall_nil_2.
Defined.

(** The queue of the witness: the record without date first, then the older
    one, then the one that was in the queue. *)
Example merge_sorted_scenario :
  p_id <$> mergePending Sample.offline
             [Sample.prepared "1" (Some Sample.t1)]
             [Sample.prepared "2" (Some Sample.t0); Sample.prepared "3" None]
  = ["3"; "2"; "1"].
Proof. by vm_compute. Qed.

(** C4 as worded fails: a creation date that denotes no time makes the
    comparator answer NaN, and the queue the run writes is not in ascending
    order. Here the queue holds a record of 2024, the batch brings a record
    with the date 'soon' and a record of 2023, and the record of 2024 stays
    before the one of 2023. *)
Lemma unparsable_date_breaks_the_order :
  let w := Sample.listing [Sample.bookmark "2" (Some "soon") "n";
                           Sample.bookmark "3" (Some Sample.t0) "y"] in
  let f :=
    {| archiveFile := None;
       pendingFile :=
         Parsed {| pd_generatedAt := None; pd_count := Some 1;
                   pd_bookmarks := Some (Some [Sample.prepared "1" (Some Sample.t1)]) |};
       stateFile := Absent |} in
  let run := fetchAndPrepareBookmarks w Sample.noConfig Sample.noOptions (Sample.start f) in
  ∃ x n y,
    pendingFile (fs run.2)
      = Parsed {| pd_generatedAt := Some (now_iso w); pd_count := Some 3;
                  pd_bookmarks := Some (Some [x; n; y]) |}
    ∧ p_id <$> [x; n; y] = ["1"; "2"; "3"]
    ∧ timestamp w x = Some 1704067200000%Z
    ∧ timestamp w n = None
    ∧ timestamp w y = Some 1672531200000%Z
    ∧ ¬ AscendingByTimestamp w [x; n; y].
Proof.
  intros w f run. eexists _, _, _. split; [by vm_compute|].
  split; [done|]. split; [done|]. split; [done|]. split; [done|].
  intros Hasc. destruct (Hasc 0 _ _ eq_refl eq_refl) as (ta & tb & _ & Htb & _).
  discriminate Htb.
Qed.

(** ** The run *)

Section Run.

Variable w : World.

Lemma fetchBookmarks_Keeps (count : nat) (options : FetchOptions) :
  Keeps (λ _, True) (fetchBookmarks w count options).
Proof. unfold fetchBookmarks. repeat keeps_step. Qed.

Lemma fetchLikes_Keeps (count : nat) : Keeps (λ _, True) (fetchLikes w count).
Proof. unfold fetchLikes. repeat keeps_step. Qed.

Hint Resolve fetchBookmarks_Keeps fetchLikes_Keeps : calls.

Lemma fetchFromSource_Keeps (config : Config) (count : nat) (options : FetchOptions) :
  Keeps (λ _, True) (fetchFromSource w config count options).
Proof. unfold fetchFromSource. repeat keeps_step. Qed.

Lemma foldersLoop_Keeps folders count options acc :
  Keeps (λ _, True) (foldersLoop w folders count options acc).
Proof.
  revert acc. induction folders as [|[folderId folderTag] folders IH]; intros acc;
    simpl; repeat keeps_step.
Qed.

Lemma foldersLoop_Returns folders count options acc :
  Returns (foldersLoop w folders count options acc).
Proof.
  revert acc. induction folders as [|[folderId folderTag] folders IH]; intros acc;
    simpl; repeat returns_step.
Qed.

Hint Resolve foldersLoop_Keeps foldersLoop_Returns : calls.

Lemma fetchFromFolders_Keeps (config : Config) (count : nat) (options : FetchOptions) :
  Keeps (λ _, True) (fetchFromFolders w config count options).
Proof. unfold fetchFromFolders. repeat keeps_step. Qed.

Lemma fetchFromFolders_Returns (config : Config) (count : nat) (options : FetchOptions) :
  Returns (fetchFromFolders w config count options).
Proof. unfold fetchFromFolders. repeat returns_step. Qed.

Lemma loadState_eq (st : St) : loadState st = (inr (loadedState (fs st)), st).
Proof. unfold loadState, loadedState. munfold. by destruct (stateFile (fs st)). Qed.

Lemma fetchBookmarks_fails (count : nat) (options : FetchOptions) (st : St) (msg : string) :
  bird_list w (trace st) (bookmarksCmd count options) = inl msg →
  fetchBookmarks w count options st =
    (inl (Error ("Failed to fetch bookmarks: " +:+ msg)),
     after st [EvBird (bookmarksCmd count options)]).
Proof. intros H. unfold fetchBookmarks. munfold. by rewrite H. Qed.

(** A bookmark is always prepared, whatever its links do. *)
Lemma prepareBookmark_spec (includeMedia : bool) (bookmark : Bookmark) (st : St) :
  ∃ p evs,
    prepareBookmark w includeMedia bookmark st = (inr p, after st evs)
    ∧ p_id p = bm_id bookmark
    ∧ p_createdAt p = bm_createdAt bookmark
    ∧ p_media p = if includeMedia then default [] (bm_media bookmark) else [].
Proof.
  unfold prepareBookmark.
  match goal with |- context [processLinks w bookmark ?ls] =>
    destruct (run_shape (λ _, True) (processLinks w bookmark ls) st)
      as (links & evs & Hrun & _); [auto with calls..|]
  end.
  unfold bind at 1. rewrite Hrun.
  match goal with |- context [bind ?m _ (after st evs)] =>
    assert (Keeps (λ _, True) m) as Hk by repeat keeps_step;
    assert (Returns m) as Hr by repeat returns_step;
    set (reply := m) in *
  end.
  destruct (run_shape _ reply (after st evs) Hk Hr) as (rc & evs2 & Hrun2 & _).
  unfold bind. rewrite Hrun2. unfold ret. rewrite after_after.
  eexists _, _. split; [done|]. done.
Qed.

Lemma prepareAll_spec (includeMedia : bool) (toProcess : list Bookmark) (st : St) :
  ∃ prepared evs,
    prepareAll w includeMedia toProcess st = (inr prepared, after st evs)
    ∧ Forall2 (λ b p,
                 p_id p = bm_id b
                 ∧ p_createdAt p = bm_createdAt b
                 ∧ p_media p = if includeMedia then default [] (bm_media b) else [])
        toProcess prepared.
Proof.
  revert st. induction toProcess as [|b bs IH]; intros st; simpl.
  - exists [], []. rewrite after_nil. by split.
  - destruct (prepareBookmark_spec includeMedia b st) as (p & evs & Hrun & Hp).
    unfold bind at 1, try_catch, bind at 1. rewrite Hrun. unfold ret at 1.
    destruct (IH (after st evs)) as (ps & evs' & Hrun' & Hps).
    unfold bind. rewrite Hrun'. unfold ret. rewrite after_after.
    exists (p :: ps), (evs ++ evs'). split; [done|]. by constructor.
Qed.

Lemma selectToProcess_nil (options : Options) (existingIds pendingIds : gset string) :
  selectToProcess options existingIds pendingIds [] = [].
Proof.
  unfold selectToProcess.
  by destruct (opt_specificIds options), (opt_force options).
Qed.

(** The two ways a run ends without throwing. *)
Lemma run_returns (config : Config) (options : Options) (st st' : St) (r : RunResult) :
  fetchAndPrepareBookmarks w config options st = (inr r, st') →
  (r = nothingToDo ∧ fs st' = fs st
   ∧ ∃ tweets st1,
       (if fromFolders config options
        then fetchFromFolders w (configWithOptions config options)
               (countOf options) (fetchOptionsOf options)
        else fetchFromSource w (configWithOptions config options)
               (countOf options) (fetchOptionsOf options)) st = (inr tweets, st1)
       ∧ selectToProcess options (archiveIndex (fs st)) (pendingIdsOf (fs st)) tweets
         = [])
  ∨ ∃ tweets st1 prepared evs existing,
      (if fromFolders config options
       then fetchFromFolders w (configWithOptions config options)
              (countOf options) (fetchOptionsOf options)
       else fetchFromSource w (configWithOptions config options)
              (countOf options) (fetchOptionsOf options)) st = (inr tweets, st1)
      ∧ fs st1 = fs st
      ∧ prepareAll w (includeMediaOf config options)
          (selectToProcess options (archiveIndex (fs st)) (pendingIdsOf (fs st)) tweets)
          st1 = (inr prepared, after st1 evs)
      ∧ existingPendingBookmarks (fs st) = inr existing
      ∧ r_bookmarks r = prepared
      ∧ pendingFile (fs st') =
          Parsed {| pd_generatedAt := Some (now_iso w);
                    pd_count := Some (length (mergePending w existing prepared));
                    pd_bookmarks := Some (Some (mergePending w existing prepared)) |}.
Proof.
  unfold fetchAndPrepareBookmarks. unfold bind at 1. rewrite loadState_eq.
  unfold bind at 1.
  match goal with |- context [(if fromFolders config options then ?a else ?b) st] =>
    assert (Keeps (λ _, True) (if fromFolders config options then a else b)) as Hk
      by (destruct (fromFolders config options);
          [apply fetchFromFolders_Keeps | apply fetchFromSource_Keeps]);
    set (fetch := if fromFolders config options then a else b) in *
  end.
  destruct (Hk st) as (evs0 & Hst1 & _).
  destruct (fetch st) as [[e|tweets] st1] eqn:Hfetch; [done|].
  simpl in Hst1. subst st1.
  destruct tweets as [|t tweets].
  { unfold ret. intros [= <- <-]. left. split; [done|]. split; [done|].
    exists [], (after st evs0). split; [done|]. apply selectToProcess_nil. }
  unfold bind at 1, getExistingBookmarkIds, bind at 1, readFS at 1, ret at 1.
  unfold bind at 1, readFS at 1.
  change (fs (after st evs0)) with (fs st).
  destruct (selectToProcess options _ _ (t :: tweets)) as [|b toProcess] eqn:Hsel.
  { unfold ret. intros [= <- <-]. left. split; [done|]. split; [done|].
    by exists (t :: tweets), (after st evs0). }
  destruct (prepareAll_spec (includeMediaOf config options) (b :: toProcess)
              (after st evs0)) as (prepared & evs & Hprep & _).
  unfold bind at 1. rewrite Hprep.
  unfold bind at 1, readFS at 1.
  change (fs (after (after st evs0) evs)) with (fs st).
  destruct (existingPendingBookmarks (fs st)) as [e|existing] eqn:Hex; [done|].
  unfold bind at 1, writeFS at 1.
  destruct (setLastCheck w (loadedState (fs st))) as [e|state']; [done|].
  unfold bind, writeFS, saveState, writeFS, ret. simpl.
  intros [= <- <-]. right.
  exists (t :: tweets), (after st evs0), prepared, evs, existing.
  rewrite Hsel. by repeat split.
Qed.

End Run.

(** ** Media *)

(** C9. The media list of a prepared bookmark is the media of the raw record
    when the media flag is enabled, and empty when it is not, whatever the raw
    record holds; the flag is the caller's option if given, else the
    configured one, else off; and with the flag off every bookmark a run
    returns has an empty media list. *)
Theorem media_only_when_enabled (w : World) :
  (∀ includeMedia bookmark st,
     ∃ p st',
       prepareBookmark w includeMedia bookmark st = (inr p, st')
       ∧ p_id p = bm_id bookmark
       ∧ p_media p = if includeMedia then default [] (bm_media bookmark) else [])
  ∧ (∀ config options,
       includeMediaOf config options =
         match opt_includeMedia options, cfg_includeMedia config with
         | Some flag, _ => flag
         | None, Some flag => flag
         | None, None => false
         end)
  ∧ (∀ config options st r st',
       fetchAndPrepareBookmarks w config options st = (inr r, st') →
       includeMediaOf config options = false →
       ∀ p, p ∈ r_bookmarks r → p_media p = []).
Proof.
  split; [|split].
  - intros includeMedia bookmark st.
    destruct (prepareBookmark_spec w includeMedia bookmark st)
      as (p & evs & Hrun & Hid & _ & Hmedia).
    by exists p, (after st evs).
  - intros config options. unfold includeMediaOf.
    by destruct (opt_includeMedia options), (cfg_includeMedia config).
  - intros config options st r st' Hrun Hflag p Hp.
    apply run_returns in Hrun
      as [(-> & _) | (tweets & st1 & prepared & evs & existing & _ & _ & Hprep & _ & Hr & _)].
    { by apply elem_of_nil in Hp. }
    rewrite Hr in Hp.
    destruct (prepareAll_spec w (includeMediaOf config options)
                (selectToProcess options (archiveIndex (fs st)) (pendingIdsOf (fs st))
                   tweets) st1) as (prepared' & evs' & Hprep' & Hall).
    rewrite Hprep in Hprep'. injection Hprep' as <- _.
    rewrite Hflag in Hall.
    apply list_elem_of_lookup in Hp as [i Hi].
    destruct (Forall2_lookup_r _ _ _ _ _ Hall Hi) as (b & _ & _ & _ & Hm). done.
Qed.

Lemma media_only_when_enabled_witness :
  match (fetchAndPrepareBookmarks
           (Sample.listing [Sample.bookmark "1" (Some Sample.t1) ""])
           Sample.noConfig Sample.noOptions (Sample.start Sample.emptyFS)).1 with
  | inr r => ∀ p, p ∈ r_bookmarks r → p_media p = []
  | inl _ => False
  end.
Proof.
  destruct (fetchAndPrepareBookmarks
              (Sample.listing [Sample.bookmark "1" (Some Sample.t1) ""])
              Sample.noConfig Sample.noOptions (Sample.start Sample.emptyFS))
    as [[e|r] st'] eqn:Hrun; simpl.
  - vm_compute in Hrun. discriminate Hrun.
  - apply (proj2 (proj2 (media_only_when_enabled
                           (Sample.listing [Sample.bookmark "1" (Some Sample.t1) ""])))
             Sample.noConfig Sample.noOptions (Sample.start Sample.emptyFS) r st' Hrun).
    reflexivity.
Defined.

(** ** Which items are processed *)

Lemma filter_True {A} (P : A → Prop) `{∀ x, Decision (P x)} (l : list A) :
  (∀ x, P x) → filter P l = l.
Proof.
  intros HP. induction l as [|x l IH]; [done|].
  rewrite filter_cons_True by done. by rewrite IH.
Qed.

Lemma selectToProcess_Selected (options : Options) (existingIds pendingIds : gset string)
    (tweets : list Bookmark) :
  selectToProcess options existingIds pendingIds tweets
    = filter (Selected options existingIds pendingIds) tweets.
Proof.
  unfold selectToProcess.
  destruct (opt_specificIds options) as [ids|] eqn:Hs.
  - apply list_filter_iff. intros b. unfold Selected. by rewrite Hs.
  - destruct (opt_force options) eqn:Hf.
    + symmetry. apply filter_True. intros b. unfold Selected. rewrite Hs. by left.
    + apply list_filter_iff. intros b. unfold Selected. rewrite Hs.
      split; [intros ?; by right | intros [?|?]; [congruence|done]].
Qed.

(** C1, as the code has it: the order is allow-list, then forced mode, then
    standard exclusion. When an allow-list is supplied exactly the fetched items
    whose identifier is in it are processed, forced or not; otherwise in
    forced mode every fetched item is processed; otherwise an item is
    processed iff its identifier is in neither the archive index nor the
    pending queue. The items keep their order, and the bookmarks a run
    returns are those of the items selected from what it fetched. *)
Theorem selection_policy (options : Options) (existingIds pendingIds : gset string)
    (tweets : list Bookmark) :
  selectToProcess options existingIds pendingIds tweets
    = filter (Selected options existingIds pendingIds) tweets
  ∧ (∀ specificIds,
       opt_specificIds options = Some specificIds →
       selectToProcess options existingIds pendingIds tweets
         = filter (λ b, bm_id b ∈ specificIds) tweets)
  ∧ (opt_specificIds options = None → opt_force options = true →
     selectToProcess options existingIds pendingIds tweets = tweets)
  ∧ (opt_specificIds options = None → opt_force options = false →
     ∀ b, b ∈ selectToProcess options existingIds pendingIds tweets
          ↔ (b ∈ tweets) ∧ (bm_id b ∉ existingIds) ∧ (bm_id b ∉ pendingIds))
  ∧ (∀ w config st r st',
       fetchAndPrepareBookmarks w config options st = (inr r, st') →
       ∃ fetched st1,
         (if fromFolders config options
          then fetchFromFolders w (configWithOptions config options)
                 (countOf options) (fetchOptionsOf options)
          else fetchFromSource w (configWithOptions config options)
                 (countOf options) (fetchOptionsOf options)) st = (inr fetched, st1)
         ∧ p_id <$> r_bookmarks r
           = bm_id <$> filter (Selected options (archiveIndex (fs st))
                                 (pendingIdsOf (fs st))) fetched).
Proof.
  split; [apply selectToProcess_Selected|].
  unfold selectToProcess. split; [|split; [|split]].
  - by intros ids ->.
  - by intros -> ->.
  - intros -> -> b. rewrite list_elem_of_filter. tauto.
  - intros w config st r st' Hrun.
    apply run_returns in Hrun
      as [(-> & _ & fetched & st1 & Hfetch & Hsel)
         | (fetched & st1 & prepared & evs & existing & Hfetch & _ & Hprep & _ & Hr & _)];
      exists fetched, st1; (split; [done|]);
      rewrite <- selectToProcess_Selected.
    + by rewrite Hsel.
    + destruct (prepareAll_spec w (includeMediaOf config options)
                  (selectToProcess options (archiveIndex (fs st)) (pendingIdsOf (fs st))
                     fetched) st1) as (prepared' & evs' & Hprep' & Hall).
      rewrite Hprep in Hprep'. injection Hprep' as <- _. rewrite Hr.
      clear -Hall. induction Hall as [|b p bs ps (Hid & _) _ IH]; [done|].
      rewrite !fmap_cons. by rewrite Hid, IH.
Qed.

Lemma selection_policy_witness :
  let options :=
    {| opt_source := None; opt_includeMedia := None; opt_count := None;
       opt_all := false; opt_maxPages := None;
       opt_specificIds := Some ["2"]; opt_force := true |} in
  let tweets := [Sample.bookmark "1" None "a"; Sample.bookmark "2" None "b"] in
  selectToProcess options ∅ ∅ tweets = filter (λ b, bm_id b ∈ ["2"]) tweets.
Proof.
  intros options tweets.
  by apply (selection_policy options ∅ ∅ tweets).
Defined.

(** C1 as worded fails: with both an allow-list and forced mode, the
    allow-list decides. *)
Lemma forced_mode_does_not_override_allow_list :
  let options :=
    {| opt_source := None; opt_includeMedia := None; opt_count := None;
       opt_all := false; opt_maxPages := None;
       opt_specificIds := Some ["2"]; opt_force := true |} in
  let tweets := [Sample.bookmark "1" None "a"; Sample.bookmark "2" None "b"] in
  selectToProcess options ∅ ∅ tweets ≠ forcedFirstPolicy options ∅ ∅ tweets.
Proof. intros options tweets H. vm_compute in H. discriminate H. Qed.

Example forced_run_with_allow_list :
  let options :=
    {| opt_source := None; opt_includeMedia := None; opt_count := None;
       opt_all := false; opt_maxPages := None;
       opt_specificIds := Some ["2"]; opt_force := true |} in
  let tweets := [Sample.bookmark "1" None "a"; Sample.bookmark "2" None "b"] in
  match (fetchAndPrepareBookmarks (Sample.listing tweets) Sample.noConfig options
           (Sample.start Sample.emptyFS)).1 with
  | inr r => p_id <$> r_bookmarks r
  | inl _ => []
  end = ["2"].
Proof. by vm_compute. Qed.

(** The archive scenario: a post URL in the archive excludes its identifier. *)
Example archive_excludes_555 :
  let archive := "- [Tweet](https://x.com/alice/status/555)" in
  let f := {| archiveFile := Some archive; pendingFile := Absent; stateFile := Absent |} in
  archiveIndex f = {["555"]}
  ∧ fetchAndPrepareBookmarks (Sample.listing [Sample.bookmark "555" None "a"])
      Sample.noConfig Sample.noOptions (Sample.start f)
    = (inr nothingToDo, after (Sample.start f) [EvBird (BookmarksN None 20)]).
Proof. split; by vm_compute. Qed.

(** ** The queue a run writes *)

(** A run that processed bookmarks wrote the merge of the queue it found and
    the bookmarks it returns. *)
Lemma run_writes_merged_queue (w : World) (config : Config) (options : Options)
    (st st' : St) (r : RunResult) :
  fetchAndPrepareBookmarks w config options st = (inr r, st') →
  r_pendingFile r = true →
  ∃ existing,
    existingPendingBookmarks (fs st) = inr existing
    ∧ pendingFile (fs st') =
        Parsed {| pd_generatedAt := Some (now_iso w);
                  pd_count :=
                    Some (length (mergePending w existing (r_bookmarks r)));
                  pd_bookmarks :=
                    Some (Some (mergePending w existing (r_bookmarks r))) |}.
Proof.
  intros Hrun Hwritten.
  apply run_returns in Hrun
    as [(-> & _) | (_ & _ & prepared & _ & existing & _ & _ & _ & Hex & -> & Hfile)].
  - discriminate Hwritten.
  - by exists existing.
Qed.

(** A listing that holds a bookmark twice puts it twice in the queue. *)
Example repeated_bookmark_reaches_queue :
  let b := Sample.bookmark "1" (Some Sample.t1) "hello" in
  match pendingFile (fs (fetchAndPrepareBookmarks (Sample.listing [b; b])
                           Sample.noConfig Sample.noOptions
                           (Sample.start Sample.emptyFS)).2) with
  | Parsed {| pd_bookmarks := Some (Some queue) |} => p_id <$> queue
  | _ => []
  end = ["1"; "1"].
Proof. by vm_compute. Qed.

(** ** Scenarios of the specification *)

Example classify_social_article :
  detectLinkType "https://x.com/i/article/2012310917812502528" = x_article.
Proof. reflexivity. Qed.

Example classify_social_media :
  detectLinkType "https://x.com/user/status/123/photo/1" = media.
Proof. reflexivity. Qed.

Example classify_image_any_case :
  detectLinkType "https://example.com/image.JPG" = image.
Proof. reflexivity. Qed.

Example classify_generic_article :
  detectLinkType "https://www.darioamodei.com/essay/the-adolescence-of-technology"
  = article.
Proof. reflexivity. Qed.

Example article_id_of_url :
  extractXArticleId "https://x.com/i/article/2012310917812502528?s=20"
  = Some "2012310917812502528".
Proof. reflexivity. Qed.

(** The domain tests read the text of the URL, wherever the name occurs. *)
Example classify_by_text_of_url :
  detectLinkType "https://netflix.com/title/80057281" = tweet
  ∧ detectLinkType "https://example.com/post?via=github.com" = github.
Proof. split; reflexivity. Qed.

(** An extension counts only at the very end of the URL. *)
Example classify_image_with_query :
  detectLinkType "https://example.com/image.png?size=large" = article.
Proof. reflexivity. Qed.

(** * Further properties of the processor *)

(** ** Patterns *)

Lemma str_app_assoc (a b c : string) : (a +:+ b) +:+ c = a +:+ (b +:+ c).
Proof. induction a as [|x a IH]; norm_app; [done|]. by rewrite IH. Qed.

Lemma str_app_length (a b : string) :
  String.length (a +:+ b) = String.length a + String.length b.
Proof. induction a as [|x a IH]; norm_app; simpl; [done|]. by rewrite IH. Qed.

Lemma str_app_empty_r (a : string) : a +:+ "" = a.
Proof. induction a as [|x a IH]; norm_app; [done|]. by rewrite IH. Qed.

Lemma stripPrefix_spec (p s r : string) :
  Js.stripPrefix p s = Some r ↔ s = p +:+ r.
Proof.
  revert s. induction p as [|a p IH]; intros s; simpl; norm_app.
  - split; [by intros [= ->] | by intros ->].
  - destruct s as [|b s]; [by split|].
    destruct (Ascii.eqb_spec a b) as [->|Hne].
    + rewrite IH. split; [by intros -> | by intros [= ->]].
    + split; [done | intros [= ? ?]; congruence].
Qed.

Lemma span_spec (cls : ascii → bool) (s a b : string) :
  Js.span cls s = (a, b) →
  s = a +:+ b ∧ Js.allChars cls a = true ∧ (∀ c t, b = String c t → cls c = false).
Proof.
  revert a b. induction s as [|x s IH]; intros a b; simpl.
  - intros [= <- <-]. by repeat split.
  - destruct (cls x) eqn:Hx.
    + destruct (Js.span cls s) as [a' b'] eqn:Hs. intros [= <- <-].
      destruct (IH a' b' eq_refl) as (-> & Ha & Hb).
      norm_app. simpl. rewrite Hx, Ha. by repeat split.
    + intros [= <- <-]. repeat split; [done..|]. by intros c t [= <- <-].
Qed.

Lemma span_app (cls : ascii → bool) (a b : string) :
  Js.allChars cls a = true →
  (∀ c t, b = String c t → cls c = false) →
  Js.span cls (a +:+ b) = (a, b).
Proof.
  intros Ha Hb. induction a as [|x a IH]; norm_app.
  - destruct b as [|c t]; [done|]. simpl. by rewrite (Hb c t eq_refl).
  - simpl in *. apply andb_true_iff in Ha as [-> Ha]. by rewrite (IH Ha).
Qed.

Lemma scan_sound {A} (here : string → option (A * nat)) (skip : nat) (s : string) (a : A) :
  a ∈ Js.scan here skip s →
  ∃ pre post n, s = pre +:+ post ∧ here post = Some (a, n).
Proof.
  revert skip. induction s as [|c s IH]; intros skip; simpl.
  - by intros ?%elem_of_nil.
  - assert (∀ k, a ∈ Js.scan here k s →
                 ∃ pre post n, String c s = pre +:+ post ∧ here post = Some (a, n))
      as Hrest.
    { intros k (pre & post & n & -> & Hh)%IH. by exists (String c pre), post, n. }
    destruct skip as [|k]; [|apply Hrest].
    destruct (here (String c s)) as [[a' n]|] eqn:Hh; [|apply Hrest].
    intros [->|Hin]%elem_of_cons; [|by eapply Hrest].
    by exists "", (String c s), n.
Qed.

Lemma search_sound {A} (here : string → option A) (s : string) (a : A) :
  Js.search here s = Some a →
  ∃ pre post, s = pre +:+ post ∧ here post = Some a.
Proof.
  induction s as [|c s IH]; simpl.
  - destruct (here "") eqn:Hh; [|done]. intros [= ->]. by exists "", "".
  - destruct (here (String c s)) eqn:Hh.
    + intros [= ->]. by exists "", (String c s).
    + intros (pre & post & -> & Hp)%IH. by exists (String c pre), post.
Qed.

Lemma digits_spec (d : string) :
  Js.truthy d = true → Js.allChars Js.isDigit d = true → DecimalDigits d.
Proof.
  intros Ht Ha. apply isNumericId_spec. unfold isNumericId. by rewrite Ht, Ha.
Qed.

(** ** The archive index *)

#[local] Arguments Js.stripPrefix : simpl never.
#[local] Arguments Js.span : simpl never.

Lemma archiveMatchHere_sound (s id : string) (n : nat) :
  archiveMatchHere s = Some (id, n) →
  ∃ user post,
    s = "x.com/" +:+ user +:+ "/status/" +:+ id +:+ post
    ∧ user ≠ "" ∧ Js.allChars Js.isWord user = true ∧ DecimalDigits id
    ∧ (∀ c t, post = String c t → Js.isDigit c = false)
    ∧ n = String.length ("x.com/" +:+ user +:+ "/status/" +:+ id).
Proof.
  unfold archiveMatchHere.
  destruct (Js.stripPrefix "x.com/" s) as [r|] eqn:Hr; simpl; [|done].
  destruct (Js.span Js.isWord r) as [user r1] eqn:Hu.
  destruct (Js.truthy user) eqn:Htu; simpl; [|done].
  destruct (Js.stripPrefix "/status/" r1) as [r2|] eqn:Hr2; simpl; [|done].
  destruct (Js.span Js.isDigit r2) as [d post] eqn:Hd.
  destruct (Js.truthy d) eqn:Htd; simpl; [|done].
  intros [= <- <-].
  apply stripPrefix_spec in Hr as ->. apply stripPrefix_spec in Hr2 as ->.
  apply span_spec in Hu as (-> & Hw & _). apply span_spec in Hd as (-> & Hdig & Hpost).
  exists user, post. split; [done|]. split.
  { unfold Js.truthy in Htu. by apply negb_true_iff, String.eqb_neq in Htu. }
  split; [done|]. split; [by apply digits_spec|]. split; [done|].
  rewrite !str_app_length. simpl. lia.
Qed.

(** X1. Every identifier of the archive index is a non-empty string of
    decimal digits that the archive shows after [x.com/<user>/status/], the
    user being a non-empty run of word characters; an archive that cannot be
    read gives the empty index. *)
Theorem archiveIndex_sound (f : FS) :
  (∀ id, id ∈ archiveIndex f →
     DecimalDigits id
     ∧ ∃ text pre user post,
         archiveFile f = Some text
         ∧ text = pre +:+ "x.com/" +:+ user +:+ "/status/" +:+ id +:+ post
         ∧ user ≠ "" ∧ Js.allChars Js.isWord user = true)
  ∧ (archiveFile f = None → archiveIndex f = ∅).
Proof.
  unfold archiveIndex. split.
  - intros id. destruct (archiveFile f) as [text|]; [|by intros ?%not_elem_of_empty].
    rewrite elem_of_list_to_set.
    intros (pre & s & n & -> & Hh)%scan_sound.
    apply archiveMatchHere_sound in Hh as (user & post & -> & Hu & Hw & Hd & _).
    split; [done|]. by exists (pre +:+ "x.com/" +:+ user +:+ "/status/" +:+ id +:+ post),
      pre, user, post.
  - by intros ->.
Qed.

Lemma archiveIndex_sound_witness :
  DecimalDigits "555".
Proof.
  apply (archiveIndex_sound
           {| archiveFile := Some "- [Tweet](https://x.com/alice/status/555)";
              pendingFile := Absent; stateFile := Absent |}).
  apply (bool_decide_unpack _). by vm_compute.
Defined.

(** ** The links of a bookmark *)


Lemma processLinks_spec (w : World) (bookmark : Bookmark) (links : list string) (st : St) :
  ∃ ls evs,
    processLinks w bookmark links st = (inr ls, after st evs)
    ∧ original <$> ls = links
    ∧ Forall (λ l, type l = detectLinkType (expanded l)) ls.
Proof.
  revert st. induction links as [|link links IH]; intros st; simpl.
  - exists [], []. by rewrite after_nil.
  - destruct (processLink_shape w bookmark link st) as (c & st1 & Hrun).
    destruct (processLink_Keeps w bookmark link st) as (evs & Hst & _).
    rewrite Hrun in Hst. simpl in Hst. subst st1.
    unfold bind at 1. rewrite Hrun.
    destruct (IH (after st evs)) as (ls & evs' & Hrun' & Ho & Ht).
    unfold bind. rewrite Hrun'. unfold ret. rewrite after_after.
    eexists _, _. split; [done|]. split; [by rewrite fmap_cons, Ho|].
    by constructor.
Qed.

(** The record [prepareBookmark] builds, with the links and the reply context
    it resolved. *)
Lemma prepareBookmark_record (w : World) (includeMedia : bool) (bookmark : Bookmark)
    (st : St) :
  let text := Js.orStr (Js.orOpt (bm_text bookmark) (bm_full_text bookmark)) "" in
  let author :=
    Js.orStr (Js.orOpt (bm_author bookmark ≫= username)
                (bm_user bookmark ≫= screen_name)) "unknown" in
  let quoteContext :=
    (λ qt, tweetRef qt (Js.orStr (rt_text qt) "") (Some "native-quote"))
      <$> bm_quotedTweet bookmark in
  ∃ links replyContext evs,
    prepareBookmark w includeMedia bookmark st =
      (inr {| p_id := bm_id bookmark;
              p_author := author;
              p_authorName :=
                Js.orStr (Js.orOpt (bm_author bookmark ≫= name)
                            (bm_user bookmark ≫= user_name)) author;
              p_text := text;
              p_tweetUrl := "https://x.com/" +:+ author +:+ "/status/" +:+ bm_id bookmark;
              p_createdAt := bm_createdAt bookmark;
              p_links := links;
              p_media := if includeMedia then default [] (bm_media bookmark) else [];
              p_tags :=
                match bm_folderTag bookmark with
                | Some t => if Js.truthy t then [t] else []
                | None => []
                end;
              p_date :=
                format_date w (if Js.truthyOpt (bm_createdAt bookmark)
                               then bm_createdAt bookmark else None);
              p_isReply := Js.truthyOpt (bm_inReplyToStatusId bookmark);
              p_replyContext := replyContext;
              p_isQuote := bool_decide (is_Some quoteContext);
              p_quoteContext := quoteContext |},
       after st evs)
    ∧ original <$> links = Js.scan tcoMatchHere 0 text
    ∧ Forall (λ l, type l = detectLinkType (expanded l)) links
    ∧ (is_Some replyContext → Js.truthyOpt (bm_inReplyToStatusId bookmark) = true).
Proof.
  intros text author quoteContext. unfold prepareBookmark. fold text. fold author.
  destruct (processLinks_spec w bookmark (Js.scan tcoMatchHere 0 text) st)
    as (links & evs & Hrun & Horig & Htype).
  unfold bind at 1. rewrite Hrun.
  destruct (bm_inReplyToStatusId bookmark) as [parentId|] eqn:Hreply; cbv beta iota.
  - destruct (Js.truthy parentId) eqn:Htruthy.
    + destruct (run_shape (λ _, True) (fetchTweet w parentId) (after st evs))
        as (parent & evs2 & Hrun2 & _); [auto with calls..|].
      unfold bind at 1. unfold bind at 1. rewrite Hrun2.
      unfold bind, ret. rewrite after_after.
      eexists _, _, _. split; [done|]. by repeat split.
    + unfold bind, ret. eexists _, None, _. split; [done|].
      repeat split; [done..|]. by intros [? [=]].
  - unfold bind, ret. eexists _, None, _. split; [done|].
    repeat split; [done..|]. by intros [? [=]].
Qed.


(** X3. In every prepared record the author and the author name are never
    empty (they fall back to the screen name and to 'unknown'), the tweet URL
    is [https://x.com/<author>/status/<id>], there is at most one tag,
    [isQuote] tells exactly whether a quote context is attached, and a reply
    context is attached only to a reply. *)
Theorem prepared_record_invariants (w : World) (includeMedia : bool)
    (bookmark : Bookmark) (st : St) :
  ∃ p st',
    prepareBookmark w includeMedia bookmark st = (inr p, st')
    ∧ p_id p = bm_id bookmark
    ∧ p_author p ≠ "" ∧ p_authorName p ≠ ""
    ∧ p_tweetUrl p = "https://x.com/" +:+ p_author p +:+ "/status/" +:+ p_id p
    ∧ length (p_tags p) ≤ 1
    ∧ (p_isQuote p = true ↔ is_Some (p_quoteContext p))
    ∧ (is_Some (p_replyContext p) → p_isReply p = true).
Proof.
  destruct (prepareBookmark_record w includeMedia bookmark st)
    as (links & rc & evs & Hrun & _ & _ & Hreply).
  assert (∀ a b, b ≠ "" → Js.orStr a b ≠ "") as Hor.
  { intros [s|] b Hb; simpl; [|done]. unfold Js.truthy.
    destruct (String.eqb_spec s ""); simpl; done. }
  eexists _, _. split; [exact Hrun|]. simpl.
  split; [done|]. split; [by apply Hor|]. split; [apply Hor; by apply Hor|].
  split; [done|]. split.
  { destruct (bm_folderTag bookmark) as [t|]; [destruct (Js.truthy t)|]; simpl; lia. }
  split; [apply bool_decide_eq_true | done].
Qed.

(** ** The outcomes of a run *)

(** Every way a run can go, with the state it ends in. *)
Lemma run_cases (w : World) (config : Config) (options : Options) (st : St) :
  match fetchStep w config options st with
  | (inl e, st1) =>
      fetchAndPrepareBookmarks w config options st = (inl e, st1) ∧ fs st1 = fs st
  | (inr tweets, st1) =>
      fs st1 = fs st ∧
      match selectToProcess options (archiveIndex (fs st)) (pendingIdsOf (fs st))
              tweets with
      | [] => fetchAndPrepareBookmarks w config options st = (inr nothingToDo, st1)
      | toProcess =>
          ∃ prepared evs,
            prepareAll w (includeMediaOf config options) toProcess st1
              = (inr prepared, after st1 evs)
            ∧ match existingPendingBookmarks (fs st) with
              | inl e =>
                  fetchAndPrepareBookmarks w config options st
                    = (inl e, after st1 evs)
              | inr existing =>
                  fetchAndPrepareBookmarks w config options st
                    = (match setLastCheck w (loadedState (fs st)) with
                       | inl e => inl e
                       | inr _ => inr {| r_bookmarks := prepared;
                                         r_count := length prepared;
                                         r_pendingFile := true |}
                       end,
                       {| fs := filesAfterRun w (fs st) (mergePending w existing prepared);
                          trace := trace st1 ++ evs |})
              end
      end
  end.
Proof.
  assert (Keeps (λ _, True) (fetchStep w config options)) as Hk.
  { unfold fetchStep. destruct (fromFolders config options);
      [apply fetchFromFolders_Keeps | apply fetchFromSource_Keeps]. }
  destruct (Hk st) as (evs0 & Hst1 & _).
  destruct (fetchStep w config options st) as [[e|tweets] st1] eqn:Hfetch;
    simpl in Hst1; subst st1.
  { split; [|done].
    unfold fetchAndPrepareBookmarks. unfold bind at 1. rewrite loadState_eq.
    unfold bind at 1. fold (fetchStep w config options). by rewrite Hfetch. }
  split; [done|].
  assert (fetchAndPrepareBookmarks w config options st =
          match tweets with
          | [] => (inr nothingToDo, after st evs0)
          | _ :: _ =>
              match selectToProcess options (archiveIndex (fs st))
                      (pendingIdsOf (fs st)) tweets with
              | [] => (inr nothingToDo, after st evs0)
              | toProcess =>
                  match prepareAll w (includeMediaOf config options) toProcess
                          (after st evs0) with
                  | (inl e, st2) => (inl e, st2)
                  | (inr prepared, st2) =>
                      match existingPendingBookmarks (fs st) with
                      | inl e => (inl e, st2)
                      | inr existing =>
                          (match setLastCheck w (loadedState (fs st)) with
                           | inl e => inl e
                           | inr _ => inr {| r_bookmarks := prepared;
                                             r_count := length prepared;
                                             r_pendingFile := true |}
                           end,
                           {| fs := filesAfterRun w (fs st)
                                      (mergePending w existing prepared);
                              trace := trace st2 |})
                      end
                  end
              end
          end) as ->.
  { unfold fetchAndPrepareBookmarks. unfold bind at 1. rewrite loadState_eq.
    unfold bind at 1. fold (fetchStep w config options). rewrite Hfetch.
    destruct tweets as [|t tweets]; [done|].
    unfold bind at 1, getExistingBookmarkIds, bind at 1, readFS at 1, ret at 1.
    unfold bind at 1, readFS at 1.
    change (fs (after st evs0)) with (fs st).
    destruct (selectToProcess options _ _ (t :: tweets)) as [|b toProcess]; [done|].
    unfold bind at 1.
    destruct (prepareAll_spec w (includeMediaOf config options) (b :: toProcess)
                (after st evs0)) as (prepared & evs & -> & _).
    unfold bind at 1, readFS at 1.
    change (fs (after (after st evs0) evs)) with (fs st).
    destruct (existingPendingBookmarks (fs st)) as [e|existing]; [done|].
    unfold bind at 1, writeFS at 1. unfold filesAfterRun.
    destruct (setLastCheck w (loadedState (fs st))) as [e|state']; [done|].
    unfold bind, writeFS, saveState, writeFS, ret. simpl. done. }
  destruct tweets as [|t tweets]; [by rewrite selectToProcess_nil|].
  destruct (selectToProcess options _ _ (t :: tweets)) as [|b toProcess]; [done|].
  destruct (prepareAll_spec w (includeMediaOf config options) (b :: toProcess)
              (after st evs0)) as (prepared & evs & Hprep & _).
  exists prepared, evs. split; [done|]. rewrite Hprep.
  by destruct (existingPendingBookmarks (fs st)).
Qed.

(** ** Merging the sources *)

Lemma dedupeInto_spec (mark : Bookmark → Bookmark) (items merged : list Bookmark)
    (seen : gset string) :
  (∀ b, bm_id (mark b) = bm_id b) →
  (∀ i, i ∈ seen ↔ i ∈ bm_id <$> merged) →
  NoDup (bm_id <$> merged) →
  ∃ added,
    (dedupeInto mark items (merged, seen)).1 = merged ++ (mark <$> added)
    ∧ added `sublist_of` items
    ∧ (∀ i, i ∈ (dedupeInto mark items (merged, seen)).2
            ↔ i ∈ bm_id <$> (dedupeInto mark items (merged, seen)).1)
    ∧ NoDup (bm_id <$> (dedupeInto mark items (merged, seen)).1)
    ∧ (∀ i, i ∈ bm_id <$> (dedupeInto mark items (merged, seen)).1
            ↔ i ∈ bm_id <$> merged ∨ i ∈ bm_id <$> items)
    ∧ (∀ pre x post,
         items = pre ++ x :: post →
         bm_id x ∉ bm_id <$> merged → bm_id x ∉ bm_id <$> pre →
         x ∈ added).
Proof.
  intros Hmark. revert merged seen.
  induction items as [|item rest IH]; intros merged seen Hseen Hnd; simpl.
  - exists []. rewrite app_nil_r. split; [done|]. split; [done|]. split; [done|].
    split; [done|]. split.
    + intros i. rewrite (elem_of_nil (A:=string)). tauto.
    + intros pre x post Heq. by destruct pre.
  - destruct (decide (bm_id item ∈ seen)) as [Hin|Hnin].
    + destruct (IH merged seen Hseen Hnd) as (added & He & Hsub & Hs & Hn & Hids & Hfirst).
      exists added. split; [done|]. split; [by apply sublist_cons|].
      split; [done|]. split; [done|]. split.
      * intros i. rewrite Hids, elem_of_cons.
        apply Hseen in Hin. split; [tauto|]. intros [?|[->|?]]; tauto.
      * intros pre x post Heq Hx Hpre. destruct pre as [|p pre]; simplify_eq/=.
        { by apply Hseen in Hin. }
        apply (Hfirst pre x post); [done..|].
        intros ?. apply Hpre. by right.
    + assert (bm_id item ∉ bm_id <$> merged) as Hnin' by by rewrite <- Hseen.
      destruct (IH (merged ++ [mark item]) ({[bm_id item]} ∪ seen))
        as (added & He & Hsub & Hs & Hn & Hids & Hfirst).
      { intros i. rewrite fmap_app, elem_of_app, elem_of_union, elem_of_singleton.
        simpl. rewrite list_elem_of_singleton, Hmark, Hseen. tauto. }
      { rewrite fmap_app. apply NoDup_app. split; [done|]. split.
        - intros i Hi. simpl. rewrite list_elem_of_singleton, Hmark. by intros ->.
        - simpl. apply NoDup_singleton. }
      exists (item :: added). split.
      { rewrite He, fmap_cons, <- app_assoc. done. }
      split; [by apply sublist_skip|]. split; [done|]. split; [done|]. split.
      * intros i. rewrite Hids, fmap_app, elem_of_app, elem_of_cons.
        simpl. rewrite list_elem_of_singleton, Hmark. tauto.
      * intros pre x post Heq Hx Hpre. destruct pre as [|p pre]; simplify_eq/=.
        { by left. }
        right. apply (Hfirst pre x post); [done| |].
        -- rewrite fmap_app, elem_of_app. simpl.
           rewrite list_elem_of_singleton, Hmark. intros [?|?]; [done|].
           apply Hpre. apply elem_of_cons. by left.
        -- intros ?. apply Hpre. by right.
Qed.

Lemma fetchBookmarks_eq (w : World) (count : nat) (options : FetchOptions) (st : St) :
  fetchBookmarks w count options st =
    (match bird_list w (trace st) (bookmarksCmd count options) with
     | inr parsed => inr (tweetsOf parsed)
     | inl msg => inl (Error ("Failed to fetch bookmarks: " +:+ msg))
     end,
     after st [EvBird (bookmarksCmd count options)]).
Proof.
  unfold fetchBookmarks. munfold.
  by destruct (bird_list w (trace st) (bookmarksCmd count options)).
Qed.

Lemma fetchLikes_eq (w : World) (count : nat) (st : St) :
  fetchLikes w count st =
    (match bird_list w (trace st) (Likes count) with
     | inr parsed => inr (tweetsOf parsed)
     | inl msg => inl (Error ("Failed to fetch likes: " +:+ msg))
     end,
     after st [EvBird (Likes count)]).
Proof.
  unfold fetchLikes. munfold. by destruct (bird_list w (trace st) (Likes count)).
Qed.

(** X4. With the source 'both', the fetch succeeds only if the bookmarks and
    then the likes are both fetched; its result lists their items in order,
    bookmarks first, keeping for each identifier the first item that has it:
    no identifier occurs twice and none is lost. *)
Theorem both_sources_merged_without_repeats (w : World) (config : Config) (count : nat)
    (options : FetchOptions) (st st' : St) (res : list Bookmark) :
  Js.orStr (cfg_source config) "bookmarks" = "both" →
  fetchFromSource w config count options st = (inr res, st') →
  ∃ bookmarks likes st1,
    fetchBookmarks w count options st = (inr bookmarks, st1)
    ∧ fetchLikes w count st1 = (inr likes, st')
    ∧ NoDup (bm_id <$> res)
    ∧ res `sublist_of` bookmarks ++ likes
    ∧ (∀ i, i ∈ bm_id <$> res ↔ i ∈ bm_id <$> bookmarks ++ likes)
    ∧ (∀ pre x post,
         bookmarks ++ likes = pre ++ x :: post → bm_id x ∉ bm_id <$> pre → x ∈ res).
Proof.
  intros Hsrc. unfold fetchFromSource. rewrite Hsrc. simpl.
  unfold bind at 1.
  destruct (fetchBookmarks w count options st) as [[e|bookmarks] st1]; [done|].
  unfold bind at 1.
  destruct (fetchLikes w count st1) as [[e|likes] st2] eqn:Hlikes; [done|].
  unfold ret. intros [= <- <-].
  destruct (dedupeInto_spec (λ b, b) (bookmarks ++ likes) [] ∅)
    as (added & He & Hsub & _ & Hnd & Hids & Hfirst); [done| |constructor|].
  { intros i. rewrite fmap_nil, elem_of_nil. set_solver. }
  rewrite list_fmap_id in He. simpl in He.
  exists bookmarks, likes, st1. rewrite He in *.
  split; [done|]. split; [done|]. split; [done|]. split; [done|]. split.
  - intros i. rewrite Hids, fmap_nil, elem_of_nil. tauto.
  - intros pre x post Heq Hpre. apply (Hfirst pre x post); [done| |done].
    rewrite fmap_nil. apply not_elem_of_nil.
Qed.

Lemma both_sources_merged_without_repeats_witness :
  let w := Sample.listing [Sample.bookmark "1" None "a"; Sample.bookmark "2" None "b"] in
  let config :=
    {| cfg_source := Some "both"; cfg_includeMedia := None; cfg_folders := [] |} in
  let options := {| fo_all := false; fo_maxPages := None; fo_folderId := None |} in
  ∃ bookmarks likes st1,
    fetchBookmarks w 20 options (Sample.start Sample.emptyFS) = (inr bookmarks, st1)
    ∧ fetchLikes w 20 st1
      = (inr likes, after (Sample.start Sample.emptyFS)
                      [EvBird (BookmarksN None 20); EvBird (Likes 20)])
    ∧ NoDup (bm_id <$> [Sample.bookmark "1" None "a"; Sample.bookmark "2" None "b"])
    ∧ [Sample.bookmark "1" None "a"; Sample.bookmark "2" None "b"]
        `sublist_of` bookmarks ++ likes
    ∧ (∀ i, i ∈ bm_id <$> [Sample.bookmark "1" None "a"; Sample.bookmark "2" None "b"]
            ↔ i ∈ bm_id <$> bookmarks ++ likes)
    ∧ (∀ pre x post,
         bookmarks ++ likes = pre ++ x :: post → bm_id x ∉ bm_id <$> pre →
         x ∈ [Sample.bookmark "1" None "a"; Sample.bookmark "2" None "b"]).
Proof.
  intros w config options.
  apply (both_sources_merged_without_repeats w config 20 options
           (Sample.start Sample.emptyFS)); reflexivity.
Defined.

(** ** Fetching from folders *)

Lemma foldersLoop_spec (w : World) (folders : list (string * string)) (count : nat)
    (options : FetchOptions) (acc : list Bookmark) (seen : gset string) (st : St) :
  (∀ i, i ∈ seen ↔ i ∈ bm_id <$> acc) →
  NoDup (bm_id <$> acc) →
  ∃ res seen' added,
    foldersLoop w folders count options (acc, seen) st
      = (inr (res, seen'), after st (folderCalls count options folders))
    ∧ NoDup (bm_id <$> res)
    ∧ res = acc ++ added
    ∧ Forall (λ b, ∃ fid tag,
                (fid, tag) ∈ folders
                ∧ bm_folderId b = Some fid ∧ bm_folderTag b = Some tag) added
    ∧ (∀ i fid tag parsed b,
         folders !! i = Some (fid, tag) →
         folderAnswer w st count options folders i fid = inr parsed →
         b ∈ tweetsOf parsed → bm_id b ∈ bm_id <$> res)
    ∧ (∀ b, b ∈ added →
         ∃ i fid tag parsed b0,
           folders !! i = Some (fid, tag)
           ∧ folderAnswer w st count options folders i fid = inr parsed
           ∧ b0 ∈ tweetsOf parsed
           ∧ b = withFolder tag fid b0).
Proof.
  revert acc seen st.
  induction folders as [|[fid tag] folders IH]; intros acc seen st Hseen Hnd; simpl.
  - exists acc, seen, []. unfold ret, folderCalls. simpl.
    rewrite after_nil, app_nil_r. split; [done|]. split; [done|]. split; [done|].
    split; [done|]. split; [done|]. by intros b ?%elem_of_nil.
  - unfold bind at 1, try_catch, bind at 1. rewrite fetchBookmarks_eq.
    set (ev := EvBird _).
    assert (∀ i f, folderAnswer w st count options ((fid, tag) :: folders) (S i) f
                   = folderAnswer w (after st [ev]) count options folders i f) as Hshift.
    { intros i f. unfold folderAnswer. simpl. by rewrite <- app_assoc. }
    assert (∀ f, folderAnswer w st count options ((fid, tag) :: folders) 0 f
                 = bird_list w (trace st)
                     (bookmarksCmd count {| fo_all := fo_all options;
                                            fo_maxPages := fo_maxPages options;
                                            fo_folderId := Some f |})) as Hfirst.
    { intros f. unfold folderAnswer. simpl. by rewrite app_nil_r. }
    destruct (bird_list w (trace st) _) as [msg|parsed] eqn:Hlist.
    + unfold ret at 1.
      destruct (IH acc seen (after st [ev]) Hseen Hnd)
        as (res & seen' & added & Hrun & Hres & -> & Htag & Hin & Hfrom).
      rewrite Hrun, after_after. exists (acc ++ added), seen', added.
      split; [done|]. split; [done|]. split; [done|]. split.
      { eapply Forall_impl; [exact Htag|]. intros b (f & t & Hf & ?).
        exists f, t. split; [by right | done]. }
      split.
      * intros [|i] f t parsed b Hlook Hans Hb.
        -- injection Hlook as <- <-. rewrite Hfirst, Hlist in Hans. discriminate.
        -- rewrite Hshift in Hans. by apply (Hin i f t parsed b).
      * intros b Hb.
        destruct (Hfrom b Hb) as (i & f & t & parsed & b0 & Hlook & Hans & Hb0 & ->).
        exists (S i), f, t, parsed, b0. by rewrite Hshift.
    + unfold ret at 1.
      destruct (dedupeInto_spec (withFolder tag fid) (tweetsOf parsed) acc seen)
        as (new & He & Hsub & Hs & Hn & Hids & _); [done..|].
      destruct (dedupeInto (withFolder tag fid) (tweetsOf parsed) (acc, seen))
        as [acc' seen1] eqn:Hd. simpl in He, Hs, Hn, Hids. subst acc'.
      destruct (IH (acc ++ (withFolder tag fid <$> new)) seen1 (after st [ev]) Hs Hn)
        as (res & seen' & added & Hrun & Hres & -> & Htag & Hin & Hfrom).
      rewrite Hrun, after_after.
      exists ((acc ++ (withFolder tag fid <$> new)) ++ added), seen',
        ((withFolder tag fid <$> new) ++ added).
      split; [done|]. split; [done|]. split; [by rewrite app_assoc|]. split.
      { apply Forall_app. split.
        - apply Forall_fmap, Forall_forall. intros b _. simpl.
          exists fid, tag. split; [by left | done].
        - eapply Forall_impl; [exact Htag|]. intros b (f & t & Hf & ?).
          exists f, t. split; [by right | done]. }
      split.
      * intros [|i] f t parsed' b Hlook Hans Hb.
        -- injection Hlook as <- <-. rewrite Hfirst, Hlist in Hans.
           injection Hans as <-.
           rewrite fmap_app, elem_of_app. left. apply Hids. right.
           by apply list_elem_of_fmap_2.
        -- rewrite Hshift in Hans. by apply (Hin i f t parsed' b).
      * intros b [Hb|Hb]%elem_of_app.
        -- apply list_elem_of_fmap in Hb as (b0 & -> & Hb0).
           exists 0, fid, tag, parsed, b0. split; [done|]. split; [by rewrite Hfirst|].
           split; [|done]. by apply (elem_of_sublist new (tweetsOf parsed)).
        -- destruct (Hfrom b Hb) as (i & f & t & parsed' & b0 & Hlook & Hans & Hb0 & ->).
           exists (S i), f, t, parsed', b0. by rewrite Hshift.
Qed.

(** X5. Fetching from the configured folders never throws and asks the bird
    CLI exactly once per folder, in the order of the configuration, whether
    or not a folder fails. No identifier occurs twice in the result, and
    every bookmark of the result carries the identifier and the tag of a
    configured folder. *)
Theorem folders_fetched_once_each (w : World) (config : Config) (count : nat)
    (options : FetchOptions) (st : St) :
  ∃ res,
    fetchFromFolders w config count options st
      = (inr res, after st (folderCalls count options (cfg_folders config)))
    ∧ NoDup (bm_id <$> res)
    ∧ Forall (λ b, ∃ fid tag,
                (fid, tag) ∈ cfg_folders config
                ∧ bm_folderId b = Some fid ∧ bm_folderTag b = Some tag) res.
Proof.
  unfold fetchFromFolders.
  destruct (cfg_folders config) as [|folder folders] eqn:Hf.
  { exists []. unfold ret, folderCalls. simpl. rewrite after_nil.
    repeat split; constructor. }
  destruct (foldersLoop_spec w (folder :: folders) count options [] ∅ st)
    as (res & seen' & added & Hrun & Hnd & -> & Htag & _).
  { intros i. rewrite fmap_nil, elem_of_nil. set_solver. }
  { constructor. }
  unfold bind. rewrite Hrun. unfold ret. simpl. by exists added.
Qed.

(** ** A fetch that fails *)

(** C7, as the code has it. When the run fetches through [fetchFromSource]
    (no folder is configured, or the source is not 'bookmarks') a failure of
    the fetch is thrown out of the run, and the pending queue file and the
    state file are as they were; in particular a failing bird CLI gives
    "Failed to fetch bookmarks". When the run fetches from the configured
    folders, a folder that cannot be fetched is skipped: the fetch never
    throws and still asks every folder in order; what it returns holds every
    bookmark of every folder that could be fetched, and nothing but such
    bookmarks, each with the tag of its folder; and the run goes on with
    that list, returning the bookmarks selected from it when the pending file
    and the state file can be used. *)
Theorem source_fetch_failure_aborts (w : World) (config : Config) (options : Options)
    (st : St) :
  (fromFolders config options = false →
   ∀ e st1,
     fetchFromSource w (configWithOptions config options) (countOf options)
       (fetchOptionsOf options) st = (inl e, st1) →
     fetchAndPrepareBookmarks w config options st = (inl e, st1) ∧ fs st1 = fs st)
  ∧ (fromFolders config options = false →
     sourceOf config options = "bookmarks" →
     ∀ msg,
       bird_list w (trace st) (bookmarksCmd (countOf options) (fetchOptionsOf options))
         = inl msg →
       fetchAndPrepareBookmarks w config options st =
         (inl (Error ("Failed to fetch bookmarks: " +:+ msg)),
          after st [EvBird (bookmarksCmd (countOf options) (fetchOptionsOf options))]))
  ∧ (fromFolders config options = true →
     ∃ tweets,
       fetchFromFolders w (configWithOptions config options) (countOf options)
         (fetchOptionsOf options) st
         = (inr tweets,
            after st (folderCalls (countOf options) (fetchOptionsOf options)
                        (cfg_folders config)))
       ∧ (∀ i fid tag parsed b,
            cfg_folders config !! i = Some (fid, tag) →
            folderAnswer w st (countOf options) (fetchOptionsOf options)
              (cfg_folders config) i fid = inr parsed →
            b ∈ tweetsOf parsed → bm_id b ∈ bm_id <$> tweets)
       ∧ (∀ b, b ∈ tweets →
            ∃ i fid tag parsed b0,
              cfg_folders config !! i = Some (fid, tag)
              ∧ folderAnswer w st (countOf options) (fetchOptionsOf options)
                  (cfg_folders config) i fid = inr parsed
              ∧ b0 ∈ tweetsOf parsed
              ∧ b = withFolder tag fid b0)
       ∧ (∀ existing state',
            existingPendingBookmarks (fs st) = inr existing →
            setLastCheck w (loadedState (fs st)) = inr state' →
            ∃ r st',
              fetchAndPrepareBookmarks w config options st = (inr r, st')
              ∧ Forall2 (λ b p, p_id p = bm_id b)
                  (selectToProcess options (archiveIndex (fs st)) (pendingIdsOf (fs st))
                     tweets)
                  (r_bookmarks r))).
Proof.
  pose proof (run_cases w config options st) as Hcases.
  assert (fromFolders config options = false →
          ∀ e st1,
            fetchFromSource w (configWithOptions config options) (countOf options)
              (fetchOptionsOf options) st = (inl e, st1) →
            fetchAndPrepareBookmarks w config options st = (inl e, st1)
            ∧ fs st1 = fs st) as Hsource.
  { intros Hff e st1 Hfetch. unfold fetchStep in Hcases.
    by rewrite Hff, Hfetch in Hcases. }
  split; [exact Hsource|]. split.
  - intros Hff Hsrc msg Hfail. apply Hsource; [done|].
    unfold fetchFromSource. simpl. rewrite Hsrc. simpl.
    by apply fetchBookmarks_fails.
  - intros Hff. unfold fetchStep in Hcases. rewrite Hff in Hcases.
    clear Hsource. unfold fetchFromFolders in Hcases |- *.
    cbn [cfg_folders configWithOptions] in Hcases |- *.
    destruct (cfg_folders config) as [|folder folders] eqn:Hfolders.
    { unfold fromFolders in Hff. by rewrite Hfolders in Hff. }
    destruct (foldersLoop_spec w (folder :: folders) (countOf options)
                (fetchOptionsOf options) [] ∅ st)
      as (res & seen' & added & Hrun & _ & -> & _ & Hin & Hfrom).
    { intros i. rewrite fmap_nil, elem_of_nil. set_solver. }
    { constructor. }
    unfold bind at 1 in Hcases. unfold bind at 1. rewrite Hrun in Hcases |- *.
    unfold ret in Hcases |- *. cbn [fst app] in Hcases |- *.
    exists added. split; [done|]. split; [exact Hin|]. split; [exact Hfrom|].
    intros existing state' Hex Hset. destruct Hcases as [_ Hcases].
    destruct (selectToProcess options _ _ added) as [|b toProcess].
    { eexists _, _. split; [exact Hcases|]. constructor. }
    destruct Hcases as (prepared & evs & Hprep & Hcases).
    rewrite Hex, Hset in Hcases.
    eexists _, _. split; [exact Hcases|]. cbn [r_bookmarks].
    destruct (prepareAll_spec w (includeMediaOf config options) (b :: toProcess)
                (after st (folderCalls (countOf options) (fetchOptionsOf options)
                             (folder :: folders))))
      as (prepared' & evs' & Hprep' & Hall).
    rewrite Hprep in Hprep'. injection Hprep' as <- _.
    eapply Forall2_impl; [exact Hall|]. by intros b0 p0 (? & _).
Qed.

Lemma source_fetch_failure_aborts_witness :
  fetchAndPrepareBookmarks Sample.offline Sample.noConfig Sample.noOptions
    (Sample.start Sample.emptyFS)
  = (inl (Error "Failed to fetch bookmarks: spawnSync /bin/sh ETIMEDOUT"),
     after (Sample.start Sample.emptyFS) [EvBird (BookmarksN None 20)])
  ∧ ∃ tweets,
      (fetchFromFolders
         (Sample.firstFolderDown [Sample.bookmark "1" (Some Sample.t1) "hello"])
         {| cfg_source := Some "bookmarks"; cfg_includeMedia := Some false;
            cfg_folders := [("f1", "work"); ("f2", "home")] |}
         20 {| fo_all := false; fo_maxPages := None; fo_folderId := None |}
         (Sample.start Sample.emptyFS)).1 = inr tweets
      ∧ "1" ∈ bm_id <$> tweets.
Proof.
  split.
  - apply (source_fetch_failure_aborts Sample.offline Sample.noConfig Sample.noOptions
             (Sample.start Sample.emptyFS)); reflexivity.
  - destruct (source_fetch_failure_aborts
                (Sample.firstFolderDown [Sample.bookmark "1" (Some Sample.t1) "hello"])
                {| cfg_source := None; cfg_includeMedia := None;
                   cfg_folders := [("f1", "work"); ("f2", "home")] |}
                Sample.noOptions (Sample.start Sample.emptyFS))
      as (_ & _ & Hfolders).
    destruct (Hfolders eq_refl) as (tweets & Hrun & Hin & _).
    exists tweets. split; [exact (f_equal fst Hrun)|].
    apply (Hin 1 "f2" "home" (JArray [Sample.bookmark "1" (Some Sample.t1) "hello"])
             (Sample.bookmark "1" (Some Sample.t1) "hello"));
      [reflexivity|reflexivity|by left].
Defined.

(** C7 as worded fails: with two folders configured, the fetch of the first
    one fails, the run still returns, and it writes both files. *)
Lemma folder_fetch_failure_does_not_abort :
  let w := Sample.firstFolderDown [Sample.bookmark "1" (Some Sample.t1) "hello"] in
  let config :=
    {| cfg_source := None; cfg_includeMedia := None;
       cfg_folders := [("f1", "work"); ("f2", "home")] |} in
  let st := Sample.start Sample.emptyFS in
  let run := fetchAndPrepareBookmarks w config Sample.noOptions st in
  ¬ ((∃ e, (fetchBookmarks w 20
              {| fo_all := false; fo_maxPages := None; fo_folderId := Some "f1" |}
              st).1 = inl e) →
     (∃ e, run.1 = inl e) ∧ fs run.2 = fs st).
Proof.
  intros w config st run H.
  destruct H as [[e He] Hfs].
  - eexists. reflexivity.
  - vm_compute in He. discriminate He.
Qed.

Example folder_fetch_failure_files :
  let w := Sample.firstFolderDown [Sample.bookmark "1" (Some Sample.t1) "hello"] in
  let config :=
    {| cfg_source := None; cfg_includeMedia := None;
       cfg_folders := [("f1", "work"); ("f2", "home")] |} in
  let run := fetchAndPrepareBookmarks w config Sample.noOptions
               (Sample.start Sample.emptyFS) in
  trace run.2 = [EvBird (BookmarksN (Some "f1") 20); EvBird (BookmarksN (Some "f2") 20)]
  ∧ stateFile (fs run.2)
    = Parsed (StateObject {| last_processed_id := None;
                             last_check := Some "2026-01-26T12:00:00.000Z";
                             last_processing_run := None |} [])
  ∧ match run.1 with
    | inr r => p_id <$> r_bookmarks r
    | inl _ => []
    end = ["1"].
Proof. by vm_compute. Qed.

(** ** What a run writes *)

(** X6. A run never writes the archive, and a run that finds nothing to
    process leaves the pending queue file and the state file exactly as they
    were. So does a run that throws, with one exception: when the state file
    holds [null], a number, a string or a boolean, setting [last_check]
    throws after the pending file has been written with the merged queue; the
    state file is then as it was. *)
Theorem run_writes_nothing_unless_it_processed (w : World) (config : Config)
    (options : Options) (st st' : St) (res : Exn + RunResult) :
  fetchAndPrepareBookmarks w config options st = (res, st') →
  archiveFile (fs st') = archiveFile (fs st)
  ∧ (res = inr nothingToDo → fs st' = fs st)
  ∧ (∀ r, res = inr r → r_pendingFile r = false → r = nothingToDo)
  ∧ (∀ e, res = inl e →
       fs st' = fs st
       ∨ (setLastCheck w (loadedState (fs st)) = inl e
          ∧ (loadedState (fs st) = StateNull
             ∨ ∃ kind text, loadedState (fs st) = StateScalar kind text)
          ∧ stateFile (fs st') = stateFile (fs st)
          ∧ ∃ existing prepared,
              existingPendingBookmarks (fs st) = inr existing
              ∧ prepared ≠ []
              ∧ pendingFile (fs st') =
                  Parsed {| pd_generatedAt := Some (now_iso w);
                            pd_count := Some (length (mergePending w existing prepared));
                            pd_bookmarks :=
                              Some (Some (mergePending w existing prepared)) |}))
  ∧ (∀ e state', res = inl e →
       setLastCheck w (loadedState (fs st)) = inr state' → fs st' = fs st).
Proof.
  intros Hrun. pose proof (run_cases w config options st) as Hcases.
  destruct (fetchStep w config options st) as [[e|tweets] st1].
  { destruct Hcases as [Hc Hfs]. rewrite Hrun in Hc. injection Hc as -> ->.
    rewrite Hfs. split; [done|]. split; [done|]. split; [done|].
    split; [by left|done]. }
  destruct Hcases as [Hfs Hcases].
  destruct (selectToProcess options _ _ tweets) as [|b toProcess].
  { rewrite Hrun in Hcases. injection Hcases as -> ->. rewrite Hfs.
    split; [done|]. split; [done|]. split; [by intros r [= <-]|].
    split; [done|done]. }
  destruct Hcases as (prepared & evs & Hprep & Hcases).
  assert (prepared ≠ []) as Hne.
  { destruct (prepareAll_spec w (includeMediaOf config options) (b :: toProcess) st1)
      as (prepared' & evs' & Hprep' & Hall).
    rewrite Hprep in Hprep'. injection Hprep' as <- _. intros ->. inversion Hall. }
  destruct (existingPendingBookmarks (fs st)) as [e|existing] eqn:Hex;
    rewrite Hrun in Hcases; injection Hcases as -> ->; simpl.
  { rewrite Hfs. split; [done|]. split; [done|]. split; [done|].
    split; [by left|done]. }
  split; [done|].
  destruct (setLastCheck w (loadedState (fs st))) as [e|state'] eqn:Hset.
  - split; [done|]. split; [done|]. split; [|done].
    intros e' [= <-]. right. split; [done|]. split.
    { destruct (loadedState (fs st)) as [s|items| |kind text]; try done; [by left|].
      right. by exists kind, text. }
    split; [done|]. by exists existing, prepared.
  - split; [done|]. split; [by intros r [= <-]|]. split; [done|done].
Qed.

Lemma run_writes_nothing_unless_it_processed_witness :
  let w := Sample.listing [Sample.bookmark "1" (Some Sample.t1) ""] in
  let st := Sample.start
              {| archiveFile := Some "x.com/alice/status/555";
                 pendingFile := Absent; stateFile := Parsed StateNull |} in
  let run := fetchAndPrepareBookmarks w Sample.noConfig Sample.noOptions st in
  run.1 = inl (Error "Cannot set properties of null (setting 'last_check')")
  ∧ archiveFile (fs run.2) = archiveFile (fs st)
  ∧ stateFile (fs run.2) = Parsed StateNull
  ∧ pendingFile (fs run.2) ≠ Absent.
Proof.
  intros w st run.
  destruct (run_writes_nothing_unless_it_processed w Sample.noConfig Sample.noOptions
              st run.2 run.1 (surjective_pairing run))
    as (Harchive & _ & _ & Hthrows & _).
  assert (run.1 = inl (Error "Cannot set properties of null (setting 'last_check')"))
    as Hres by by vm_compute.
  split; [done|]. split; [done|].
  destruct (Hthrows _ Hres) as [Hsame|(_ & _ & Hstate & existing & prepared & _ & _ & Hp)].
  - exfalso. apply (f_equal pendingFile) in Hsame. by vm_compute in Hsame.
  - split; [done|]. by rewrite Hp.
Defined.

(** X7. A run that processed bookmarks writes both files. The pending file
    holds the generation time, the merged queue and its length as count. The
    state file, when it held an object or was missing or unparsable, gets
    [last_check] set to now while [last_processed_id],
    [last_processing_run] and every other property keep the values loaded at
    the start (null for a missing or unparsable file); when it held an array it is written back as
    that array, without [last_check]. A run that returns never met a state
    file holding [null], a number, a string or a boolean. The result counts
    the bookmarks it returns, and there is at least one. *)
Theorem run_that_processed_writes_queue_and_state (w : World) (config : Config)
    (options : Options) (st st' : St) (r : RunResult) :
  fetchAndPrepareBookmarks w config options st = (inr r, st') →
  r_pendingFile r = true →
  ∃ existing,
    existingPendingBookmarks (fs st) = inr existing
    ∧ pendingFile (fs st') =
        Parsed {| pd_generatedAt := Some (now_iso w);
                  pd_count := Some (length (mergePending w existing (r_bookmarks r)));
                  pd_bookmarks := Some (Some (mergePending w existing (r_bookmarks r))) |}
    ∧ match loadedState (fs st) with
      | StateObject state others =>
          stateFile (fs st') =
            Parsed (StateObject
                      {| last_processed_id := last_processed_id state;
                         last_check := Some (now_iso w);
                         last_processing_run := last_processing_run state |}
                      others)
      | StateArray items => stateFile (fs st') = Parsed (StateArray items)
      | StateNull | StateScalar _ _ => False
      end
    ∧ (stateFile (fs st) = Absent ∨ stateFile (fs st) = Corrupt →
       stateFile (fs st') =
         Parsed (StateObject {| last_processed_id := None;
                                last_check := Some (now_iso w);
                                last_processing_run := None |} []))
    ∧ r_count r = length (r_bookmarks r)
    ∧ r_bookmarks r ≠ [].
Proof.
  intros Hrun Hwritten. pose proof (run_cases w config options st) as Hcases.
  destruct (fetchStep w config options st) as [[e|tweets] st1].
  { destruct Hcases as [Hc _]. by rewrite Hrun in Hc. }
  destruct Hcases as [Hfs Hcases].
  destruct (selectToProcess options _ _ tweets) as [|b toProcess] eqn:Hsel.
  { rewrite Hrun in Hcases. injection Hcases as -> ->. done. }
  destruct Hcases as (prepared & evs & Hprep & Hcases).
  destruct (existingPendingBookmarks (fs st)) as [e|existing];
    rewrite Hrun in Hcases; [done|].
  assert (stateFile (filesAfterRun w (fs st) (mergePending w existing prepared))
          = match setLastCheck w (loadedState (fs st)) with
            | inr state => Parsed state
            | inl _ => stateFile (fs st)
            end) as Hstate by done.
  destruct (setLastCheck w (loadedState (fs st))) as [e|state'] eqn:Hset; [done|].
  injection Hcases as -> ->. cbn [fs r_bookmarks r_count].
  exists existing. split; [done|]. split; [done|]. split.
  { rewrite Hstate. destruct (loadedState (fs st)); simpl in Hset; by simplify_eq. }
  split.
  { rewrite Hstate. intros [Hs|Hs]; unfold loadedState in Hset; rewrite Hs in Hset;
      simpl in Hset; by simplify_eq. }
  split; [done|].
  destruct (prepareAll_spec w (includeMediaOf config options) (b :: toProcess) st1)
    as (prepared' & evs' & Hprep' & Hall).
  rewrite Hprep in Hprep'. injection Hprep' as <- _.
  intros ->. inversion Hall.
Qed.

Lemma run_that_processed_writes_queue_and_state_witness :
  let w := Sample.listing [Sample.bookmark "1" (Some Sample.t1) ""] in
  let st := Sample.start
              {| archiveFile := None; pendingFile := Absent;
                 stateFile := Parsed (StateArray ["1"; "2"]) |} in
  let run := fetchAndPrepareBookmarks w Sample.noConfig Sample.noOptions st in
  match run.1 with
  | inr r =>
      stateFile (fs run.2) = Parsed (StateArray ["1"; "2"])
      ∧ r_count r = length (r_bookmarks r)
      ∧ r_bookmarks r ≠ []
  | inl _ => False
  end.
Proof.
  intros w st run.
  destruct run as [[e|r] st'] eqn:Hrun; simpl.
  - vm_compute in Hrun. discriminate Hrun.
  - destruct (run_that_processed_writes_queue_and_state w Sample.noConfig
                Sample.noOptions st st' r Hrun)
      as (existing & _ & _ & Hstate & _ & Hcount & Hne).
    { vm_compute in Hrun. by injection Hrun as <- _. }
    done.
Defined.

(** A state file that was missing is created with [last_check] alone set. *)
Example run_creates_the_state_file :
  let w := Sample.listing [Sample.bookmark "1" (Some Sample.t1) ""] in
  let run := fetchAndPrepareBookmarks w Sample.noConfig Sample.noOptions
               (Sample.start Sample.emptyFS) in
  stateFile (fs run.2)
  = Parsed (StateObject {| last_processed_id := None;
                           last_check := Some "2026-01-26T12:00:00.000Z";
                           last_processing_run := None |} []).
Proof. by vm_compute. Qed.

(** ** An unknown source *)

Lemma orStr_truthy (a : option string) (b : string) :
  b ≠ "" → Js.truthy (Js.orStr a b) = true.
Proof.
  intros Hb. unfold Js.orStr.
  destruct a as [s|]; [destruct (Js.truthy s) eqn:Hs; [done|]|];
    unfold Js.truthy; apply negb_true_iff; by apply String.eqb_neq.
Qed.

(** X8. A source other than 'bookmarks', 'likes' and 'both' makes the run
    throw "Invalid source" at once: no external call is made and no file is
    touched, whatever folders are configured. *)
Theorem unknown_source_is_rejected (w : World) (config : Config) (options : Options)
    (st : St) :
  sourceOf config options ≠ "bookmarks" →
  sourceOf config options ≠ "likes" →
  sourceOf config options ≠ "both" →
  fetchAndPrepareBookmarks w config options st =
    (inl (Error ("Invalid source: " +:+ sourceOf config options +:+
                 ". Must be 'bookmarks', 'likes', or 'both'.")), st).
Proof.
  intros Hb Hl Hboth. pose proof (run_cases w config options st) as Hcases.
  assert (fetchStep w config options st =
          (inl (Error ("Invalid source: " +:+ sourceOf config options +:+
                       ". Must be 'bookmarks', 'likes', or 'both'.")), st)) as Hfetch.
  { unfold fetchStep, fromFolders.
    apply String.eqb_neq in Hb as Hb'. rewrite Hb', andb_false_r.
    unfold fetchFromSource. simpl.
    assert (Js.truthy (sourceOf config options) = true) as ->
      by (by apply orStr_truthy).
    apply String.eqb_neq in Hl, Hboth. by rewrite Hb', Hl, Hboth. }
  rewrite Hfetch in Hcases. by destruct Hcases.
Qed.

Lemma unknown_source_is_rejected_witness :
  let config :=
    {| cfg_source := Some "tweets"; cfg_includeMedia := None;
       cfg_folders := [("f1", "work")] |} in
  fetchAndPrepareBookmarks (Sample.listing []) config Sample.noOptions
    (Sample.start Sample.emptyFS)
  = (inl (Error ("Invalid source: " +:+ sourceOf config Sample.noOptions +:+
                 ". Must be 'bookmarks', 'likes', or 'both'.")),
     Sample.start Sample.emptyFS).
Proof.
  intros config.
  apply (unknown_source_is_rejected (Sample.listing []) config Sample.noOptions);
    discriminate.
Defined.

(** ** Running again *)

Lemma pendingIdsOf_filesAfterRun (w : World) (f : FS) (queue : list Prepared) :
  pendingIdsOf (filesAfterRun w f queue) = list_to_set (p_id <$> queue).
Proof. done. Qed.

Lemma existing_ids_stay (f : FS) (existing : list Prepared) (i : string) :
  existingPendingBookmarks f = inr existing →
  i ∈ pendingIdsOf f → i ∈ p_id <$> existing.
Proof.
  unfold existingPendingBookmarks, pendingIdsOf.
  destruct (pendingFile f) as [| |doc]; try by intros _ ?%not_elem_of_empty.
  destruct (pd_bookmarks doc) as [[l|]|]; try by intros _ ?%not_elem_of_empty.
  intros [= <-]. by rewrite elem_of_list_to_set.
Qed.

(** X9. Dedup is idempotent: after a run in standard mode (no allow-list, not
    forced), nothing of the batch it fetched is selected again from the files
    it left, so a second run that fetches the same batch has nothing to
    process and writes nothing. *)
Theorem rerun_has_nothing_to_process (w : World) (config : Config) (options : Options)
    (st st' : St) (r : RunResult) :
  opt_specificIds options = None →
  opt_force options = false →
  fetchAndPrepareBookmarks w config options st = (inr r, st') →
  ∃ fetched st1,
    fetchStep w config options st = (inr fetched, st1)
    ∧ selectToProcess options (archiveIndex (fs st')) (pendingIdsOf (fs st')) fetched = []
    ∧ ∀ w2 st2 st3,
        fs st2 = fs st' →
        fetchStep w2 config options st2 = (inr fetched, st3) →
        fetchAndPrepareBookmarks w2 config options st2 = (inr nothingToDo, st3)
        ∧ fs st3 = fs st'.
Proof.
  intros Hids Hforce Hrun. pose proof (run_cases w config options st) as Hcases.
  destruct (fetchStep w config options st) as [[e|fetched] st1] eqn:Hfetch.
  { destruct Hcases as [Hc _]. by rewrite Hrun in Hc. }
  destruct Hcases as [Hfs Hcases].
  exists fetched, st1. split; [done|].
  assert (selectToProcess options (archiveIndex (fs st')) (pendingIdsOf (fs st')) fetched
          = []) as Hnone.
  { destruct (selectToProcess options (archiveIndex (fs st)) (pendingIdsOf (fs st))
                fetched) as [|b toProcess] eqn:Hsel.
    { rewrite Hrun in Hcases. injection Hcases as _ ->. by rewrite Hfs. }
    destruct Hcases as (prepared & evs & Hprep & Hcases).
    destruct (existingPendingBookmarks (fs st)) as [e|existing] eqn:Hex;
      rewrite Hrun in Hcases; [done|]. injection Hcases as _ ->. simpl.
    rewrite pendingIdsOf_filesAfterRun.
    destruct (prepareAll_spec w (includeMediaOf config options) (b :: toProcess) st1)
      as (prepared' & evs' & Hprep' & Hall).
    rewrite Hprep in Hprep'. injection Hprep' as <- _.
    rewrite <- Hsel in Hall.
    unfold selectToProcess in *. rewrite Hids, Hforce in *.
    apply filter_none. intros x Hx [Harch Hpend].
    apply Hpend. rewrite elem_of_list_to_set.
    rewrite mergePending_Permutation, fmap_app, elem_of_app.
    destruct (decide (bm_id x ∈ p_id <$> existing)) as [|Hnew]; [by left|right].
    assert (x ∈ filter (λ b, (bm_id b ∉ archiveIndex (fs st))
                             ∧ (bm_id b ∉ pendingIdsOf (fs st))) fetched) as Hsel'.
    { apply list_elem_of_filter. split; [|done]. split; [done|].
      intros Hp. apply Hnew. by eapply existing_ids_stay. }
    apply list_elem_of_lookup in Hsel' as [i Hi].
    destruct (Forall2_lookup_l _ _ _ _ _ Hall Hi) as (p & Hp & Hid & _).
    rewrite <- Hid. apply list_elem_of_fmap_2, list_elem_of_filter.
    split; [by rewrite Hid | by eapply list_elem_of_lookup_2]. }
  split; [done|].
  intros w2 st2 st3 Hfs2 Hfetch2.
  pose proof (run_cases w2 config options st2) as Hcases2.
  rewrite Hfetch2 in Hcases2. destruct Hcases2 as [Hfs3 Hcases2].
  rewrite Hfs2, Hnone in Hcases2. by rewrite Hfs3.
Qed.

Lemma rerun_has_nothing_to_process_witness :
  let w := Sample.listing [Sample.bookmark "1" (Some Sample.t1) ""] in
  let run := fetchAndPrepareBookmarks w Sample.noConfig Sample.noOptions
               (Sample.start Sample.emptyFS) in
  match run.1 with
  | inr r =>
      ∃ fetched st1,
        fetchStep w Sample.noConfig Sample.noOptions (Sample.start Sample.emptyFS)
          = (inr fetched, st1)
        ∧ selectToProcess Sample.noOptions (archiveIndex (fs run.2))
            (pendingIdsOf (fs run.2)) fetched = []
        ∧ ∀ w2 st2 st3,
            fs st2 = fs run.2 →
            fetchStep w2 Sample.noConfig Sample.noOptions st2 = (inr fetched, st3) →
            fetchAndPrepareBookmarks w2 Sample.noConfig Sample.noOptions st2
              = (inr nothingToDo, st3)
            ∧ fs st3 = fs run.2
  | inl _ => False
  end.
Proof.
  intros w run.
  destruct run as [[e|r] st'] eqn:Hrun; simpl.
  - vm_compute in Hrun. discriminate Hrun.
  - by apply (rerun_has_nothing_to_process w Sample.noConfig Sample.noOptions
                (Sample.start Sample.emptyFS) st' r).
Defined.

(** ** Links without content, and quoted posts *)

(** X10. For a link classified as video, media or image no content is
    resolved: the link has null content and expanding it was the only
    external call. *)
Theorem no_resolution_for_video_media_image (w : World) (bookmark : Bookmark)
    (link : string) (st : St) :
  detectLinkType (expansion w st link) ∈ [video; media; image] →
  processLink w bookmark link st =
    (inr {| original := link;
            expanded := expansion w st link;
            type := detectLinkType (expansion w st link);
            content := None |},
     after st [EvHead link]).
Proof.
  intros Hkind. unfold processLink. unfold bind at 1. rewrite expandTcoLink_eq.
  rewrite !elem_of_cons, elem_of_nil in Hkind.
  destruct Hkind as [Hk|[Hk|[Hk|[]]]]; rewrite Hk; by unfold bind, ret.
Qed.

Lemma no_resolution_for_video_media_image_witness :
  let w := Sample.githubDown "https://www.youtube.com/watch?v=abc123" in
  processLink w (Sample.bookmark "1" None "") "https://t.co/abc1"
    (Sample.start Sample.emptyFS)
  = (inr {| original := "https://t.co/abc1";
            expanded := expansion w (Sample.start Sample.emptyFS) "https://t.co/abc1";
            type := detectLinkType
                      (expansion w (Sample.start Sample.emptyFS) "https://t.co/abc1");
            content := None |},
     after (Sample.start Sample.emptyFS) [EvHead "https://t.co/abc1"]).
Proof.
  intros w.
  apply (no_resolution_for_video_media_image w).
  apply (bool_decide_unpack _). by vm_compute.
Defined.




(** ** The GitHub resolver *)

Lemma take_length (n : nat) (s : string) : String.length (Js.take n s) ≤ n.
Proof.
  revert s. induction n as [|n IH]; intros [|c s]; simpl; try lia.
  specialize (IH s). lia.
Qed.

Lemma take_allChars (cls : ascii → bool) (n : nat) (s : string) :
  Js.allChars cls s = true → Js.allChars cls (Js.take n s) = true.
Proof.
  revert s. induction n as [|n IH]; intros [|c s]; simpl; try done.
  intros [-> Hs]%andb_true_iff. by rewrite IH.
Qed.

Lemma slice0_len (n : N) (s : string) : (Js.len (Js.slice0 n s) ≤ n)%N.
Proof.
  unfold Js.len, Js.slice0. pose proof (take_length (N.to_nat n) s). lia.
Qed.

Lemma truncateReadme_len (readme : string) :
  (Js.len (truncateReadme readme) ≤ 5015)%N
  ∧ ((Js.len readme ≤ 5000)%N → truncateReadme readme = readme).
Proof.
  unfold truncateReadme.
  destruct (N.ltb_spec 5000 (Js.len readme)) as [Hlong|Hshort].
  - split; [|lia]. pose proof (slice0_len 5000 readme) as Hle.
    unfold Js.len in *. rewrite str_app_length.
    change (String.length (String "010" "...[truncated]")) with 15. lia.
  - split; [lia|done].
Qed.

Lemma extractGitHubInfo_sound (url owner repo : string) :
  extractGitHubInfo url = Some (owner, repo) →
  owner ≠ ""
  ∧ Js.allChars Js.notSlash owner = true
  ∧ Js.allChars Js.notSlash repo = true
  ∧ Contains url ("github.com/" +:+ owner +:+ "/").
Proof.
  unfold extractGitHubInfo. intros (pre & post & -> & Hh)%search_sound.
  destruct (Js.stripPrefix "github.com/" post) as [r|] eqn:Hr; simpl in Hh; [|done].
  apply stripPrefix_spec in Hr as ->.
  destruct (Js.span Js.notSlash r) as [o r1] eqn:Ho.
  apply span_spec in Ho as (-> & Hos & _).
  destruct (Js.truthy o) eqn:Hto; simpl in Hh; [|done].
  destruct (Js.stripPrefix "/" r1) as [r2|] eqn:Hr2; simpl in Hh; [|done].
  apply stripPrefix_spec in Hr2 as ->.
  destruct (Js.span Js.notSlash r2) as [rp rest] eqn:Hrp.
  apply span_spec in Hrp as (-> & Hrs & _).
  destruct (Js.truthy rp) eqn:Htr; simpl in Hh; [|done].
  injection Hh as <- <-. split.
  { unfold Js.truthy in Hto. by apply negb_true_iff, String.eqb_neq in Hto. }
  split; [done|]. split.
  { unfold dropGitSuffix. destruct (Js.endsWith rp ".git"); [|done].
    by apply take_allChars. }
  exists pre, (rp +:+ rest). by rewrite !str_app_assoc.
Qed.

(** X12. [fetchGitHubContent] throws "Could not parse GitHub URL" without any
    network call when the URL has no owner and repository after
    [github.com/]. Otherwise the owner is non-empty, neither name contains a
    slash, and the repository is requested at
    [https://api.github.com/repos/<owner>/<repo>]: if that request fails the
    failure is thrown after this one call; if it succeeds the README is
    requested and the content is returned whatever the README request does,
    with an empty README when it fails or has no content, and a README of at
    most 5,015 characters (5,000 and the truncation marker). *)
Theorem github_content_calls (w : World) (url : string) (st : St) :
  match extractGitHubInfo url with
  | None =>
      fetchGitHubContent w url st = (inl (Error "Could not parse GitHub URL"), st)
  | Some (owner, repo) =>
      let apiUrl := "https://api.github.com/repos/" +:+ owner +:+ "/" +:+ repo in
      owner ≠ ""
      ∧ Js.allChars Js.notSlash owner = true
      ∧ Js.allChars Js.notSlash repo = true
      ∧ match github_repo w (trace st) apiUrl with
        | inl msg =>
            fetchGitHubContent w url st = (inl (Error msg), after st [EvGitHubApi apiUrl])
        | inr repoJson =>
            ∃ g,
              fetchGitHubContent w url st =
                (inr g, after st [EvGitHubApi apiUrl; EvGitHubApi (apiUrl +:+ "/readme")])
              ∧ gh_readme g =
                  match github_readme w (trace st ++ [EvGitHubApi apiUrl])
                          (apiUrl +:+ "/readme") with
                  | inr (Some text) => truncateReadme text
                  | inr None | inl _ => ""
                  end
              ∧ (Js.len (gh_readme g) ≤ 5015)%N
              ∧ gh_name g = rj_name repoJson
              ∧ gh_stars g = rj_stargazers_count repoJson
        end
  end.
Proof.
  destruct (extractGitHubInfo url) as [[owner repo]|] eqn:Hinfo.
  - apply extractGitHubInfo_sound in Hinfo as Hsound.
    destruct Hsound as (Ho & Hos & Hrs & _).
    intros apiUrl. split; [done|]. split; [done|]. split; [done|].
    destruct (github_repo w (trace st) apiUrl) as [msg|repoJson] eqn:Hrepo.
    { unfold fetchGitHubContent. rewrite Hinfo. fold apiUrl.
      unfold bind at 1, call at 1. by rewrite Hrepo. }
    unfold fetchGitHubContent. rewrite Hinfo. fold apiUrl.
    unfold bind at 1, call at 1. rewrite Hrepo.
    unfold bind at 1, try_catch, bind at 1, call. simpl.
    destruct (github_readme w (trace st ++ [EvGitHubApi apiUrl]) (apiUrl +:+ "/readme"))
      as [msg|[text|]]; unfold ret; simpl; eexists; unfold after; simpl;
      rewrite <- app_assoc; (split; [done|]); simpl; (split; [done|]);
      (split; [|done]); try apply truncateReadme_len; done.
  - unfold fetchGitHubContent. by rewrite Hinfo.
Qed.

(** ** Article content *)

Lemma fetchArticleWithSummarize_eq (w : World) (url : string) (st : St) :
  fetchArticleWithSummarize w url st =
    if bool_decide (url_protocol w url = Some "http:" ∨ url_protocol w url = Some "https:")
    then
      (inr (match summarize w (trace st) url with
            | inr (Some ex) =>
                Some (FSummarize (Js.orOpt (ex_title ex) None)
                        (Js.orOpt (ex_description ex) None)
                        (Js.orStr (ex_content ex) ""))
            | inr None | inl _ => None
            end),
       after st [EvSummarize url])
    else (inr None, st).
Proof.
  unfold fetchArticleWithSummarize.
  destruct (url_protocol w url) as [protocol|].
  - destruct (String.eqb_spec protocol "http:") as [->|Hh];
      [|destruct (String.eqb_spec protocol "https:") as [->|Hs]];
      cbn [negb orb]; case_bool_decide as Hp.
    + munfold. by destruct (summarize w (trace st) url) as [|[|]].
    + destruct Hp. by left.
    + munfold. by destruct (summarize w (trace st) url) as [|[|]].
    + destruct Hp. by right.
    + destruct Hp as [[=]|[=]]; done.
    + done.
  - case_bool_decide as Hp; [|done]. by destruct Hp.
Qed.



(** X14. What [fetchArticleContent] returns is either the extraction of the
    summarize CLI, with a non-empty body and without any fetch of the page, or
    the page fetched directly after the CLI gave no body: then at most the
    first 50,000 characters are kept, and the paywall flag is set whenever
    fewer than 1,000 characters came back. *)
Theorem article_content_shape (w : World) (url : string) (st st' : St) (r : Fetched) :
  fetchArticleContent w url st = (inr r, st') →
  match r with
  | FSummarize _ _ text =>
      text ≠ "" ∧ st' = after st [EvSummarize url]
  | FDirect text paywalled =>
      (Js.len text ≤ 50000)%N
      ∧ paywalled = looksPaywalled text
      ∧ ((Js.len text < 1000)%N → paywalled = true)
      ∧ ∃ evs, st' = after st (evs ++ [EvDirectFetch url])
  | FGitHub _ | FPaywalled _ => False
  end.
Proof.
  unfold fetchArticleContent. unfold bind at 1. rewrite fetchArticleWithSummarize_eq.
  assert (∀ s0 : St, ∀ evs0,
            s0 = after st evs0 →
            (bind (call (EvDirectFetch url) (λ tr, http_get w tr url))
               (λ text, ret (FDirect (Js.slice0 50000 text)
                               (looksPaywalled (Js.slice0 50000 text)))) s0
             = (inr r, st')) →
            match r with
            | FSummarize _ _ text => text ≠ "" ∧ st' = after st [EvSummarize url]
            | FDirect text paywalled =>
                (Js.len text ≤ 50000)%N
                ∧ paywalled = looksPaywalled text
                ∧ ((Js.len text < 1000)%N → paywalled = true)
                ∧ ∃ evs, st' = after st (evs ++ [EvDirectFetch url])
            | FGitHub _ | FPaywalled _ => False
            end) as Hdirect.
  { intros s0 evs0 ->. unfold bind, call, ret.
    destruct (http_get w (trace (after st evs0)) url) as [msg|text]; [done|].
    intros [= <- <-]. split; [apply slice0_len|]. split; [done|]. split.
    - intros Hshort. unfold looksPaywalled.
      apply N.ltb_lt in Hshort. rewrite Hshort. apply orb_true_r.
    - exists evs0. unfold after. simpl. by rewrite app_assoc. }
  case_bool_decide.
  - destruct (summarize w (trace st) url) as [msg|[ex|]];
      try apply (Hdirect _ [EvSummarize url] eq_refl).
    destruct (Js.truthy (Js.orStr (ex_content ex) "")) eqn:Ht;
      [|apply (Hdirect _ [EvSummarize url] eq_refl)].
    unfold ret. intros [= <- <-]. split; [|done].
    unfold Js.truthy in Ht. by apply negb_true_iff, String.eqb_neq in Ht.
  - apply (Hdirect st []). by rewrite after_nil.
Qed.

Lemma article_content_shape_witness :
  let w := Sample.githubDown "https://example.com/post" in
  let run := fetchArticleContent w "https://example.com/post"
               (Sample.start Sample.emptyFS) in
  match run.1 with
  | inr (FSummarize _ _ text) =>
      text ≠ ""
      ∧ run.2 = after (Sample.start Sample.emptyFS) [EvSummarize "https://example.com/post"]
  | _ => False
  end.
Proof.
  intros w run.
  destruct run as [[e|r] st'] eqn:Hrun; simpl.
  - vm_compute in Hrun. discriminate Hrun.
  - pose proof (article_content_shape w "https://example.com/post"
                  (Sample.start Sample.emptyFS) st' r Hrun) as Hshape.
    vm_compute in Hrun. injection Hrun as <- <-. exact Hshape.
Defined.

(** X15. Whatever a link resolves to, page text extracted by the summarize
    CLI is stored with at most 50,000 characters and page text fetched
    directly with at most 10,000. *)
Theorem stored_page_text_is_capped (w : World) (bookmark : Bookmark) (link : string)
    (st : St) :
  ∃ l st',
    processLink w bookmark link st = (inr l, st')
    ∧ match content l with
      | Some (SummarizedContent _ _ text) => (Js.len text ≤ 50000)%N
      | Some (FallbackContent (Some text) _ _) => (Js.len text ≤ 10000)%N
      | _ => True
      end.
Proof.
  unfold processLink. unfold bind at 1. rewrite expandTcoLink_eq.
  set (e := expansion w st link). set (st1 := after st [EvHead link]).
  assert (∀ fr, match contentOf fr with
                | SummarizedContent _ _ text => (Js.len text ≤ 50000)%N
                | FallbackContent (Some text) _ _ => (Js.len text ≤ 10000)%N
                | _ => True
                end) as Hcap.
  { intros [| | |]; simpl; try done; apply slice0_len. }
  destruct (detectLinkType e) eqn:Hkind.
  - unfold bind at 1, try_catch, bind at 1.
    destruct (fetchContent w e github st1) as [[err|fr] st2];
      unfold bind, ret; eexists _, _; (split; [done|]); simpl; [done|apply Hcap].
  - unfold bind, ret. by eexists _, _.
  - destruct (run_shape (λ _, True) (fetchXArticleContent w (bm_id bookmark)) st1)
      as (a & evs & Hrun & _); [auto with calls..|].
    unfold bind at 1, bind at 1. rewrite Hrun. unfold bind, ret.
    eexists _, _. split; [done|]. simpl. by destruct a.
  - unfold bind, ret. by eexists _, _.
  - destruct (statusId e) as [qid|]; [|unfold bind, ret; by eexists _, _].
    destruct (run_shape (λ _, True) (fetchTweet w qid) st1)
      as (a & evs & Hrun & _); [auto with calls..|].
    unfold bind at 1, bind at 1. rewrite Hrun. unfold bind, ret.
    eexists _, _. split; [done|]. simpl. by destruct a.
  - unfold bind, ret. by eexists _, _.
  - unfold bind at 1, try_catch, bind at 1.
    destruct (fetchContent w e article st1) as [[err|fr] st2];
      unfold bind, ret; eexists _, _; (split; [done|]); simpl; [done|apply Hcap].
Qed.

(** ** Article identifiers *)

(** X16. The article identifier [extractXArticleId] finds in a URL is a
    non-empty string of decimal digits standing right after
    [x.com/i/article/]; and a URL in which it finds one is classified as a
    social article unless it is taken for a code host or a video first. *)
Theorem article_id_is_digits_after_marker (url id : string) :
  extractXArticleId url = Some id →
  DecimalDigits id
  ∧ Contains url ("x.com/i/article/" +:+ id)
  ∧ (¬ CodeHost url → ¬ VideoHost url → detectLinkType url = x_article).
Proof.
  unfold extractXArticleId. intros (pre & post & -> & Hh)%search_sound.
  destruct (Js.stripPrefix "x.com/i/article/" post) as [r|] eqn:Hr; simpl in Hh; [|done].
  apply stripPrefix_spec in Hr as ->.
  destruct (Js.span Js.isDigit r) as [d rest] eqn:Hd.
  apply span_spec in Hd as (-> & Hdig & _).
  destruct (Js.truthy d) eqn:Ht; [|done]. injection Hh as <-.
  split; [by apply digits_spec|]. split.
  { exists pre, rest. by rewrite !str_app_assoc. }
  intros Hcode Hvideo.
  apply (Classified_functional (pre +:+ "x.com/i/article/" +:+ d +:+ rest));
    [apply detectLinkType_Classified|].
  apply rule_social_article; [done..| |].
  - left. by exists pre, ("/i/article/" +:+ d +:+ rest).
  - exists (pre +:+ "x.com"), (d +:+ rest). by rewrite !str_app_assoc.
Qed.

Lemma article_id_is_digits_after_marker_witness :
  DecimalDigits "2012310917812502528"
  ∧ Contains "https://x.com/i/article/2012310917812502528?s=20"
      ("x.com/i/article/" +:+ "2012310917812502528")
  ∧ (¬ CodeHost "https://x.com/i/article/2012310917812502528?s=20" →
     ¬ VideoHost "https://x.com/i/article/2012310917812502528?s=20" →
     detectLinkType "https://x.com/i/article/2012310917812502528?s=20" = x_article).
Proof.
  apply (article_id_is_digits_after_marker
           "https://x.com/i/article/2012310917812502528?s=20").
  reflexivity.
Defined.

(** ** The state file *)



(** ** The listing command *)

(** X18. The bookmarks command is the paginated one exactly when pagination
    is asked for or more than 50 bookmarks are wanted; its page limit is then
    the configured one, or 10 when none or zero is configured, so it is never
    zero. Otherwise the command asks for the exact count, at most 50. An empty
    folder identifier is never passed on. *)
Theorem bookmarks_command_shape (count : nat) (options : FetchOptions) :
  match bookmarksCmd count options with
  | BookmarksAll folderId maxPages =>
      (fo_all options = true ∨ 50 < count)
      ∧ 0 < maxPages
      ∧ (fo_maxPages options = Some maxPages
         ∨ maxPages = 10 ∧ (fo_maxPages options = None ∨ fo_maxPages options = Some 0))
      ∧ folderId ≠ Some ""
  | BookmarksN folderId n =>
      fo_all options = false ∧ n = count ∧ count ≤ 50 ∧ folderId ≠ Some ""
  | Likes _ | Read _ => False
  end.
Proof.
  unfold bookmarksCmd.
  assert ((if Js.truthyOpt (fo_folderId options) then fo_folderId options else None)
          ≠ Some "") as Hfolder.
  { destruct (fo_folderId options) as [[|c f]|]; simpl; done. }
  destruct (fo_all options) eqn:Hall; simpl.
  - split; [by left|].
    destruct (fo_maxPages options) as [[|m]|]; simpl;
      (split; [lia|]); (split; [|done]); eauto.
  - destruct (Nat.ltb_spec 50 count) as [Hlt|Hle].
    + split; [by right|].
      destruct (fo_maxPages options) as [[|m]|]; simpl;
        (split; [lia|]); (split; [|done]); eauto.
    + done.
Qed.

(** ** The archive finds the post URLs the processor writes *)

Lemma allChars_app (cls : ascii → bool) (a b : string) :
  Js.allChars cls (a +:+ b) = Js.allChars cls a && Js.allChars cls b.
Proof.
  induction a as [|c a IH]; norm_app; simpl; [done|].
  by rewrite IH, andb_assoc.
Qed.

Lemma allChars_impl (cls cls' : ascii → bool) (s : string) :
  (∀ c, cls c = true → cls' c = true) →
  Js.allChars cls s = true → Js.allChars cls' s = true.
Proof.
  intros Himpl. induction s as [|c s IH]; simpl; [done|].
  intros [Hc Hs]%andb_true_iff. by rewrite (Himpl c Hc), IH.
Qed.

Lemma str_app_eq_app (a b c d : string) :
  a +:+ b = c +:+ d → String.length a ≤ String.length c →
  ∃ e, c = a +:+ e ∧ b = e +:+ d.
Proof.
  revert c. induction a as [|x a IH]; intros c; norm_app.
  - intros -> _. by exists c.
  - destruct c as [|y c]; norm_app; simpl; [lia|].
    intros [= -> Heq] Hlen. destruct (IH c Heq) as (e & -> & ->); [lia|].
    by exists e.
Qed.

Lemma last_char_of_suffix (a b d : string) (c : ascii) :
  a +:+ String c "" = b +:+ d → d ≠ "" → ∃ d', d = d' +:+ String c "".
Proof.
  revert a. induction b as [|x b IH]; intros a; norm_app.
  - intros <- _. by exists a.
  - destruct a as [|y a]; norm_app.
    + intros [= -> Heq] Hd. destruct b; norm_app_in Heq; [|done].
      by subst d.
    + intros [= -> Heq] Hd. by apply (IH a).
Qed.

Lemma scan_finds {A} (here : string → option (A * nat)) (pre occ : string)
    (a : A) (n skip : nat) :
  occ ≠ "" →
  here occ = Some (a, n) →
  skip ≤ String.length pre →
  (∀ p1 p2 b m,
     pre = p1 +:+ p2 → p2 ≠ "" → here (p2 +:+ occ) = Some (b, m) →
     m ≤ String.length p2) →
  a ∈ Js.scan here skip (pre +:+ occ).
Proof.
  intros Hocc Hhere. revert skip.
  induction pre as [|c pre IH]; intros skip Hskip Hfree; norm_app.
  - simpl in Hskip. assert (skip = 0) as -> by lia.
    destruct occ as [|c occ]; [done|]. simpl. rewrite Hhere. by left.
  - assert (∀ k, k ≤ String.length pre → a ∈ Js.scan here k (pre +:+ occ)) as Hrest.
    { intros k Hk. apply IH; [done|]. intros p1 p2 b m -> Hp2 Hh.
      by apply (Hfree (String c p1) p2 b m). }
    simpl in *. destruct skip as [|k]; [|apply Hrest; lia].
    destruct (here (String c (pre +:+ occ))) as [[b m]|] eqn:Hh; [|apply Hrest; lia].
    right. apply Hrest.
    pose proof (Hfree "" (String c pre) b m eq_refl) as Hm.
    norm_app_in Hm. specialize (Hm ltac:(done) Hh). simpl in Hm. lia.
Qed.

Lemma word_is_not_dot (c : ascii) :
  Js.isWord c = true → negb (Ascii.eqb c ".") = true.
Proof. by destruct c as [[] [] [] [] [] [] [] []]. Qed.

Lemma digit_is_not_dot (c : ascii) :
  Js.isDigit c = true → negb (Ascii.eqb c ".") = true.
Proof. by destruct c as [[] [] [] [] [] [] [] []]. Qed.

(** A match of the archive pattern never runs into the start of a later
    [x.] : the text of a match has its only dot right after its first
    character, and ends in a digit. *)
Lemma archive_match_stops_before (p2 rest id : string) (m : nat) :
  p2 ≠ "" →
  archiveMatchHere (p2 +:+ "x." +:+ rest) = Some (id, m) →
  m ≤ String.length p2.
Proof.
  intros Hp2 Hh.
  apply archiveMatchHere_sound in Hh
    as (user & post & Heq & _ & Hw & Hd' & _ & ->).
  assert (id ≠ "" ∧ Js.allChars Js.isDigit id = true) as [Hid Hd].
  { apply isNumericId_spec in Hd'. unfold isNumericId, Js.truthy in Hd'.
    apply andb_true_iff in Hd' as [Hne ?]. split; [|done].
    by apply negb_true_iff, String.eqb_neq in Hne. }
  set (T := "x.com/" +:+ user +:+ "/status/" +:+ id) in *.
  destruct (decide (String.length T ≤ String.length p2)) as [|Hlt]; [done|]. exfalso.
  replace ("x.com/" +:+ user +:+ "/status/" +:+ id +:+ post) with (T +:+ post) in Heq
    by (unfold T; by rewrite !str_app_assoc).
  destruct (str_app_eq_app p2 ("x." +:+ rest) T post Heq) as (e & HT & He); [lia|].
  destruct e as [|e0 [|e1 e2]]; norm_app_in He.
  - rewrite str_app_empty_r in HT. rewrite HT in Hlt. lia.
  - injection He as <- _.
    assert (∃ X, T = X +:+ id) as [X HX].
    { exists ("x.com/" +:+ user +:+ "/status/"). unfold T. by rewrite !str_app_assoc. }
    rewrite HX in HT. symmetry in HT.
    destruct (last_char_of_suffix p2 X id "x" HT) as (d' & ->).
    { done. }
    rewrite allChars_app in Hd. apply andb_true_iff in Hd as [_ Hx]. done.
  - injection He as <- <- _.
    destruct p2 as [|c p2]; [done|]. unfold T in HT. norm_app_in HT.
    injection HT as <- HT.
    destruct p2 as [|c p2]; norm_app_in HT; [done|].
    injection HT as <- HT.
    apply (f_equal (Js.allChars (λ c, negb (Ascii.eqb c ".")))) in HT.
    cbn [Js.allChars] in HT. rewrite !allChars_app in HT. cbn [Js.allChars] in HT.
    rewrite (allChars_impl _ _ user word_is_not_dot Hw) in HT.
    rewrite (allChars_impl _ _ id digit_is_not_dot Hd) in HT.
    simpl in HT. by rewrite !andb_false_r in HT.
Qed.

Lemma truthy_spec (s : string) : Js.truthy s = true ↔ s ≠ "".
Proof. unfold Js.truthy. by rewrite negb_true_iff, String.eqb_neq. Qed.

Lemma archiveMatchHere_complete (author id post : string) :
  author ≠ "" → Js.allChars Js.isWord author = true →
  DecimalDigits id →
  (∀ c t, post = String c t → Js.isDigit c = false) →
  archiveMatchHere ("x.com/" +:+ author +:+ "/status/" +:+ id +:+ post)
  = Some (id, (6 + String.length author + 8 + String.length id)%nat).
Proof.
  intros Ha Hw Hd Hpost.
  apply isNumericId_spec in Hd. unfold isNumericId in Hd.
  apply andb_true_iff in Hd as [Hid Hd].
  apply truthy_spec in Ha.
  unfold archiveMatchHere.
  rewrite (proj2 (stripPrefix_spec "x.com/" _ (author +:+ "/status/" +:+ id +:+ post)) eq_refl).
  cbn [mbind option_bind].
  rewrite (span_app Js.isWord author ("/status/" +:+ id +:+ post) Hw).
  2:{ intros c t Hc. norm_app_in Hc. by injection Hc as <- _. }
  rewrite Ha. cbn [negb].
  rewrite (proj2 (stripPrefix_spec "/status/" _ (id +:+ post)) eq_refl).
  cbn [mbind option_bind].
  rewrite (span_app Js.isDigit id post Hd Hpost).
  by rewrite Hid.
Qed.

Lemma archiveIndex_complete (f : FS) (pre author id post : string) :
  author ≠ "" → Js.allChars Js.isWord author = true →
  DecimalDigits id →
  (∀ c t, post = String c t → Js.isDigit c = false) →
  archiveFile f = Some (pre +:+ "x.com/" +:+ author +:+ "/status/" +:+ id +:+ post) →
  id ∈ archiveIndex f.
Proof.
  intros Ha Hw Hd Hpost Hf. unfold archiveIndex. rewrite Hf.
  apply elem_of_list_to_set.
  apply (scan_finds archiveMatchHere pre _ id
           (6 + String.length author + 8 + String.length id)).
  - by norm_app.
  - by apply archiveMatchHere_complete.
  - lia.
  - intros p1 p2 b m _ Hp2 Hh.
    apply (archive_match_stops_before p2
             ("com/" +:+ author +:+ "/status/" +:+ id +:+ post) b m Hp2).
    by norm_app_in Hh; norm_app.
Qed.

(** X19. The archive scan recognises the post address the processor writes.
    When the archive shows the [tweetUrl] of a prepared record, the author
    being made of word characters, the identifier of decimal digits, and no
    digit following the address, the identifier of the bookmark is in the
    archive index. *)
Theorem archived_post_url_is_indexed (w : World) (includeMedia : bool)
    (bookmark : Bookmark) (st st' : St) (p : Prepared) (f : FS)
    (pre post : string) :
  prepareBookmark w includeMedia bookmark st = (inr p, st') →
  Js.allChars Js.isWord (p_author p) = true →
  DecimalDigits (bm_id bookmark) →
  (∀ c t, post = String c t → Js.isDigit c = false) →
  archiveFile f = Some (pre +:+ p_tweetUrl p +:+ post) →
  p_id p ∈ archiveIndex f.
Proof.
  intros Hrun Hw Hd Hpost Hf.
  destruct (prepareBookmark_record w includeMedia bookmark st)
    as (links & reply & evs & Heq & _).
  rewrite Hrun in Heq. injection Heq as -> _. simpl in *.
  set (author := Js.orStr _ "unknown") in *.
  apply (archiveIndex_complete f (pre +:+ "https://") author (bm_id bookmark) post);
    [|done..|].
  - unfold author, Js.orStr.
    destruct (Js.orOpt _ _) as [s|]; [|done].
    destruct (Js.truthy s) eqn:Ht; [by apply truthy_spec|done].
  - rewrite Hf. f_equal. rewrite !str_app_assoc. by norm_app.
Qed.

Lemma archived_post_url_is_indexed_witness :
  "555" ∈ archiveIndex
            {| archiveFile := Some "- [Tweet](https://x.com/alice/status/555)";
               pendingFile := Absent; stateFile := Absent |}.
Proof.
  set (st := Sample.start Sample.emptyFS).
  set (bm := Sample.bookmark "555" None "hi").
  destruct (prepareBookmark Sample.offline false bm st) as [[e|p] st'] eqn:Hrun;
    [by vm_compute in Hrun|].
  assert (p_id p = "555" ∧ p_author p = "alice"
          ∧ p_tweetUrl p = "https://x.com/alice/status/555") as (Hid & Ha & Hu)
    by (vm_compute in Hrun; by injection Hrun as <- _).
  rewrite <- Hid.
  apply (archived_post_url_is_indexed Sample.offline false bm st st' p _
           "- [Tweet](" ")" Hrun).
  - by rewrite Ha.
  - apply (bool_decide_unpack _). by vm_compute.
  - by intros c t [= <- _].
  - by rewrite Hu.
Defined.

(** * Properties of the Obsidian notes *)

Section ObsidianProperties.

Import Obsidian.

(** ** Replacements as squeezes *)

Lemma replaceAll_skip (here : string → option nat) (rep d rest : string) :
  replaceAll here rep (String.length d) (d +:+ rest) = replaceAll here rep 0 rest.
Proof.
  induction d as [|c d IH]; norm_app; [done|]. simpl. apply IH.
Qed.

Lemma span_headIs (cls : ascii → bool) (s a b : string) :
  Js.span cls s = (a, b) → headIs cls b = false.
Proof.
  intros (_ & _ & Hb)%span_spec. destruct b as [|c t]; [done|]. by apply (Hb c t).
Qed.

Lemma squeeze_run (cls : ascii → bool) (r c : ascii) (d rest : string) :
  cls c = true → Js.allChars cls d = true → headIs cls rest = false →
  squeeze cls r (String c (d +:+ rest)) = String r (squeeze cls r rest).
Proof.
  revert c. induction d as [|x d IH]; intros c Hc Hd Hrest; norm_app.
  - simpl. by rewrite Hc, Hrest.
  - simpl in Hd. apply andb_true_iff in Hd as [Hx Hd].
    change (squeeze cls r (String c (String x (d +:+ rest))))
      with (if cls c then (if cls x then squeeze cls r (String x (d +:+ rest))
                           else String r (squeeze cls r (String x (d +:+ rest))))
            else String c (squeeze cls r (String x (d +:+ rest)))).
    rewrite Hc, Hx. by apply IH.
Qed.

(** Replacing every run of at least [least] characters of a class by the one
    character [r] squeezes the runs, for [least] one, and for [least] two
    when [r] is the only character of the class. *)
Lemma replaceAll_squeeze (cls : ascii → bool) (r : ascii) (least : nat) (s : string) :
  least = 1 ∨ (least = 2 ∧ ∀ c, cls c = true → c = r) →
  replaceAll (runOf cls least) (String r "") 0 s = squeeze cls r s.
Proof.
  intros Hleast.
  remember (String.length s) as n eqn:Hn.
  revert s Hn. induction (lt_wf n) as [n _ IH]. intros s Hn.
  destruct s as [|c t]; [done|].
  cbn [replaceAll].
  change (runOf cls least (String c t))
    with (let '(d, _) := Js.span cls (String c t) in
          if (least <=? String.length d)%nat then Some (String.length d) else None).
  destruct (Js.span cls (String c t)) as [d rest] eqn:Hspan.
  pose proof (span_headIs _ _ _ _ Hspan) as Hrest.
  pose proof (span_spec _ _ _ _ Hspan) as (Hs & Hd & _).
  destruct d as [|x d]; norm_app_in Hs.
  - subst rest. simpl in Hrest. simpl String.length.
    destruct Hleast as [->|[-> _]]; simpl; rewrite Hrest; f_equal;
      by apply (IH (String.length t)); [subst n; simpl; lia|].
  - injection Hs as <- ->. simpl in Hd. apply andb_true_iff in Hd as [Hc Hd].
    rewrite (squeeze_run cls r c d rest Hc Hd Hrest).
    assert (replaceAll (runOf cls least) (String r "") 0 rest = squeeze cls r rest) as Hrec.
    { apply (IH (String.length rest)); [|done].
      subst n. simpl. rewrite str_app_length. lia. }
    simpl String.length.
    destruct (least <=? S (String.length d))%nat eqn:Hle.
    + norm_app. f_equal. by rewrite replaceAll_skip.
    + apply Nat.leb_gt in Hle.
      destruct Hleast as [->|[-> Honly]]; [lia|].
      destruct d as [|y d]; [|simpl in Hle; lia].
      norm_app. by rewrite (Honly c Hc), Hrec.
Qed.

(** ** Squeezing *)

Lemma squeeze_nonempty (cls : ascii → bool) (r : ascii) (s : string) :
  s ≠ "" → squeeze cls r s ≠ "".
Proof.
  induction s as [|c t IH]; [done|]. intros _. simpl.
  destruct (cls c); [|done]. destruct t as [|x t]; [done|].
  destruct (headIs cls (String x t)); [by apply IH|done].
Qed.

Lemma squeeze_allChars (P cls : ascii → bool) (r : ascii) (s : string) :
  P r = true → Js.allChars P s = true → Js.allChars P (squeeze cls r s) = true.
Proof.
  intros Hr. induction s as [|c t IH]; [done|]. simpl.
  intros [Hc Ht]%andb_true_iff.
  destruct (cls c); [destruct (headIs cls t)|]; simpl; rewrite ?Hr, ?Hc; auto.
Qed.

Lemma squeeze_headIs (cls : ascii → bool) (r : ascii) (s : string) :
  cls r = true → headIs cls (squeeze cls r s) = headIs cls s.
Proof.
  intros Hr. induction s as [|c t IH]; [done|]. simpl.
  destruct (cls c) eqn:Hc; [|by simpl].
  destruct (headIs cls t) eqn:Ht; [by rewrite IH|by simpl].
Qed.

Lemma squeeze_noAdj (cls : ascii → bool) (r : ascii) (s : string) :
  cls r = true → noAdj cls (squeeze cls r s) = true.
Proof.
  intros Hr. induction s as [|c t IH]; [done|]. simpl.
  destruct (cls c) eqn:Hc.
  - destruct (headIs cls t) eqn:Ht; [done|]. simpl.
    by rewrite squeeze_headIs, Ht, IH, andb_false_r.
  - simpl. by rewrite Hc, IH.
Qed.

Lemma squeeze_headIs_wider (E cls : ascii → bool) (r : ascii) (s : string) :
  (∀ c, cls c = true → E c = true) →
  headIs E s = false → headIs E (squeeze cls r s) = false.
Proof.
  intros Hsub. destruct s as [|c t]; [done|]. simpl. intros Hc.
  destruct (cls c) eqn:Hcls; [by rewrite (Hsub c Hcls) in Hc|done].
Qed.

Lemma squeeze_lastIs_wider (E cls : ascii → bool) (r : ascii) (s : string) :
  (∀ c, cls c = true → E c = true) →
  lastIs E s = false → lastIs E (squeeze cls r s) = false.
Proof.
  intros Hsub. induction s as [|c t IH]; [done|].
  destruct t as [|x t].
  - simpl. intros Hc. destruct (cls c) eqn:Hcls; [by rewrite (Hsub c Hcls) in Hc|done].
  - intros Hlast. change (lastIs E (String c (String x t))) with (lastIs E (String x t)) in Hlast.
    specialize (IH Hlast).
    pose proof (squeeze_nonempty cls r (String x t) ltac:(done)) as Hne.
    change (squeeze cls r (String c (String x t)))
      with (if cls c then (if cls x then squeeze cls r (String x t)
                           else String r (squeeze cls r (String x t)))
            else String c (squeeze cls r (String x t))).
    destruct (squeeze cls r (String x t)) as [|y u] eqn:Hsq; [done|].
    by destruct (cls c), (cls x).
Qed.

Lemma squeeze_noAdj_other (D cls : ascii → bool) (r : ascii) (s : string) :
  D r = false → (∀ c, cls c = true → D c = false) →
  noAdj D s = true →
  noAdj D (squeeze cls r s) = true
  ∧ (headIs D (squeeze cls r s) = true → headIs D s = true).
Proof.
  intros Hr Hdis. induction s as [|c t IH]; [done|]. simpl.
  intros [Hc Ht]%andb_true_iff. destruct (IH Ht) as [IH1 IH2].
  destruct (cls c) eqn:Hcls.
  - rewrite (Hdis c Hcls). destruct (headIs cls t) eqn:Hhead.
    + split; [done|]. intros Hh. specialize (IH2 Hh).
      destruct t as [|x t]; [done|]. simpl in *. by rewrite (Hdis x Hhead) in IH2.
    + simpl. by rewrite Hr, IH1.
  - simpl. split; [|done]. rewrite IH1, andb_true_r.
    destruct (D c) eqn:HDc; [|done]. simpl in *.
    destruct (headIs D (squeeze cls r t)) eqn:Hh; [|done].
    by rewrite (IH2 eq_refl) in Hc.
Qed.

Lemma squeeze_fix (cls : ascii → bool) (r : ascii) (s : string) :
  (∀ c, cls c = true → c = r) → noAdj cls s = true → squeeze cls r s = s.
Proof.
  intros Honly. induction s as [|c t IH]; [done|]. simpl.
  intros [Hc Ht]%andb_true_iff. rewrite (IH Ht).
  destruct (cls c) eqn:Hcls; [|done]. simpl in Hc.
  apply negb_true_iff in Hc. by rewrite Hc, (Honly c Hcls).
Qed.

Lemma noAdj_includes (cls : ascii → bool) (c : ascii) (s : string) :
  cls c = true → noAdj cls s = true → Js.includes s (String c (String c "")) = false.
Proof.
  intros Hc. induction s as [|a t IH]; [done|].
  cbn [noAdj Js.includes]. intros [Ha Ht]%andb_true_iff. rewrite (IH Ht), orb_false_r.
  cbn [Js.startsWith]. destruct (Ascii.eqb_spec c a) as [<-|]; [|done].
  rewrite Hc in Ha. destruct t as [|b t]; [done|]. cbn [Js.startsWith].
  destruct (Ascii.eqb_spec c b) as [<-|]; [|done]. simpl in Ha. by rewrite Hc in Ha.
Qed.

(** ** Stripping the ends *)

Lemma dropWhile_allChars (P cls : ascii → bool) (s : string) :
  Js.allChars P s = true → Js.allChars P (dropWhile cls s) = true.
Proof.
  induction s as [|c t IH]; [done|]. simpl. intros [Hc Ht]%andb_true_iff.
  destruct (cls c); [auto|]. simpl. by rewrite Hc, Ht.
Qed.

Lemma dropWhileEnd_allChars (P cls : ascii → bool) (s : string) :
  Js.allChars P s = true → Js.allChars P (dropWhileEnd cls s) = true.
Proof.
  induction s as [|c t IH]; [done|]. simpl. intros [Hc Ht]%andb_true_iff.
  destruct (cls c && _); [done|]. simpl. by rewrite Hc, IH.
Qed.

Lemma dropWhile_headIs (cls : ascii → bool) (s : string) :
  headIs cls (dropWhile cls s) = false.
Proof.
  induction s as [|c t IH]; [done|]. simpl. destruct (cls c) eqn:Hc; [done|]. by simpl.
Qed.

Lemma dropWhileEnd_headIs (cls : ascii → bool) (s : string) :
  headIs cls s = false → headIs cls (dropWhileEnd cls s) = false.
Proof. destruct s as [|c t]; [done|]. simpl. intros Hc. by rewrite Hc. Qed.

Lemma dropWhileEnd_lastIs (cls : ascii → bool) (s : string) :
  lastIs cls (dropWhileEnd cls s) = false.
Proof.
  induction s as [|c t IH]; [done|]. simpl.
  destruct (dropWhileEnd cls t) as [|x u] eqn:Hr.
  - simpl. rewrite andb_true_r. destruct (cls c) eqn:Hc; [done|]. by simpl.
  - simpl. by rewrite andb_false_r.
Qed.

Lemma dropWhile_noAdj (D cls : ascii → bool) (s : string) :
  noAdj D s = true → noAdj D (dropWhile cls s) = true.
Proof.
  induction s as [|c t IH]; [done|]. intros H. pose proof H as [Hc Ht]%andb_true_iff.
  simpl. destruct (cls c); [auto|done].
Qed.

Lemma dropWhileEnd_noAdj (D cls : ascii → bool) (s : string) :
  noAdj D s = true →
  noAdj D (dropWhileEnd cls s) = true
  ∧ (headIs D (dropWhileEnd cls s) = true → headIs D s = true).
Proof.
  induction s as [|c t IH]; [done|]. simpl. intros [Hc Ht]%andb_true_iff.
  destruct (IH Ht) as [IH1 IH2].
  destruct (cls c && _); [done|]. simpl. split; [|done].
  rewrite IH1, andb_true_r. destruct (D c); [|done]. simpl in *.
  destruct (headIs D (dropWhileEnd cls t)); [|done]. by rewrite (IH2 eq_refl) in Hc.
Qed.

Lemma dropWhile_fix (cls : ascii → bool) (s : string) :
  headIs cls s = false → dropWhile cls s = s.
Proof. destruct s as [|c t]; [done|]. simpl. by intros ->. Qed.

Lemma dropWhileEnd_fix (cls : ascii → bool) (s : string) :
  lastIs cls s = false → dropWhileEnd cls s = s.
Proof.
  induction s as [|c t IH]; [done|]. destruct t as [|x t].
  - simpl. by intros ->.
  - intros Hlast. change (lastIs cls (String c (String x t))) with (lastIs cls (String x t)) in Hlast.
    change (dropWhileEnd cls (String c (String x t)))
      with (if cls c && negb (Js.truthy (dropWhileEnd cls (String x t)))
            then "" else String c (dropWhileEnd cls (String x t))).
    rewrite (IH Hlast). by rewrite andb_false_r.
Qed.

Lemma dropWhile_length (cls : ascii → bool) (s : string) :
  String.length (dropWhile cls s) ≤ String.length s.
Proof. induction s as [|c t IH]; [done|]. simpl. destruct (cls c); simpl; lia. Qed.

Lemma dropWhileEnd_length (cls : ascii → bool) (s : string) :
  String.length (dropWhileEnd cls s) ≤ String.length s.
Proof.
  induction s as [|c t IH]; [done|]. simpl. destruct (cls c && _); simpl; lia.
Qed.

Lemma stripEnds_length (cls : ascii → bool) (s : string) :
  String.length (stripEnds cls s) ≤ String.length s.
Proof.
  unfold stripEnds. pose proof (dropWhileEnd_length cls (dropWhile cls s)).
  pose proof (dropWhile_length cls s). lia.
Qed.

Lemma stripEnds_allChars (P cls : ascii → bool) (s : string) :
  Js.allChars P s = true → Js.allChars P (stripEnds cls s) = true.
Proof. intros H. by apply dropWhileEnd_allChars, dropWhile_allChars. Qed.

Lemma stripEnds_ends (cls : ascii → bool) (s : string) :
  headIs cls (stripEnds cls s) = false ∧ lastIs cls (stripEnds cls s) = false.
Proof.
  split; [apply dropWhileEnd_headIs, dropWhile_headIs | apply dropWhileEnd_lastIs].
Qed.

Lemma stripEnds_noAdj (D cls : ascii → bool) (s : string) :
  noAdj D s = true → noAdj D (stripEnds cls s) = true.
Proof. intros H. by apply dropWhileEnd_noAdj, dropWhile_noAdj. Qed.

Lemma stripEnds_fix (cls : ascii → bool) (s : string) :
  headIs cls s = false → lastIs cls s = false → stripEnds cls s = s.
Proof.
  intros Hh Hl. unfold stripEnds. rewrite (dropWhile_fix cls s Hh).
  by apply dropWhileEnd_fix.
Qed.

Lemma headIs_narrower (E cls : ascii → bool) (s : string) :
  (∀ c, cls c = true → E c = true) → headIs E s = false → headIs cls s = false.
Proof.
  intros Hsub. destruct s as [|c t]; [done|]. simpl. intros Hc.
  destruct (cls c) eqn:Hcls; [by rewrite (Hsub c Hcls) in Hc|done].
Qed.

Lemma lastIs_narrower (E cls : ascii → bool) (s : string) :
  (∀ c, cls c = true → E c = true) → lastIs E s = false → lastIs cls s = false.
Proof.
  intros Hsub. induction s as [|c t IH]; [done|]. destruct t as [|x t]; [|done].
  simpl. intros Hc. destruct (cls c) eqn:Hcls; [by rewrite (Hsub c Hcls) in Hc|done].
Qed.

(** ** File names *)

Lemma replaceClass_safe (name : string) :
  Js.allChars isSafe (replaceClass isApostrophe "-" (replaceClass isReserved "-" name)) = true.
Proof.
  induction name as [|c t IH]; [done|].
  unfold replaceClass in *. simpl. rewrite IH, andb_true_r.
  destruct (isReserved c) eqn:Hr; [done|].
  destruct (isApostrophe c) eqn:Ha; [done|].
  unfold isSafe. by rewrite Hr, Ha.
Qed.

Lemma replaceClass_fix (cls : ascii → bool) (r : ascii) (s : string) :
  Js.allChars (λ c, negb (cls c)) s = true → replaceClass cls r s = s.
Proof.
  unfold replaceClass. induction s as [|c t IH]; [done|]. simpl.
  intros [Hc Ht]%andb_true_iff. apply negb_true_iff in Hc. by rewrite Hc, IH.
Qed.

Lemma isDot_isEdge (c : ascii) : isDot c = true → isEdge c = true.
Proof. unfold isEdge. by intros ->. Qed.

Lemma isDash_isEdge (c : ascii) : isDash c = true → isEdge c = true.
Proof. unfold isEdge. intros ->. by rewrite orb_true_r. Qed.

Lemma isSpace_isEdge (c : ascii) : isSpace c = true → isEdge c = true.
Proof. unfold isEdge. intros ->. by rewrite orb_true_r. Qed.

Lemma isDot_only (c : ascii) : isDot c = true → c = "."%char.
Proof. unfold isDot. by intros ->%Ascii.eqb_eq. Qed.

Lemma isDash_only (c : ascii) : isDash c = true → c = "-"%char.
Proof. unfold isDash. by intros ->%Ascii.eqb_eq. Qed.

Lemma isDash_not_dot (c : ascii) : isDash c = true → isDot c = false.
Proof. by intros ->%isDash_only. Qed.

(** What the chain of replacements of [sanitizeFilename] comes to. *)
Lemma sanitizeFilename_eq (name : string) :
  sanitizeFilename name =
    if Js.truthy name then
      let z := squeeze isDash "-"
                 (stripEnds isEdge
                    (squeeze isDot "."
                       (replaceClass isApostrophe "-"
                          (replaceClass isReserved "-" name)))) in
      if Js.truthy (trim z) then trim z else "untitled"
    else "untitled".
Proof.
  unfold sanitizeFilename. destruct (Js.truthy name); [|done]. cbn [negb].
  rewrite (replaceAll_squeeze isDot "." 2) by (right; split; [done|apply isDot_only]).
  by rewrite (replaceAll_squeeze isDash "-" 1) by by left.
Qed.

Lemma sanitizeFilename_props (name : string) :
  sanitizeFilename name ≠ ""
  ∧ Js.allChars isSafe (sanitizeFilename name) = true
  ∧ headIs isEdge (sanitizeFilename name) = false
  ∧ lastIs isEdge (sanitizeFilename name) = false
  ∧ noAdj isDot (sanitizeFilename name) = true
  ∧ noAdj isDash (sanitizeFilename name) = true.
Proof.
  rewrite sanitizeFilename_eq. destruct (Js.truthy name); [|done]. cbv zeta.
  set (z2 := replaceClass isApostrophe "-" (replaceClass isReserved "-" name)).
  set (z4 := stripEnds isEdge (squeeze isDot "." z2)).
  set (z := squeeze isDash "-" z4).
  assert (Js.allChars isSafe z = true) as Hsafe.
  { apply squeeze_allChars; [done|]. apply stripEnds_allChars.
    apply squeeze_allChars; [done|]. apply replaceClass_safe. }
  destruct (stripEnds_ends isEdge (squeeze isDot "." z2)) as [Hh4 Hl4].
  assert (headIs isEdge z = false) as Hhead
    by (apply squeeze_headIs_wider; [apply isDash_isEdge|done]).
  assert (lastIs isEdge z = false) as Hlast
    by (apply squeeze_lastIs_wider; [apply isDash_isEdge|done]).
  assert (noAdj isDot z = true) as Hdots.
  { apply squeeze_noAdj_other; [done|apply isDash_not_dot|].
    apply stripEnds_noAdj. by apply squeeze_noAdj. }
  assert (noAdj isDash z = true) as Hdashes by by apply squeeze_noAdj.
  assert (trim z = z) as ->.
  { apply stripEnds_fix.
    - by apply (headIs_narrower isEdge); [apply isSpace_isEdge|].
    - by apply (lastIs_narrower isEdge); [apply isSpace_isEdge|]. }
  destruct (Js.truthy z) eqn:Hz; [|done].
  apply truthy_spec in Hz. done.
Qed.

(** X20. A sanitized file name is never empty; it holds no slash, backslash,
    colon, asterisk, question mark, double quote, angle bracket, bar or
    apostrophe; it neither starts nor ends with a dot, a dash or white space;
    and no two dots and no two dashes follow each other in it. *)
Theorem sanitizeFilename_is_safe (name : string) :
  sanitizeFilename name ≠ ""
  ∧ Js.allChars isSafe (sanitizeFilename name) = true
  ∧ headIs isEdge (sanitizeFilename name) = false
  ∧ lastIs isEdge (sanitizeFilename name) = false
  ∧ Js.includes (sanitizeFilename name) ".." = false
  ∧ Js.includes (sanitizeFilename name) "--" = false.
Proof.
  destruct (sanitizeFilename_props name) as (Hne & Hsafe & Hh & Hl & Hdots & Hdashes).
  split; [done|]. split; [done|]. split; [done|]. split; [done|].
  split.
  - by apply (noAdj_includes isDot).
  - by apply (noAdj_includes isDash).
Qed.

(** X21. Sanitizing is idempotent: a sanitized name is left as it is. *)
Theorem sanitizeFilename_idempotent (name : string) :
  sanitizeFilename (sanitizeFilename name) = sanitizeFilename name.
Proof.
  destruct (sanitizeFilename_props name) as (Hne & Hsafe & Hh & Hl & Hdots & Hdashes).
  set (r := sanitizeFilename name) in *.
  rewrite (sanitizeFilename_eq r).
  apply truthy_spec in Hne. rewrite Hne. cbv zeta.
  rewrite (replaceClass_fix isReserved).
  2:{ eapply allChars_impl; [|exact Hsafe]. intros c. unfold isSafe.
      by intros [? ?]%negb_true_iff%orb_false_iff; apply negb_true_iff. }
  rewrite (replaceClass_fix isApostrophe).
  2:{ eapply allChars_impl; [|exact Hsafe]. intros c. unfold isSafe.
      by intros [? ?]%negb_true_iff%orb_false_iff; apply negb_true_iff. }
  rewrite (squeeze_fix isDot "." r isDot_only Hdots).
  rewrite (stripEnds_fix isEdge r Hh Hl).
  rewrite (squeeze_fix isDash "-" r isDash_only Hdashes).
  assert (trim r = r) as ->.
  { apply stripEnds_fix.
    - by apply (headIs_narrower isEdge); [apply isSpace_isEdge|].
    - by apply (lastIs_narrower isEdge); [apply isSpace_isEdge|]. }
  by rewrite Hne.
Qed.

(** ** The first sentence *)

Lemma squeeze_class (cls : ascii → bool) (r : ascii) (s : string) :
  Js.allChars (λ c, negb (cls c) || Ascii.eqb c r) (squeeze cls r s) = true.
Proof.
  induction s as [|c t IH]; [done|]. simpl.
  destruct (cls c) eqn:Hc; [destruct (headIs cls t); [done|]|]; simpl.
  - by rewrite Ascii.eqb_refl, orb_true_r, IH.
  - by rewrite Hc, IH.
Qed.

Lemma squeeze_all_in_class (cls : ascii → bool) (r : ascii) (s : string) :
  cls r = true → Js.allChars cls (squeeze cls r s) = Js.allChars cls s.
Proof.
  intros Hr. induction s as [|c t IH]; [done|]. simpl.
  destruct (cls c) eqn:Hc; [destruct (headIs cls t); [done|]|]; simpl.
  - by rewrite Hr, IH.
  - by rewrite Hc.
Qed.

Lemma stripEnds_empty (cls : ascii → bool) (s : string) :
  stripEnds cls s = "" ↔ Js.allChars cls s = true.
Proof.
  unfold stripEnds. induction s as [|c t IH]; [done|]. simpl.
  destruct (cls c) eqn:Hc; [done|]. simpl. by rewrite Hc.
Qed.

Lemma stripEnds_cons (cls : ascii → bool) (c : ascii) (t : string) :
  cls c = false → ∃ u, stripEnds cls (String c t) = String c u.
Proof.
  intros Hc. unfold stripEnds. simpl. rewrite Hc. simpl. rewrite Hc. by eexists.
Qed.

Lemma take_length_le (n : nat) (s : string) :
  String.length (Js.take n s) ≤ String.length s.
Proof.
  revert s. induction n as [|n IH]; intros [|c s]; simpl; try lia.
  specialize (IH s). lia.
Qed.

Lemma take_headIs (cls : ascii → bool) (n : nat) (s : string) :
  headIs cls s = false → headIs cls (Js.take n s) = false.
Proof. by destruct n, s. Qed.

Lemma app_headIs (cls : ascii → bool) (a b : string) :
  headIs cls a = false → headIs cls b = false → headIs cls (a +:+ b) = false.
Proof. destruct a; norm_app; by simpl. Qed.

Lemma searchIndex_nonempty (here : string → bool) (s : string) (i : nat) :
  here "" = false → searchIndex here s = Some i → s ≠ "".
Proof. intros Hh. destruct s; simpl; [by rewrite Hh|done]. Qed.

(** X22. The first sentence taken from a text has at most 83 characters, is a
    single line in which all white space is the plain space, and does not
    start with white space; it is empty exactly when the text is missing or
    holds nothing but white space. *)
Theorem first_sentence_is_short_and_plain (text : option string) :
  String.length (extractFirstSentence text) ≤ 83
  ∧ Js.allChars isPlain (extractFirstSentence text) = true
  ∧ headIs isSpace (extractFirstSentence text) = false
  ∧ (extractFirstSentence text = ""
     ↔ text = None ∨ ∃ t, text = Some t ∧ Js.allChars isSpace t = true).
Proof.
  unfold extractFirstSentence. destruct text as [text|].
  2:{ split; [simpl; lia|]. split; [done|]. split; [done|]. split; [by left|done]. }
  destruct (Js.truthy text) eqn:Htext; cbn [negb].
  2:{ apply negb_false_iff, String.eqb_eq in Htext as ->.
      split; [simpl; lia|]. split; [done|]. split; [done|].
      split; [|done]. intros _. right. by exists "". }
  rewrite (replaceAll_squeeze isSpace " " 1) by by left.
  set (t1 := replaceClass (Ascii.eqb newline) " " text).
  set (cleaned := trim (squeeze isSpace " " t1)).
  assert (Js.allChars isSpace t1 = Js.allChars isSpace text) as Ht1.
  { unfold t1, replaceClass. clear. induction text as [|c t IH]; [done|].
    cbn [Js.allChars mapChars]. rewrite IH. f_equal.
    by destruct (Ascii.eqb_spec newline c) as [<-|]. }
  assert (cleaned = "" ↔ Js.allChars isSpace text = true) as Hempty.
  { unfold cleaned, trim. by rewrite stripEnds_empty, squeeze_all_in_class, Ht1. }
  assert (Js.allChars isPlain cleaned = true) as Hplain
    by apply stripEnds_allChars, squeeze_class.
  destruct (stripEnds_ends isSpace (squeeze isSpace " " t1)) as [Hhead _].
  fold (trim (squeeze isSpace " " t1)) in Hhead. fold cleaned in Hhead.
  assert (cleaned ≠ "" →
          ∀ r, r ≠ "" →
            r = "" ↔ Some text = None ∨ ∃ t, Some text = Some t ∧ Js.allChars isSpace t = true)
    as Hnonempty.
  { intros Hc r Hr. split; [done|]. intros [|(t & [= <-] & Ht)]; [done|].
    by apply Hempty in Ht. }
  destruct (searchIndex sentenceEndHere cleaned) as [i|] eqn:Hsearch;
    cbn [default from_option id].
  - destruct ((0 <? i)%nat && (i <? 80)%nat) eqn:Hrange.
    + apply andb_true_iff in Hrange as [_ Hi%Nat.ltb_lt].
      pose proof (searchIndex_nonempty _ _ _ eq_refl Hsearch) as Hc.
      split.
      { pose proof (stripEnds_length isSpace (Js.take (i + 1) cleaned)).
        pose proof (take_length (i + 1) cleaned). unfold trim. lia. }
      split; [by apply stripEnds_allChars, take_allChars|].
      split; [apply stripEnds_ends|].
      apply (Hnonempty Hc).
      destruct cleaned as [|c u]; [done|]. simpl in Hhead.
      replace (i + 1) with (S i) by lia. cbn [Js.take]. unfold trim.
      by destruct (stripEnds_cons isSpace c (Js.take i u) Hhead) as [v ->].
    + clear Hrange. destruct (String.length cleaned <=? 80)%nat eqn:Hlen.
      * apply Nat.leb_le in Hlen. split; [lia|]. split; [done|]. split; [done|].
        rewrite Hempty. split; [intros H; right; by exists text|].
        by intros [|(t & [= <-] & Ht)].
      * apply Nat.leb_gt in Hlen.
        assert (cleaned ≠ "") as Hc by (intros Heq; rewrite Heq in Hlen; simpl in Hlen; lia).
        pose proof (take_length 80 cleaned) as H80.
        destruct (lastIndexOf " " (Js.take 80 cleaned)) as [lastSpace|];
          [destruct (40 <? lastSpace)%nat|].
        all: split;
          [rewrite str_app_length; change (String.length "...") with 3;
           try (pose proof (take_length_le lastSpace (Js.take 80 cleaned))); lia|].
        all: split;
          [rewrite allChars_app; apply andb_true_iff;
           split; [by repeat apply take_allChars|done]|].
        all: split; [by apply app_headIs; [repeat apply take_headIs|]|].
        all: apply (Hnonempty Hc); intros Happ;
          apply (f_equal String.length) in Happ; rewrite str_app_length in Happ;
          change (String.length "...") with 3 in Happ; simpl in Happ; lia.
  - destruct (String.length cleaned <=? 80)%nat eqn:Hlen.
    + apply Nat.leb_le in Hlen. split; [lia|]. split; [done|]. split; [done|].
      rewrite Hempty. split; [intros H; right; by exists text|].
      by intros [|(t & [= <-] & Ht)].
    + apply Nat.leb_gt in Hlen.
      assert (cleaned ≠ "") as Hc by (intros Heq; rewrite Heq in Hlen; simpl in Hlen; lia).
      pose proof (take_length 80 cleaned) as H80.
      destruct (lastIndexOf " " (Js.take 80 cleaned)) as [lastSpace|];
        [destruct (40 <? lastSpace)%nat|].
      all: split;
        [rewrite str_app_length; change (String.length "...") with 3;
         try (pose proof (take_length_le lastSpace (Js.take 80 cleaned))); lia|].
      all: split;
          [rewrite allChars_app; apply andb_true_iff;
           split; [by repeat apply take_allChars|done]|].
      all: split; [by apply app_headIs; [repeat apply take_headIs|]|].
      all: apply (Hnonempty Hc); intros Happ;
        apply (f_equal String.length) in Happ; rewrite str_app_length in Happ;
        change (String.length "...") with 3 in Happ; simpl in Happ; lia.
Qed.

Lemma noAdj_app (cls : ascii → bool) (a b : string) :
  noAdj cls a = true → noAdj cls b = true → lastIs cls a = false →
  noAdj cls (a +:+ b) = true.
Proof.
  intros Ha Hb. induction a as [|c t IH]; norm_app; [done|].
  destruct t as [|x t]; norm_app_in IH; norm_app.
  - simpl. intros ->. by simpl.
  - intros Hlast. change (lastIs cls (String c (String x t))) with (lastIs cls (String x t)) in Hlast.
    cbn [noAdj headIs] in *. apply andb_true_iff in Ha as [-> Ha]. by apply IH.
Qed.

(** X23. The file name of a note is a non-empty base followed by [.md]; the
    base holds none of the characters a file name may not hold, no path
    separator among them, and does not start with a dot, a dash or white
    space. When the first link has a title the name has no two dots in a row;
    otherwise the base has at most 80 characters. *)
Theorem note_filename_is_safe (bookmark : NoteBookmark) :
  ∃ base,
    generateNoteFilename bookmark = base +:+ ".md"
    ∧ base ≠ ""
    ∧ Js.allChars isSafe base = true
    ∧ headIs isEdge base = false
    ∧ match linkContent nc_title bookmark with
      | Some _ => Js.includes (generateNoteFilename bookmark) ".." = false
      | None => String.length base ≤ MAX_FILENAME_LENGTH
      end.
Proof.
  unfold generateNoteFilename.
  destruct (linkContent nc_title bookmark) as [title|].
  - destruct (sanitizeFilename_props title) as (Hne & Hsafe & Hh & Hl & Hdots & _).
    exists (sanitizeFilename title). repeat (split; [done|]).
    apply (noAdj_includes isDot); [done|]. apply noAdj_app; [done|done|].
    by apply (lastIs_narrower isEdge); [apply isDot_isEdge|].
  - cbv zeta.
    set (b0 := if Js.truthy (extractFirstSentence (nb_text bookmark)) then _ else _).
    assert (b0 ≠ "" ∧ Js.allChars isSafe b0 = true ∧ headIs isEdge b0 = false)
      as (Hne & Hsafe & Hh).
    { unfold b0. destruct (Js.truthy _).
      - by destruct (sanitizeFilename_props
                       (atAuthor bookmark +:+ " - " +:+ extractFirstSentence (nb_text bookmark)))
          as (? & ? & ? & _).
      - by destruct (sanitizeFilename_props (atAuthor bookmark)) as (? & ? & ? & _). }
    clearbody b0.
    destruct (MAX_FILENAME_LENGTH <? String.length b0)%nat eqn:Hlen.
    + exists (trim (Js.take MAX_FILENAME_LENGTH b0)). split; [done|].
      destruct b0 as [|c u]; [done|]. simpl in Hh.
      assert (isSpace c = false) as Hc.
      { destruct (isSpace c) eqn:Hs; [by rewrite (isSpace_isEdge c Hs) in Hh|done]. }
      unfold MAX_FILENAME_LENGTH in *.
      change (Js.take 80 (String c u)) with (String c (Js.take 79 u)). unfold trim.
      pose proof (stripEnds_length isSpace (String c (Js.take 79 u))) as Hle.
      pose proof (take_length 79 u) as H79.
      assert (Js.allChars isSafe (stripEnds isSpace (String c (Js.take 79 u))) = true)
        as Hsafe'.
      { apply stripEnds_allChars. cbn [Js.allChars] in *.
        apply andb_true_iff in Hsafe as [Hc' Hu].
        by rewrite Hc', (take_allChars isSafe 79 u Hu). }
      destruct (stripEnds_cons isSpace c (Js.take 79 u) Hc) as [v Hv].
      rewrite Hv in *. split; [done|]. split; [done|]. split; [done|].
      cbn [String.length] in *. lia.
    + apply Nat.ltb_ge in Hlen. by exists b0.
Qed.

(** The truncation to 80 characters may leave a dot at the end of the base,
    which then stands next to the dot of the extension. *)
Example truncated_name_may_end_in_dot :
  generateNoteFilename
    {| nb_author :=
         Some ("aaaaaaaaaaaaaaaaaaaaaaaaaaaaaaaaaaaaaaa" +:+
               "aaaaaaaaaaaaaaaaaaaaaaaaaaaaaaaaaaaaaaa" +:+ ".b");
       nb_text := Some "hi"; nb_tweetUrl := None; nb_createdAt := None;
       nb_links := None |}
  = "@" +:+ "aaaaaaaaaaaaaaaaaaaaaaaaaaaaaaaaaaaaaaa" +:+
    "aaaaaaaaaaaaaaaaaaaaaaaaaaaaaaaaaaaaaaa" +:+ "..md".
Proof. by vm_compute. Qed.

(** ** Notes already in the vault *)

Lemma matchLines_cons {A} (here : string → option A) (bol : bool) (c : ascii)
    (t : string) :
  (bol = true → here (String c t) = None) →
  matchLines here bol (String c t) = matchLines here (isLineTerminator c) t.
Proof.
  intros H. cbn [matchLines]. destruct bol; [by rewrite H|done].
Qed.

Lemma matchLines_skip {A} (here : string → option A) (bol : bool) (a rest : string) :
  bol = false → Js.allChars notLineTerminator a = true →
  matchLines here bol (a +:+ rest) = matchLines here false rest.
Proof.
  intros ->. induction a as [|c a IH]; norm_app; [done|].
  cbn [Js.allChars]. intros [Hc Ha]%andb_true_iff.
  rewrite matchLines_cons by done.
  apply negb_true_iff in Hc. rewrite Hc. by apply IH.
Qed.

Lemma matchLines_here {A} (here : string → option A) (s : string) (v : A) :
  here s = Some v → matchLines here true s = Some v.
Proof. intros H. destruct s; simpl; by rewrite H. Qed.

Lemma fieldHere_mismatch (k c : ascii) (key s : string) :
  Ascii.eqb k c = false → fieldHere (String k key) (String c s) = None.
Proof.
  intros H. unfold fieldHere.
  change (Js.stripPrefix (String k key) (String c s))
    with (if Ascii.eqb k c then Js.stripPrefix key s else None).
  by rewrite H.
Qed.

Lemma fieldHere_found (key sp value rest : string) :
  Js.allChars isSpace sp = true →
  Js.allChars notQuote value = true → value ≠ "" →
  fieldHere key (key +:+ sp +:+ quote +:+ value +:+ quote +:+ rest) = Some value.
Proof.
  intros Hsp Hvalue Hne. unfold fieldHere.
  rewrite (proj2 (stripPrefix_spec key _ (sp +:+ quote +:+ value +:+ quote +:+ rest)) eq_refl).
  cbn [mbind option_bind].
  rewrite (span_app isSpace sp (quote +:+ value +:+ quote +:+ rest) Hsp).
  2:{ unfold quote. norm_app. by intros c t [= <- _]. }
  rewrite (proj2 (stripPrefix_spec quote _ (value +:+ quote +:+ rest)) eq_refl).
  cbn [mbind option_bind].
  rewrite (span_app notQuote value (quote +:+ rest) Hvalue).
  2:{ unfold quote. norm_app. by intros c t [= <- _]. }
  apply truthy_spec in Hne. rewrite Hne. cbn [negb].
  by rewrite (proj2 (stripPrefix_spec quote _ rest) eq_refl).
Qed.

Lemma extractSource_getSourceUrl (bookmark : NoteBookmark) :
  extractSource bookmark = getSourceUrl bookmark.
Proof.
  unfold extractSource, getSourceUrl, Js.orOpt, Js.orStr.
  destruct (firstLink bookmark ≫= nl_expanded) as [expanded|]; [|done].
  destruct (Js.truthy expanded) eqn:He; by rewrite ?He.
Qed.

Lemma authorLink_eq (author : string) :
  (if Js.startsWith author "@"
   then "[[@" +:+ sliceFrom 1 author +:+ "]]"
   else "[[" +:+ author +:+ "]]")
  = "[[" +:+ author +:+ "]]".
Proof.
  destruct (Js.startsWith author "@") eqn:Hat; [|done].
  apply startsWith_spec in Hat as [rest ->]. by norm_app.
Qed.

Ltac norm_str := repeat (progress rewrite ?app_String, ?app_empty).

Ltac pass_literal :=
  repeat (rewrite matchLines_cons
            by first [ intros _; apply fieldHere_mismatch; reflexivity
                     | let H := fresh in intros H; by vm_compute in H ]).

(** The [url] field read back from a note is the source URL it was written
    with. *)
Lemma noteUrl_formatClippingNote (clock : Clock) (bookmark : NoteBookmark) :
  Js.allChars notLineTerminator (extractAuthor bookmark) = true →
  Js.allChars notQuote (getSourceUrl bookmark) = true →
  getSourceUrl bookmark ≠ "" →
  noteUrl (formatClippingNote clock bookmark) = Some (getSourceUrl bookmark).
Proof.
  intros Hauthor Hquote Hne. unfold noteUrl, formatClippingNote. cbv zeta.
  rewrite authorLink_eq, extractSource_getSourceUrl.
  set (source := getSourceUrl bookmark) in *.
  set (author := extractAuthor bookmark) in *.
  set (tail := "created: " +:+ _).
  assert (matchLines (fieldHere "url:") true
            ("---" +:+ nl +:+ "categories:" +:+ nl +:+
             "  - " +:+ quote +:+ "[[Clippings]]" +:+ quote +:+ nl +:+
             "tags:" +:+ nl +:+ "  - clippings" +:+ nl +:+ "author:" +:+ nl +:+
             "  - " +:+ quote +:+ ("[[" +:+ author +:+ "]]") +:+ quote +:+ nl +:+
             "url: " +:+ quote +:+ source +:+ quote +:+ nl +:+ tail)
          = Some source) as ->; [|done].
  unfold nl, quote at 1 2 3 4. norm_str. pass_literal.
  rewrite matchLines_skip; [|by vm_compute|by rewrite allChars_app, Hauthor].
  norm_str. pass_literal.
  apply matchLines_here.
  by apply (fieldHere_found "url:" " " source (String newline tail)).
Qed.

Lemma findAmong_sound (path_join : string → string) (sourceUrl : string)
    (files : list (string * option string)) (path : string) :
  findAmong path_join sourceUrl files = Some path →
  ∃ pre file content post,
    files = pre ++ (file, Some content) :: post
    ∧ path = path_join file
    ∧ Js.endsWith file ".md" = true
    ∧ noteUrl content = Some sourceUrl
    ∧ Forall (λ e, Js.endsWith e.1 ".md" = true →
                   ∃ c, e.2 = Some c ∧ noteUrl c ≠ Some sourceUrl) pre.
Proof.
  induction files as [|[file content] rest IH]; [done|]. cbn [findAmong].
  destruct (Js.endsWith file ".md") eqn:Hmd; cbn [negb].
  - destruct content as [content|]; [|done]. case_bool_decide as Hurl.
    + intros [= <-]. by exists [], file, content, rest.
    + intros (pre & f & c & post & -> & -> & Hf & Hc & Hpre)%IH.
      exists ((file, Some content) :: pre), f, c, post.
      repeat (split; [done|]). constructor; [|done]. intros _. by exists content.
  - intros (pre & f & c & post & -> & -> & Hf & Hc & Hpre)%IH.
    exists ((file, content) :: pre), f, c, post.
    repeat (split; [done|]). constructor; [|done]. simpl. by rewrite Hmd.
Qed.

Lemma findAmong_complete (path_join : string → string) (sourceUrl : string)
    (pre post : list (string * option string)) (file content : string) :
  Js.endsWith file ".md" = true →
  noteUrl content = Some sourceUrl →
  Forall (λ e, Js.endsWith e.1 ".md" = true → is_Some e.2) pre →
  is_Some (findAmong path_join sourceUrl (pre ++ (file, Some content) :: post)).
Proof.
  intros Hmd Hurl. induction pre as [|[f c] pre IH]; intros Hpre.
  - simpl. by rewrite Hmd, bool_decide_eq_true_2.
  - apply Forall_cons in Hpre as [Hf Hpre]. simpl in *.
    destruct (Js.endsWith f ".md"); cbn [negb]; [|by apply IH].
    destruct (Hf eq_refl) as [c' ->]. case_bool_decide; [done|by apply IH].
Qed.

(** X24. A note that was written is found again: when a directory lists,
    under a name ending in [.md], the note formatted for a bookmark, and every
    [.md] entry before it can be read, the search by the source URL of the
    bookmark finds a note, provided the source URL is not empty and has no
    double quote and the author has no line break. *)
Theorem written_note_is_found_again (clock : Clock) (bookmark : NoteBookmark)
    (path_join : string → string) (pre post : list (string * option string))
    (file : string) :
  Js.endsWith file ".md" = true →
  Forall (λ e, Js.endsWith e.1 ".md" = true → is_Some e.2) pre →
  Js.allChars notLineTerminator (extractAuthor bookmark) = true →
  Js.allChars notQuote (getSourceUrl bookmark) = true →
  getSourceUrl bookmark ≠ "" →
  noteUrl (formatClippingNote clock bookmark) = Some (getSourceUrl bookmark)
  ∧ is_Some (findExistingNoteBySource path_join
               (Entries (pre ++ (file, Some (formatClippingNote clock bookmark)) :: post))
               (getSourceUrl bookmark)).
Proof.
  intros Hmd Hpre Hauthor Hquote Hne.
  pose proof (noteUrl_formatClippingNote clock bookmark Hauthor Hquote Hne) as Hurl.
  split; [done|]. unfold findExistingNoteBySource.
  apply truthy_spec in Hne. rewrite Hne. cbn [negb].
  by apply findAmong_complete.
Qed.

Lemma written_note_is_found_again_witness :
  noteUrl (formatClippingNote NoteSample.clock NoteSample.bookmarkWithLink)
    = Some (getSourceUrl NoteSample.bookmarkWithLink)
  ∧ is_Some (findExistingNoteBySource NoteSample.path_join
               (Entries ([("assets", None); ("old.md", Some NoteSample.existingNote)] ++
                         ("Why We Built Our Own Background Agent.md",
                          Some (formatClippingNote NoteSample.clock
                                  NoteSample.bookmarkWithLink)) :: []))
               (getSourceUrl NoteSample.bookmarkWithLink)).
Proof.
  apply (written_note_is_found_again NoteSample.clock NoteSample.bookmarkWithLink
           NoteSample.path_join
           [("assets", None); ("old.md", Some NoteSample.existingNote)] []
           "Why We Built Our Own Background Agent.md").
  - reflexivity.
  - apply Forall_cons. split; [intros H; by vm_compute in H|].
    apply Forall_cons. split; [intros _; by eexists|]. apply Forall_nil_2.
  - reflexivity.
  - reflexivity.
  - discriminate.
Defined.

(** X25. The note the search returns is the first [.md] entry of the
    directory whose [url] field (or, without one, [source] field) is the
    source URL asked for: every [.md] entry before it could be read and
    shows another URL. Nothing is found for an empty URL or without a
    readable directory. *)
Theorem found_note_has_the_source_url (path_join : string → string) (clippingsDir : Dir)
    (sourceUrl path : string) :
  findExistingNoteBySource path_join clippingsDir sourceUrl = Some path →
  sourceUrl ≠ ""
  ∧ ∃ pre file content post,
      clippingsDir = Entries (pre ++ (file, Some content) :: post)
      ∧ path = path_join file
      ∧ Js.endsWith file ".md" = true
      ∧ noteUrl content = Some sourceUrl
      ∧ Forall (λ e, Js.endsWith e.1 ".md" = true →
                     ∃ c, e.2 = Some c ∧ noteUrl c ≠ Some sourceUrl) pre.
Proof.
  unfold findExistingNoteBySource.
  destruct (Js.truthy sourceUrl) eqn:Hurl; cbn [negb]; [|done].
  apply truthy_spec in Hurl. destruct clippingsDir as [| |files]; [done..|].
  intros (pre & file & content & post & -> & Hrest)%findAmong_sound.
  split; [done|]. by exists pre, file, content, post.
Qed.

Lemma found_note_has_the_source_url_witness :
  "https://example.com/article" ≠ ""
  ∧ ∃ pre file content post,
      Entries [("notes.txt", None); ("existing.md", Some NoteSample.existingNote)]
        = Entries (pre ++ (file, Some content) :: post)
      ∧ "/vault/Clippings/existing.md" = NoteSample.path_join file
      ∧ Js.endsWith file ".md" = true
      ∧ noteUrl content = Some "https://example.com/article"
      ∧ Forall (λ e, Js.endsWith e.1 ".md" = true →
                     ∃ c, e.2 = Some c ∧ noteUrl c ≠ Some "https://example.com/article") pre.
Proof.
  apply (found_note_has_the_source_url NoteSample.path_join
           (Entries [("notes.txt", None); ("existing.md", Some NoteSample.existingNote)])
           "https://example.com/article" "/vault/Clippings/existing.md").
  reflexivity.
Defined.

(** The cases of the test suite of [sanitizeFilename]. *)
Example sanitizeFilename_test_cases :
  sanitizeFilename "test/file" = "test-file"
  ∧ sanitizeFilename "test:file" = "test-file"
  ∧ sanitizeFilename "test|file" = "test-file"
  ∧ sanitizeFilename "test\file" = "test-file"
  ∧ sanitizeFilename "test?file*name" = "test-file-name"
  ∧ sanitizeFilename "test<file>name" = "test-file-name"
  ∧ sanitizeFilename ("test" +:+ quote +:+ "file'name") = "test-file-name"
  ∧ sanitizeFilename "  test file  " = "test file"
  ∧ sanitizeFilename "" = "untitled"
  ∧ sanitizeFilename "///" = "untitled"
  ∧ sanitizeFilename ".hidden" = "hidden"
  ∧ sanitizeFilename "file." = "file"
  ∧ sanitizeFilename "...test..." = "test"
  ∧ sanitizeFilename ".." = "untitled"
  ∧ sanitizeFilename "test..file" = "test.file"
  ∧ sanitizeFilename "../../../etc/passwd" = "etc-passwd".
Proof. by vm_compute. Qed.

(** The file names the test suite expects. *)
Example generateNoteFilename_test_cases :
  generateNoteFilename NoteSample.bookmarkWithLink
    = "Why We Built Our Own Background Agent.md"
  ∧ generateNoteFilename NoteSample.bookmarkWithoutLink
    = "@dhh - Just shipped Rails 8 with the new async rendering pipeline.md".
Proof. by vm_compute. Qed.

(** ** Writing a note *)

Lemma wrapError_cases (filename msg : string) :
  Js.includes (message (wrapError filename msg)) "escape vault directory" = true
  ∨ message (wrapError filename msg)
    = "Failed to write note " +:+ quote +:+ filename +:+ quote +:+ ": " +:+ msg.
Proof.
  unfold wrapError. destruct (Js.includes msg _) eqn:Hm; [by left|by right].
Qed.

(** X26. A note is not written twice: when the clippings directory already
    lists, under a name ending in [.md], the note formatted for the bookmark at
    any earlier time, then, unless duplicates are allowed, the bookmark is
    reported as skipped for the reason 'duplicate', with no content, and
    neither a directory nor a file is written. The source URL must not be
    empty nor hold a double quote, the author must hold no line break, and
    the [.md] entries before the note must be readable. *)
Theorem note_is_not_written_twice (disk : Disk) (clock earlier : Clock)
    (vaultPath : option string) (bookmark : NoteBookmark) (options : WriteOptions)
    (clippingsDir file : string) (pre post : list (string * option string)) :
  Js.truthyOpt vaultPath = true →
  wo_skipDuplicates options ≠ Some false →
  clippingsDir = fs_resolve disk (default "" vaultPath)
                   (default "Clippings" (wo_clippingsFolder options)) →
  fs_directory disk clippingsDir
    = Entries (pre ++ (file, Some (formatClippingNote earlier bookmark)) :: post) →
  Js.endsWith file ".md" = true →
  Forall (λ e, Js.endsWith e.1 ".md" = true → is_Some e.2) pre →
  (∀ f, fs_join disk clippingsDir f ≠ "") →
  Js.allChars notLineTerminator (extractAuthor bookmark) = true →
  Js.allChars notQuote (getSourceUrl bookmark) = true →
  getSourceUrl bookmark ≠ "" →
  ∃ r found,
    writeClippingNote disk clock vaultPath bookmark options = (inr r, [])
    ∧ wr_skipped r = true
    ∧ wr_content r = None
    ∧ wr_reason r = Some "duplicate"
    ∧ wr_filePath r = fs_join disk clippingsDir found
    ∧ Js.endsWith found ".md" = true.
Proof.
  intros Hvault Hskip -> Hdir Hmd Hpre Hjoin Hauthor Hquote Hne.
  pose proof (noteUrl_formatClippingNote earlier bookmark Hauthor Hquote Hne) as Hurl.
  unfold writeClippingNote. rewrite Hvault. cbn [negb]. cbv zeta.
  set (clippingsDir := fs_resolve disk _ _) in *.
  rewrite Hdir. cbn [isNoDir].
  assert (default true (wo_skipDuplicates options) = true) as ->
    by (by destruct (wo_skipDuplicates options) as [[]|]).
  unfold findExistingNoteBySource.
  apply truthy_spec in Hne. rewrite Hne. cbn [negb].
  destruct (findAmong_complete (fs_join disk clippingsDir) (getSourceUrl bookmark)
              pre post file _ Hmd Hurl Hpre) as [path Hfind].
  rewrite Hfind.
  apply findAmong_sound in Hfind as (pre' & found & content & post' & _ & -> & Hfound & _).
  assert (Js.truthyOpt (Some (fs_join disk clippingsDir found)) = true) as ->
    by (by apply truthy_spec).
  by eexists _, found.
Qed.

Lemma note_is_not_written_twice_witness :
  ∃ r found,
    writeClippingNote
      (NoteSample.disk
         (Entries ([("old.md", Some NoteSample.existingNote)] ++
                   ("Why We Built Our Own Background Agent.md",
                    Some (formatClippingNote NoteSample.earlier
                            NoteSample.bookmarkWithLink)) :: [])))
      NoteSample.clock (Some "/vault") NoteSample.bookmarkWithLink NoteSample.defaults
      = (inr r, [])
    ∧ wr_skipped r = true
    ∧ wr_content r = None
    ∧ wr_reason r = Some "duplicate"
    ∧ wr_filePath r
      = fs_join (NoteSample.disk
                   (Entries ([("old.md", Some NoteSample.existingNote)] ++
                             ("Why We Built Our Own Background Agent.md",
                              Some (formatClippingNote NoteSample.earlier
                                      NoteSample.bookmarkWithLink)) :: [])))
          "/vault/Clippings" found
    ∧ Js.endsWith found ".md" = true.
Proof.
  apply (note_is_not_written_twice _ NoteSample.clock NoteSample.earlier (Some "/vault")
           NoteSample.bookmarkWithLink NoteSample.defaults "/vault/Clippings"
           "Why We Built Our Own Background Agent.md"
           [("old.md", Some NoteSample.existingNote)] []).
  - reflexivity.
  - discriminate.
  - reflexivity.
  - reflexivity.
  - reflexivity.
  - apply Forall_cons. split; [intros _; by eexists|]. apply Forall_nil_2.
  - intros f. discriminate.
  - reflexivity.
  - reflexivity.
  - discriminate.
Defined.

(** X27. Whatever the disk does, [writeClippingNote] writes at most the one
    file [resolve(clippingsDir, filename)], with the formatted note as its
    text, and only when that path is the clippings directory or starts with
    it and the separator. Without a vault path it throws 'Vault path is
    required' and touches nothing. Every other exception either speaks of an
    escape from the vault directory or is 'Failed to write note' with the
    file name and the message of the failure. A result that is not skipped
    carries the text that was written; a skipped one carries none and wrote
    no file. *)
Theorem writes_stay_in_the_clippings_directory (disk : Disk) (clock : Clock)
    (vaultPath : option string) (bookmark : NoteBookmark) (options : WriteOptions)
    (res : Exn + WriteResult) (evs : list FsEvent) :
  writeClippingNote disk clock vaultPath bookmark options = (res, evs) →
  let clippingsDir :=
    fs_resolve disk (default "" vaultPath)
      (default "Clippings" (wo_clippingsFolder options)) in
  let filename := generateNoteFilename bookmark in
  (∀ path content,
     EvWriteFile path content ∈ evs →
     path = fs_resolve disk clippingsDir filename
     ∧ content = formatClippingNote clock bookmark
     ∧ (Js.startsWith path (clippingsDir +:+ fs_sep disk) = true ∨ path = clippingsDir)
     ∧ Js.truthyOpt vaultPath = true)
  ∧ (Js.truthyOpt vaultPath = false →
     res = inl (Error "Vault path is required") ∧ evs = [])
  ∧ (∀ e, res = inl e →
     message e = "Vault path is required"
     ∨ Js.includes (message e) "escape vault directory" = true
     ∨ ∃ msg, message e
              = "Failed to write note " +:+ quote +:+ filename +:+ quote +:+ ": " +:+ msg)
  ∧ (∀ r, res = inr r →
     if wr_skipped r
     then wr_content r = None ∧ ∀ path content, EvWriteFile path content ∉ evs
     else wr_content r = Some (formatClippingNote clock bookmark)
          ∧ EvWriteFile (wr_filePath r) (formatClippingNote clock bookmark) ∈ evs).
Proof.
  unfold writeClippingNote. cbv zeta.
  set (clippingsDir := fs_resolve disk _ _).
  set (filename := generateNoteFilename bookmark).
  set (content := formatClippingNote clock bookmark).
  set (filePath := fs_resolve disk clippingsDir filename).
  assert (∀ path c,
            EvWriteFile path c ∉
              (if isNoDir (fs_directory disk clippingsDir)
               then [EvMkdir clippingsDir] else [])) as Hmade.
  { intros path c. destruct (isNoDir _); [|by apply not_elem_of_nil].
    intros Hin. apply list_elem_of_singleton in Hin. discriminate. }
  destruct (Js.truthyOpt vaultPath) eqn:Hvault; cbn [negb].
  2:{ intros [= <- <-]. split; [by intros ? ? ?%not_elem_of_nil|].
      split; [done|]. split; [intros e [= <-]; by left|done]. }
  set (made := if isNoDir (fs_directory disk clippingsDir)
               then [EvMkdir clippingsDir] else []) in *.
  clearbody made.
  destruct (if isNoDir (fs_directory disk clippingsDir)
            then fs_mkdir disk clippingsDir else None) as [msg|].
  { intros [= <- <-]. split; [by intros ? ? ?%Hmade|]. split; [done|].
    split; [|done]. intros e [= <-]. right.
    destruct (wrapError_cases filename msg) as [H|H]; [by left|right; by exists msg]. }
  set (existingNote := if default true (wo_skipDuplicates options) then _ else None).
  destruct (Js.truthyOpt existingNote) eqn:Hexisting.
  { intros [= <- <-]. split; [by intros ? ? ?%Hmade|]. split; [done|].
    split; [done|]. intros r [= <-]. cbn [wr_skipped wr_content].
    split; [done|]. intros path c. by apply Hmade. }
  destruct (negb (Js.startsWith filePath (clippingsDir +:+ fs_sep disk))
            && negb (String.eqb filePath clippingsDir)) eqn:Hguard.
  { intros [= <- <-]. split; [by intros ? ? ?%Hmade|]. split; [done|].
    split; [|done]. intros e [= <-]. right.
    destruct (wrapError_cases filename
                ("Invalid filename would escape vault directory: " +:+ filename))
      as [H|H]; [by left|right; by eexists]. }
  assert (Js.startsWith filePath (clippingsDir +:+ fs_sep disk) = true
          ∨ filePath = clippingsDir) as Hinside.
  { apply andb_false_iff in Hguard as [H|H]; apply negb_false_iff in H;
      [by left|right; by apply String.eqb_eq]. }
  assert (∀ path c,
            EvWriteFile path c ∈ made ++ [EvWriteFile filePath content] →
            path = filePath ∧ c = content
            ∧ (Js.startsWith path (clippingsDir +:+ fs_sep disk) = true
               ∨ path = clippingsDir)
            ∧ true = true) as Hwrite.
  { intros path c [Hin|Hin]%elem_of_app; [by apply Hmade in Hin|].
    apply list_elem_of_singleton in Hin. by injection Hin as -> ->. }
  destruct (fs_write disk filePath content) as [msg|].
  - intros [= <- <-]. split; [done|]. split; [done|]. split; [|done].
    intros e [= <-]. right.
    destruct (wrapError_cases filename msg) as [H|H]; [by left|right; by exists msg].
  - intros [= <- <-]. split; [done|]. split; [done|]. split; [done|].
    intros r [= <-]. cbn [wr_skipped wr_content wr_filePath]. split; [done|].
    apply elem_of_app. right. by apply list_elem_of_singleton.
Qed.

Lemma writes_stay_in_the_clippings_directory_witness :
  Js.startsWith "/vault/Clippings/Why We Built Our Own Background Agent.md"
    "/vault/Clippings/" = true
  ∨ "/vault/Clippings/Why We Built Our Own Background Agent.md" = "/vault/Clippings".
Proof.
  destruct (writeClippingNote (NoteSample.disk NoDir) NoteSample.clock (Some "/vault")
              NoteSample.bookmarkWithLink NoteSample.defaults) as [res evs] eqn:Hrun.
  pose proof (writes_stay_in_the_clippings_directory (NoteSample.disk NoDir)
                NoteSample.clock (Some "/vault") NoteSample.bookmarkWithLink
                NoteSample.defaults res evs Hrun) as (Hwrites & _).
  apply (Hwrites "/vault/Clippings/Why We Built Our Own Background Agent.md"
           (formatClippingNote NoteSample.clock NoteSample.bookmarkWithLink)).
  vm_compute in Hrun. injection Hrun as _ <-.
  apply list_elem_of_further, list_elem_of_here.
Defined.

End ObsidianProperties.
